(** * The retrieval-augmented generation pipeline of the study assistant

    A shallow embedding of the server code that indexes a document, retrieves
    passages for a question, keeps the conversation memory and assembles the
    prompt, followed by the properties stated about it.

    Conventions of the embedding:
    - a JavaScript string is the list of its UTF-16 code units ([list N]), so
      that [length] is the [.length] of the source;
    - integer-valued numbers (token counts, page numbers, string lengths,
      budgets) are [Z];
    - the numbers of the similarity computations are IEEE 754 binary64
      values, the kernel's primitive [float], whose operations are the ones
      JavaScript's [number] has;
    - code that throws returns [Throw e] in the [result] type; [try]/[catch]
      is a [match] on it;
    - the disk, the database and the model provider are explicit: stores are
      finite maps, provider answers are fields of an environment record;
    - what the code awaits is done where it is called; a call that the code
      does not wait for only starts its work, which is done at some later
      time: the order in which such writes reach the database is chosen by a
      schedule, an argument of the model. *)

From Stdlib Require Import ZArith Floats DecimalString.
From stdpp Require Import gmap list sorting strings.

Open Scope Z_scope.

#[local] Set Warnings "-inexact-float".

(** ** JavaScript values *)

Module JS.

Abbreviation jsstring := (list N).

(** A literal of the source as code units. *)
Definition lit (s : string) : jsstring :=
  map Ascii.N_of_ascii (String.list_ascii_of_string s).

(** [\n]. *)
Definition nl : jsstring := [10%N].

(** [Math.ceil(n / 4)] for an integer [n]. *)
Definition ceil4 (n : Z) : Z := (n + 3) / 4.

(** [s.length]. *)
Definition len (s : jsstring) : Z := Z.of_nat (length s).

(** [l.length] of an array. *)
Definition len' {A} (l : list A) : Z := Z.of_nat (length l).

(** [s.substring(0, n)]: a negative [n] counts as 0, one beyond the end as
    the length. *)
Definition substring0 (s : jsstring) (n : Z) : jsstring := take (Z.to_nat n) s.

(** [\s] of a regular expression and the characters [trim] strips:
    WhiteSpace and LineTerminator code units. *)
Definition isSpace (c : N) : bool :=
  match c with
  | 9 | 10 | 11 | 12 | 13 | 32 | 160 | 5760 | 8232 | 8233 | 8239 | 8287
  | 12288 | 65279 => true
  | _ => (8192 <=? c) && (c <=? 8202)
  end%N.

(** [s.split(/\s+/)], reading [s] from the left: [cur] is the piece being
    read, [inRun] says that the last character was white space. A run of
    white space ends a piece, also an empty one at the start; the end of the
    string ends the last piece, also an empty one. *)
Fixpoint splitSpacesFrom (cur : jsstring) (inRun : bool) (s : jsstring)
  : list jsstring :=
  match s with
  | [] => [cur]
  | c :: s' =>
      if isSpace c then
        if inRun then splitSpacesFrom [] true s'
        else cur :: splitSpacesFrom [] true s'
      else splitSpacesFrom (cur ++ [c]) false s'
  end.

Definition splitSpaces (s : jsstring) : list jsstring :=
  splitSpacesFrom [] false s.

Fixpoint trimStart (s : jsstring) : jsstring :=
  match s with
  | c :: s' => if isSpace c then trimStart s' else s
  | [] => []
  end.

(** [s.trim()]. *)
Definition trim (s : jsstring) : jsstring :=
  reverse (trimStart (reverse (trimStart s))).

(** [l.join(sep)]. *)
Fixpoint join (sep : jsstring) (l : list jsstring) : jsstring :=
  match l with
  | [] => []
  | [x] => x
  | x :: l' => x ++ sep ++ join sep l'
  end.

(** [l.slice(start)]: a negative [start] counts from the end. *)
Definition slice {A} (start : Z) (l : list A) : list A :=
  let n := Z.of_nat (length l) in
  drop (Z.to_nat (if start <? 0 then Z.max (n + start) 0 else Z.min start n)) l.

(** A value in a condition: the empty string is the falsy one. *)
Definition truthy (s : jsstring) : bool :=
  match s with [] => false | _ => true end.

(** [String(n)] and [`${n}`] for an integer [n]: its decimal digits, with a
    minus sign when negative. *)
Definition numberToString (n : Z) : jsstring :=
  lit (NilZero.string_of_int (Z.to_int n)).

(** *** Numbers *)

(** An integer as a [number]. *)
Definition ofZ (z : Z) : float :=
  match z with
  | Z0 => PrimFloat.zero
  | Zpos _ => PrimFloat.of_uint63 (Uint63.of_Z z)
  | Zneg _ => PrimFloat.opp (PrimFloat.of_uint63 (Uint63.of_Z (- z)))
  end.

(** [Math.min(a, b)]: NaN when one of them is; of the two zeros the
    negative one. *)
Definition mathMin (a b : float) : float :=
  if PrimFloat.is_nan a || PrimFloat.is_nan b then PrimFloat.nan
  else if PrimFloat.ltb a b then a
  else if PrimFloat.ltb b a then b
  else if PrimFloat.is_zero a && negb (PrimFloat.get_sign a) then b else a.

(** [Math.max(a, b)]: NaN when one of them is; of the two zeros the
    positive one. *)
Definition mathMax (a b : float) : float :=
  if PrimFloat.is_nan a || PrimFloat.is_nan b then PrimFloat.nan
  else if PrimFloat.ltb a b then b
  else if PrimFloat.ltb b a then a
  else if PrimFloat.is_zero a && PrimFloat.get_sign a then b else a.

(** *** Regular expressions of the source *)

(** [\w]: a letter, a digit or the underscore. *)
Definition isWordChar (c : N) : bool :=
  ((48 <=? c) && (c <=? 57) || (65 <=? c) && (c <=? 90)
   || (97 <=? c) && (c <=? 122) || (c =? 95))%N.

Definition isUpper (c : N) : bool := ((65 <=? c) && (c <=? 90))%N.
Definition isLower (c : N) : bool := ((97 <=? c) && (c <=? 122))%N.

(** A character of the text against a character of a pattern under the [i]
    flag: a letter matches in both cases, any other character only itself
    (without the [u] flag no character beyond ASCII folds onto an ASCII one). *)
Definition matchesChar (p c : N) : bool :=
  ((c =? p) || isLower p && (c =? p - 32) || isUpper p && (c =? p + 32))%N.

(** The text starts with the pattern, case ignored; what follows it. *)
Fixpoint matchPrefix (pattern s : jsstring) : option jsstring :=
  match pattern, s with
  | [], _ => Some s
  | p :: pattern', c :: s' =>
      if matchesChar p c then matchPrefix pattern' s' else None
  | _ :: _, [] => None
  end.

(** [\b] next to a word character of the pattern: the neighbour in the text,
    if there is one, is not a word character. *)
Definition atBoundary (neighbour : option N) : bool :=
  match neighbour with
  | None => true
  | Some c => negb (isWordChar c)
  end.

(** [/\bphrase\b/i] matched at the start of [s], [prev] being the character
    before [s]. *)
Definition phraseHere (phrase : jsstring) (prev : option N) (s : jsstring) : bool :=
  atBoundary prev &&
  match matchPrefix phrase s with
  | Some rest => atBoundary (head rest)
  | None => false
  end.

(** [[a-z]+:?\s] at the start of [s]: the letters are taken greedily, and
    giving one back never helps, the next character being a letter. *)
Fixpoint lowersThenSpace (some : bool) (s : jsstring) : bool :=
  match s with
  | c :: s' =>
      if isLower c then lowersThenSpace true s'
      else some &&
           (isSpace c ||
            (c =? 58)%N && match s' with d :: _ => isSpace d | [] => false end)
  | [] => false
  end.

(** [^] under the [m] flag: the start of the text or of a line. *)
Definition atLineStart (prev : option N) : bool :=
  match prev with
  | None => true
  | Some c => ((c =? 10) || (c =? 13) || (c =? 8232) || (c =? 8233))%N
  end.

(** [/^[A-Z][a-z]+:?\s/m] matched at the start of [s]. *)
Definition termHere (prev : option N) (s : jsstring) : bool :=
  atLineStart prev &&
  match s with
  | c :: s' => isUpper c && lowersThenSpace false s'
  | [] => false
  end.

(** [pattern.test(text)] for a pattern given by its match at a position:
    some position of the text matches. *)
Fixpoint testFrom (here : option N -> jsstring -> bool) (prev : option N)
  (s : jsstring) : bool :=
  here prev s ||
  match s with
  | c :: s' => testFrom here (Some c) s'
  | [] => false
  end.

Definition test (here : option N -> jsstring -> bool) (text : jsstring) : bool :=
  testFrom here None text.

(** *** Exceptions *)

(** What a thrown value is: the [TypeError] the engine raises when a property
    of [undefined] is read, or an [Error] the code makes with a message. *)
Inductive exn :=
| TypeError (message : jsstring)
| Error (message : jsstring).

(** [error instanceof Error ? error.message : String(error)]; both kinds are
    instances of [Error]. *)
Definition exn_message (e : exn) : jsstring :=
  match e with TypeError m => m | Error m => m end.

Inductive result (A : Type) :=
| Ok (a : A)
| Throw (e : exn).
Arguments Ok {A} a.
Arguments Throw {A} e.

Definition bind {A B} (r : result A) (k : A -> result B) : result B :=
  match r with Ok a => k a | Throw e => Throw e end.

(** Evaluating [f] on every element in order, stopping at the first throw:
    what [Array.prototype.map] does with a callback that may throw. *)
Fixpoint mapM {A B} (f : A -> result B) (l : list A) : result (list B) :=
  match l with
  | [] => Ok []
  | a :: l' => bind (f a) (fun b => bind (mapM f l') (fun bs => Ok (b :: bs)))
  end.

End JS.

Export JS.

Notation "'let*' x ':=' r 'in' k" := (bind r (fun x => k))
  (at level 10, x name, r at level 100, k at level 200).

(** ** The model provider and the database schema *)

Module OpenAI.

(** The provider as the server sees it: whether [ENV.openaiApiKey] is set,
    the text of the first choice of a chat completion for a system
    instruction and a user text ([None] for a [null] content), and the
    vectors of an embeddings request. A request may throw. *)
Record Provider := {
  openaiApiKey : bool;
  chatCompletion : jsstring -> jsstring -> result (option jsstring);
  embeddingsCreate : list jsstring -> result (list (list float))
}.

End OpenAI.

(** The tables of the migration that the code below reads and writes; the
    columns it never touches ([id], [createdAt] of an index, [updatedAt],
    [title]) are left out. *)
Module Schema.

Inductive Status := PENDING | INDEXING | READY | ERROR.

Inductive Role := user | assistant | system.

Definition roleName (r : Role) : jsstring :=
  match r with
  | user => lit "user"
  | assistant => lit "assistant"
  | system => lit "system"
  end.

(** A row of [pdfIndexes]; [fileId] is its key. *)
Record PdfIndexRow := {
  status : Status;
  chunkCount : option Z;
  checksum : option jsstring;
  indexPath : option jsstring;
  errorMessage : option jsstring;
  progress : option Z;
  indexedAt : option jsstring
}.

(** A row of [pdfMessages]. *)
Record PdfMessage := {
  threadId : jsstring;
  role : Role;
  content : jsstring;
  tokenCount : option Z;
  citations : option jsstring;
  createdAt : Z
}.

(** A row of [pdfFiles]; [id] is its key. *)
Record PdfFile := {
  fileName : jsstring;
  fileKey : jsstring
}.

Record Tables := {
  pdfFiles : gmap Z PdfFile;
  pdfIndexes : gmap Z PdfIndexRow;
  pdfMessages : list PdfMessage
}.

End Schema.

(** ** db.ts *)

Module Db.
Import OpenAI Schema.

(** [InsertPdfIndex], the argument of [createOrUpdateIndex]: the file and
    the columns the caller gives. *)
Record InsertPdfIndex := {
  fileId : Z;
  newStatus : option Status;
  newProgress : option Z;
  newChunkCount : option Z;
  newChecksum : option jsstring;
  newIndexPath : option jsstring;
  newIndexedAt : option jsstring;
  newErrorMessage : option jsstring
}.

Definition databaseNotAvailable : exn := Error (lit "Database not available").

(** [getIndexByFileId]; [db] is what [getDb()] gives, [None] without a
    database. *)
Definition getIndexByFileId (db : option Tables) (fileId : Z) : option PdfIndexRow :=
  match db with
  | None => None
  | Some tables => pdfIndexes tables !! fileId
  end.

Definition getPdfFileById (db : option Tables) (id : Z) : option PdfFile :=
  match db with
  | None => None
  | Some tables => pdfFiles tables !! id
  end.

(** [db.update(pdfIndexes).set(data)]: the columns given replace the old
    ones. *)
Definition updatedRow (data : InsertPdfIndex) (row : PdfIndexRow) : PdfIndexRow :=
  {| status := default (status row) (newStatus data);
     chunkCount := from_option Some (chunkCount row) (newChunkCount data);
     checksum := from_option Some (checksum row) (newChecksum data);
     indexPath := from_option Some (indexPath row) (newIndexPath data);
     errorMessage := from_option Some (errorMessage row) (newErrorMessage data);
     progress := from_option Some (progress row) (newProgress data);
     indexedAt := from_option Some (indexedAt row) (newIndexedAt data) |}.

(** [db.insert(pdfIndexes).values(data)]: the columns not given take their
    defaults. *)
Definition insertedRow (data : InsertPdfIndex) : PdfIndexRow :=
  {| status := default PENDING (newStatus data);
     chunkCount := from_option Some (Some 0) (newChunkCount data);
     checksum := newChecksum data;
     indexPath := newIndexPath data;
     errorMessage := newErrorMessage data;
     progress := from_option Some (Some 0) (newProgress data);
     indexedAt := newIndexedAt data |}.

(** [createOrUpdateIndex(data)]: the tables after it, or what it throws. *)
Definition createOrUpdateIndex (data : InsertPdfIndex) (db : option Tables)
  : result Tables :=
  match db with
  | None => Throw databaseNotAvailable
  | Some tables =>
      let row :=
        match getIndexByFileId db (fileId data) with
        | Some existing => updatedRow data existing
        | None => insertedRow data
        end in
      Ok {| pdfFiles := pdfFiles tables;
            pdfIndexes := <[fileId data := row]> (pdfIndexes tables);
            pdfMessages := pdfMessages tables |}
  end.

(** [ORDER BY createdAt]: rows in the order of their time stamps, rows of
    one time stamp in the order they were inserted. *)
Fixpoint insertByCreatedAt (m : PdfMessage) (sorted : list PdfMessage)
  : list PdfMessage :=
  match sorted with
  | [] => [m]
  | m' :: sorted' =>
      if createdAt m' <? createdAt m then m' :: insertByCreatedAt m sorted'
      else m :: sorted
  end.

Definition orderByCreatedAt (rows : list PdfMessage) : list PdfMessage :=
  fold_right insertByCreatedAt [] rows.

(** [getThreadMessages(threadId, limit)]: the rows of the thread, ordered by
    [createdAt], cut by [LIMIT]. *)
Definition getThreadMessages (db : option Tables) (thread : jsstring) (limit : Z)
  : list PdfMessage :=
  match db with
  | None => []
  | Some tables =>
      take (Z.to_nat limit)
        (orderByCreatedAt (filter (fun m => threadId m = thread) (pdfMessages tables)))
  end.

(** [`${m.role}: ${m.content}`]. *)
Definition transcriptLine (m : PdfMessage) : jsstring :=
  roleName (role m) ++ lit ": " ++ content m.

(** [messages.map(m => `${m.role}: ${m.content}`).join("\n")]. *)
Definition transcript (messages : list PdfMessage) : jsstring :=
  join nl (map transcriptLine messages).

Definition summaryInstruction : jsstring :=
  lit "Summarize this conversation history in 200-300 words, preserving key questions and answers. Focus on main topics and important details.".

Definition summarizeThread (provider : Provider) (messages : list PdfMessage)
  : jsstring :=
  if (len' messages =? 0) then []
  else if negb (openaiApiKey provider) then
    join nl
      (map (fun m => roleName (role m) ++ lit ": "
                       ++ substring0 (content m) 100 ++ lit "...")
         (take 5 messages))
  else
    let conversationText := transcript messages in
    match chatCompletion provider summaryInstruction conversationText with
    | Ok (Some text) => text
    | Ok None => []
    | Throw _ => substring0 conversationText 1000 ++ lit "..."
    end.

Definition getThreadSummary (provider : Provider) (db : option Tables)
  (thread : jsstring) : jsstring :=
  match db with
  | None => []
  | Some _ =>
      let messages := getThreadMessages db thread 100 in
      if (len' messages =? 0) then []
      else
        let totalTokens :=
          fold_left (fun sum msg => sum + default 0 (tokenCount msg)) messages 0 in
        if totalTokens <? 2500 then transcript messages
        else
          let oldMessages := take (length messages - 10) messages in
          let recentMessages := slice (-10) messages in
          let summary := summarizeThread provider oldMessages in
          let recent := transcript recentMessages in
          lit "Previous conversation summary:" ++ nl ++ summary ++ nl ++ nl
            ++ lit "Recent messages:" ++ nl ++ recent
  end.

(** [estimateMessageTokens]. *)
Definition estimateMessageTokens (content : jsstring) : Z := ceil4 (len content).

End Db.

(** ** indexing.ts *)

Module Indexing.
Import OpenAI.

Record PdfChunk := {
  chunk_no : Z;
  page_start : Z;
  page_end : Z;
  content : jsstring;
  tokens : Z;
  preview : jsstring;
  embedding : option (list float)
}.

Record PdfIndex := {
  fileId : Z;
  checksum : jsstring;
  chunks : list PdfChunk;
  indexedAt : jsstring;
  totalChunks : Z
}.

(** [Math.ceil(text.length / 4)]. *)
Definition estimateTokens (text : jsstring) : Z := ceil4 (len text).

(** The variables of [chunkText]'s loops. *)
Record ChunkerState := {
  chunksOut : list PdfChunk;
  chunkNo : Z;
  currentChunk : jsstring;
  currentTokens : Z;
  chunkStartPage : Z;
  currentPage : Z
}.

(** The chunk that [chunks.push({...})] saves from the current buffer. *)
Definition savedChunk (st : ChunkerState) : PdfChunk :=
  {| chunk_no := chunkNo st;
     page_start := chunkStartPage st;
     page_end := currentPage st;
     content := trim (currentChunk st);
     tokens := currentTokens st;
     preview := substring0 (trim (currentChunk st)) 100 ++ lit "...";
     embedding := None |}.

(** The buffer a new chunk starts with:
    [overlapWords.join(" ") + " " + word + " "] for
    [overlapWords = currentChunk.split(/\s+/).slice(-overlap)]. *)
Definition seededChunk (overlap : Z) (currentChunk word : jsstring) : jsstring :=
  let overlapWords := slice (- overlap) (splitSpaces currentChunk) in
  join (lit " ") overlapWords ++ lit " " ++ word ++ lit " ".

(** The test that closes the current chunk before [word]. *)
Definition closesChunk (chunkSize : Z) (st : ChunkerState) (word : jsstring) : bool :=
  (chunkSize <? currentTokens st + estimateTokens (word ++ lit " "))
  && (0 <? len (currentChunk st)).

(** The body of the loop over the words of a page. *)
Definition wordStep (chunkSize overlap : Z) (st : ChunkerState) (word : jsstring)
  : ChunkerState :=
  let wordTokens := estimateTokens (word ++ lit " ") in
  if closesChunk chunkSize st word then
    let seeded := seededChunk overlap (currentChunk st) word in
    {| chunksOut := chunksOut st ++ [savedChunk st];
       chunkNo := chunkNo st + 1;
       currentChunk := seeded;
       currentTokens := estimateTokens seeded;
       chunkStartPage := currentPage st;
       currentPage := currentPage st |}
  else
    {| chunksOut := chunksOut st;
       chunkNo := chunkNo st;
       currentChunk := currentChunk st ++ word ++ lit " ";
       currentTokens := currentTokens st + wordTokens;
       chunkStartPage := chunkStartPage st;
       currentPage := currentPage st |}.

(** [pageText.split(/\s+/).filter(w => w.length > 0)]. *)
Definition pageWords (pageText : jsstring) : list jsstring :=
  filter (fun w => 0 < len w) (splitSpaces pageText).

(** The body of the loop over the pages. *)
Definition pageStep (chunkSize overlap : Z) (st : ChunkerState)
  (page : Z * jsstring) : ChunkerState :=
  let st := {| chunksOut := chunksOut st;
               chunkNo := chunkNo st;
               currentChunk := currentChunk st;
               currentTokens := currentTokens st;
               chunkStartPage := chunkStartPage st;
               currentPage := fst page |} in
  fold_left (wordStep chunkSize overlap) (pageWords (snd page)) st.

(** [entries.sort((a, b) => a[0] - b[0])]: the sort is stable, an entry goes
    behind the entries of the sorted rest whose page number is smaller. *)
Fixpoint insertPage (page : Z * jsstring) (pages : list (Z * jsstring))
  : list (Z * jsstring) :=
  match pages with
  | [] => [page]
  | p :: pages' =>
      if fst p <? fst page then p :: insertPage page pages' else page :: pages
  end.

Definition sortPages (pages : list (Z * jsstring)) : list (Z * jsstring) :=
  fold_right insertPage [] pages.

Definition initialState : ChunkerState :=
  {| chunksOut := []; chunkNo := 0; currentChunk := []; currentTokens := 0;
     chunkStartPage := 1; currentPage := 1 |}.

(** The state when both loops are done. *)
Definition chunkerRun (pageTexts : list (Z * jsstring)) (chunkSize overlap : Z)
  : ChunkerState :=
  fold_left (pageStep chunkSize overlap) (sortPages pageTexts) initialState.

(** [chunkText(pageTexts, chunkSize, overlap)]; [pageTexts] holds the entries
    of the [Map] in insertion order. *)
Definition chunkText (pageTexts : list (Z * jsstring)) (chunkSize overlap : Z)
  : list PdfChunk :=
  let st := chunkerRun pageTexts chunkSize overlap in
  if 0 <? len (trim (currentChunk st)) then chunksOut st ++ [savedChunk st]
  else chunksOut st.

Definition CHUNK_SIZE : Z := 800.
Definition CHUNK_OVERLAP : Z := 100.

(** What the indexing code reaches outside the process: the provider, the
    hash of [crypto], the text extraction of [pdfjs-dist] (the pages of a
    document given by its bytes, or what it throws), and the clock. *)
Record Host := {
  provider : Provider;
  md5Hex : list N -> jsstring;
  pdfPages : list N -> result (list (Z * jsstring));
  nowISO : jsstring
}.

(** What a write of an index file that throws leaves of the file. [fs.mkdir]
    or the opening of the file threw: the file is as it was. [fs.writeFile]
    threw after it had opened the file, which truncates it: the file holds
    none of the text or a part of it, which [JSON.parse] refuses. Or it
    threw when the whole text was in the file. *)
Inductive FileLeft := FileAsBefore | FileTruncated | FileWritten.

Record WriteFailure := {
  thrown : exn;
  fileLeft : FileLeft
}.

(** The files: the stored documents by path, the index files that can be
    read and parsed by file id, and whether the next write of an index file
    fails ([Some failure]: [fs.mkdir] or [fs.writeFile] throws). *)
Record Disk := {
  documents : gmap (list N) (list N);
  indexFiles : gmap Z PdfIndex;
  writeFailure : option WriteFailure
}.

(** [fs.readFile(path)]. *)
Definition readFile (disk : Disk) (path : jsstring) : result (list N) :=
  match documents disk !! path with
  | Some bytes => Ok bytes
  | None => Throw (Error (lit "ENOENT: no such file or directory"))
  end.

Definition extractPdfText (host : Host) (disk : Disk) (filePath : jsstring)
  : result (list (Z * jsstring)) :=
  let* buffer := readFile disk filePath in
  pdfPages host buffer.

Definition computeChecksum (host : Host) (buffer : list N) : jsstring :=
  md5Hex host buffer.

(** The inner loop of [generateEmbeddings]: [response.data[j].embedding] for
    every chunk of the batch; a missing [response.data[j]] is [undefined]. *)
Fixpoint attachEmbeddings (batch : list PdfChunk) (data : list (list float))
  : result (list PdfChunk) :=
  match batch, data with
  | [], _ => Ok []
  | c :: batch', e :: data' =>
      let* rest := attachEmbeddings batch' data' in
      Ok ({| chunk_no := chunk_no c; page_start := page_start c;
             page_end := page_end c; content := content c; tokens := tokens c;
             preview := preview c; embedding := Some e |} :: rest)
  | _ :: _, [] =>
      Throw (TypeError (lit "Cannot read properties of undefined (reading 'embedding')"))
  end.

(** The outer loop, over batches of [batchSize] chunks; [batches] bounds the
    number of batches, and the number of chunks is always enough. *)
Fixpoint embedBatches (provider : Provider) (batchSize : nat) (batches : nat)
  (chunks : list PdfChunk) : result (list PdfChunk) :=
  match batches, chunks with
  | _, [] => Ok []
  | O, _ :: _ => Ok []
  | S batches', _ :: _ =>
      let batch := take batchSize chunks in
      let texts := map content batch in
      let* data := embeddingsCreate provider texts in
      let* embedded := attachEmbeddings batch data in
      let* rest := embedBatches provider batchSize batches' (drop batchSize chunks) in
      Ok (embedded ++ rest)
  end.

Definition generateEmbeddings (provider : Provider) (chunks : list PdfChunk)
  : result (list PdfChunk) :=
  if negb (openaiApiKey provider) then
    Throw (Error (lit "OpenAI API key not configured"))
  else embedBatches provider 100 (length chunks) chunks.

(** [saveIndex(fileId, chunks, checksum)]: what it throws, if it does, and
    the disk after it. [fs.writeFile] writes to the path of the index itself,
    so a write that throws can leave the file of the index before it
    truncated. The path that is returned is only logged. *)
Definition saveIndex (host : Host) (file : Z) (chunks : list PdfChunk)
  (checksum : jsstring) (disk : Disk) : result unit * Disk :=
  let index := {| fileId := file; checksum := checksum; chunks := chunks;
                  indexedAt := nowISO host; totalChunks := len' chunks |} in
  let written := {| documents := documents disk;
                    indexFiles := <[file := index]> (indexFiles disk);
                    writeFailure := writeFailure disk |} in
  match writeFailure disk with
  | None => (Ok tt, written)
  | Some failure =>
      (Throw (thrown failure),
       match fileLeft failure with
       | FileAsBefore => disk
       | FileTruncated =>
           {| documents := documents disk;
              indexFiles := delete file (indexFiles disk);
              writeFailure := writeFailure disk |}
       | FileWritten => written
       end)
  end.

(** [loadIndex(fileId)]: the index stored for the file, [None] (the [null]
    of the source) when its file cannot be read or parsed. *)
Definition loadIndex (disk : Disk) (file : Z) : option PdfIndex :=
  indexFiles disk !! file.

(** What [indexPdf] resolves to. *)
Record IndexResult := {
  success : bool;
  chunkCount : Z;
  resultChecksum : jsstring;
  error : option jsstring
}.

(** [indexPdf(fileId, filePath, onProgress)]. [indexPdf] calls the callback
    and does not wait for what the call returns: [onProgress p] is what a
    call does at once, on a state [T] of the caller. The result, the disk
    and that state when [indexPdf] resolves. *)
Definition indexPdf {T : Type} (host : Host) (file : Z) (filePath : jsstring)
  (onProgress : option (Z -> T -> T)) (disk : Disk) (t : T)
  : IndexResult * Disk * T :=
  let progress (p : Z) (t : T) : T :=
    match onProgress with Some f => f p t | None => t end in
  let failed (e : exn) (disk : Disk) (t : T) :=
    ({| success := false; chunkCount := 0; resultChecksum := [];
        error := Some (exn_message e) |}, disk, t) in
  match readFile disk filePath with
  | Throw e => failed e disk t
  | Ok buffer =>
      let checksum := computeChecksum host buffer in
      let t := progress 10 t in
      match extractPdfText host disk filePath with
      | Throw e => failed e disk t
      | Ok pageTexts =>
          let t := progress 30 t in
          let chunks := chunkText pageTexts CHUNK_SIZE CHUNK_OVERLAP in
          let t := progress 50 t in
          match generateEmbeddings (provider host) chunks with
          | Throw e => failed e disk t
          | Ok chunksWithEmbeddings =>
              let t := progress 80 t in
              match saveIndex host file chunksWithEmbeddings checksum disk with
              | (Throw e, disk) => failed e disk t
              | (Ok _, disk) =>
                  let t := progress 100 t in
                  ({| success := true; chunkCount := len' chunks;
                      resultChecksum := checksum; error := None |}, disk, t)
              end
          end
      end
  end.

(** [needsReindex(fileId, currentChecksum)]. *)
Definition needsReindex (disk : Disk) (file : Z) (currentChecksum : jsstring) : bool :=
  match loadIndex disk file with
  | None => true
  | Some existingIndex => bool_decide (checksum existingIndex <> currentChecksum)
  end.

End Indexing.

(** ** retrieval.ts *)

Module Retrieval.
Import OpenAI Indexing.

(** [PdfChunk & { similarity: number }]. *)
Record RetrievedChunk := {
  base : PdfChunk;
  similarity : float
}.

(** The settings read from the environment, with the defaults of the source. *)
Record Config := {
  RETRIEVAL_TOP_K : Z;
  MMR_LAMBDA : float;
  MAX_CONTEXT_TOKENS : Z
}.

Definition defaultConfig : Config :=
  {| RETRIEVAL_TOP_K := 8; MMR_LAMBDA := 0.3; MAX_CONTEXT_TOKENS := 1600 |}.

(** [s.split("\n")], [cur] being the piece read so far. *)
Fixpoint splitLinesFrom (cur : jsstring) (s : jsstring) : list jsstring :=
  match s with
  | [] => [cur]
  | c :: s' =>
      if (c =? 10)%N then cur :: splitLinesFrom [] s'
      else splitLinesFrom (cur ++ [c]) s'
  end.

Definition alternativesInstruction : jsstring :=
  lit "Generate 2 alternative phrasings of the user's question. Return only the alternatives, one per line.".

Definition expandQuery (provider : Provider) (query : jsstring) : list jsstring :=
  if negb (openaiApiKey provider) then [query]
  else
    match chatCompletion provider alternativesInstruction query with
    | Ok content =>
        let alternatives :=
          match content with
          | Some text =>
              filter (fun s => 0 < len s /\ len s < 500)
                (map trim (splitLinesFrom [] text))
          | None => []
          end in
        query :: take 2 alternatives
    | Throw _ => [query]
    end.

Definition embedQueries (provider : Provider) (queries : list jsstring)
  : result (list (list float)) :=
  if negb (openaiApiKey provider) then
    Throw (Error (lit "OpenAI API key not configured"))
  else embeddingsCreate provider queries.

(** What reading [.length] of [undefined] throws. *)
Definition lengthOfUndefined : exn :=
  TypeError (lit "Cannot read properties of undefined (reading 'length')").

(** The sums of the loop of [cosineSimilarity] over the two vectors, index
    by index: [(dotProduct, magnitudeA, magnitudeB)]. *)
Fixpoint cosineSums (vecA vecB : list float) (sums : float * float * float)
  : float * float * float :=
  match vecA, vecB with
  | a :: vecA', b :: vecB' =>
      let '(dotProduct, magnitudeA, magnitudeB) := sums in
      cosineSums vecA' vecB'
        (dotProduct + a * b, magnitudeA + a * a, magnitudeB + b * b)%float
  | _, _ => sums
  end.

(** [cosineSimilarity(vecA, vecB)]. An argument is [None] when the
    expression passed, under its non-null assertion, is [undefined]. *)
Definition cosineSimilarity (vecA vecB : option (list float)) : result float :=
  match vecA, vecB with
  | None, _ => Throw lengthOfUndefined
  | Some _, None => Throw lengthOfUndefined
  | Some vecA, Some vecB =>
      if negb (length vecA =? length vecB)%nat then
        Throw (Error (lit "Vectors must have the same length"))
      else
        let '(dotProduct, magnitudeA, magnitudeB) :=
          cosineSums vecA vecB (0, 0, 0)%float in
        let magnitudeA := PrimFloat.sqrt magnitudeA in
        let magnitudeB := PrimFloat.sqrt magnitudeB in
        if (magnitudeA =? 0)%float || (magnitudeB =? 0)%float then Ok 0%float
        else Ok (dotProduct / (magnitudeA * magnitudeB))%float
  end.

(** The patterns of [hasDefinitionIndicators], in the order of the source. *)
Definition definitionPatterns : list (option N -> jsstring -> bool) :=
  [ phraseHere (lit "is defined as");
    phraseHere (lit "refers to");
    phraseHere (lit "means that");
    phraseHere (lit "is a");
    phraseHere (lit "is an");
    (fun prev s => phraseHere (lit "define") prev s
                   || phraseHere (lit "definition") prev s
                   || phraseHere (lit "defined") prev s);
    phraseHere (lit "characterized by");
    phraseHere (lit "can be described as");
    phraseHere (lit "essentially");
    phraseHere (lit "in other words");
    termHere ].

Definition hasDefinitionIndicators (text : jsstring) : bool :=
  existsb (fun pattern => test pattern text) definitionPatterns.

Definition calculatePriorityBoost (chunk : PdfChunk) (totalChunks : Z) : float :=
  let boost := 0%float in
  let positionBoost := (0.15 * (1 - ofZ (chunk_no chunk) / ofZ totalChunks))%float in
  let boost := (boost + positionBoost)%float in
  let boost :=
    if hasDefinitionIndicators (content chunk) then (boost + 0.10)%float else boost in
  let boost :=
    if (50 <=? tokens chunk) && (tokens chunk <=? 200) then (boost + 0.05)%float
    else boost in
  boost.

(** One pass of the inner loop that averages the query vectors:
    [avgQueryEmbed[i] += embed[i] / n]. Beyond the end of [avgQueryEmbed] the
    old value is [undefined], the sum NaN, and the assignment extends the
    array. *)
Fixpoint addEmbed (avgQueryEmbed embed : list float) (n : float) : list float :=
  match avgQueryEmbed, embed with
  | a :: avg', e :: embed' => (a + e / n)%float :: addEmbed avg' embed' n
  | [], _ :: embed' => PrimFloat.nan :: addEmbed [] embed' n
  | _, [] => avgQueryEmbed
  end.

(** The average query vector; [queryEmbeds[0].length] throws on an empty
    list. *)
Definition averageEmbedding (queryEmbeds : list (list float)) : result (list float) :=
  match queryEmbeds with
  | [] => Throw lengthOfUndefined
  | first :: _ =>
      Ok (fold_left
            (fun avg embed => addEmbed avg embed (ofZ (len' queryEmbeds)))
            queryEmbeds (replicate (length first) 0%float))
  end.

(** The callback of [chunks.map] in [mmrSearch]. *)
Definition scoreChunk (avgQueryEmbed : list float) (totalChunks : Z)
  (chunk : PdfChunk) : result RetrievedChunk :=
  let* baseSimilarity := cosineSimilarity (Some avgQueryEmbed) (embedding chunk) in
  let priorityBoost := calculatePriorityBoost chunk totalChunks in
  Ok {| base := chunk;
        similarity := mathMin 1.0 (baseSimilarity + priorityBoost)%float |}.

(** [candidates.sort((a, b) => b.similarity - a.similarity)]. The sort is
    stable: an element goes behind those of the sorted rest that the
    comparison puts strictly before it, the ones for which
    [compare(element, other) > 0]. *)
Fixpoint insertCandidate (c : RetrievedChunk) (sorted : list RetrievedChunk)
  : list RetrievedChunk :=
  match sorted with
  | [] => [c]
  | d :: sorted' =>
      if (0 <? similarity d - similarity c)%float then d :: insertCandidate c sorted'
      else c :: sorted
  end.

Definition sortCandidates (candidates : list RetrievedChunk) : list RetrievedChunk :=
  fold_right insertCandidate [] candidates.

(** The loop over [selected] that finds the largest similarity of
    [candidate] to a chunk already chosen. *)
Fixpoint maxSimilarityTo (candidate : RetrievedChunk) (selected : list RetrievedChunk)
  (maxSimilarity : float) : result float :=
  match selected with
  | [] => Ok maxSimilarity
  | selectedChunk :: selected' =>
      let* sim := cosineSimilarity (embedding (base candidate))
                    (embedding (base selectedChunk)) in
      maxSimilarityTo candidate selected' (mathMax maxSimilarity sim)
  end.

(** The loop over [remaining], from index [i] on, with the best score and
    index so far; the result is the final [bestIndex]. *)
Fixpoint bestFrom (lambda : float) (selected remaining : list RetrievedChunk)
  (i : nat) (bestScore : float) (bestIndex : nat) : result nat :=
  match remaining with
  | [] => Ok bestIndex
  | candidate :: remaining' =>
      let relevance := similarity candidate in
      let* maxSimilarity := maxSimilarityTo candidate selected 0%float in
      let mmrScore := (lambda * relevance - (1 - lambda) * maxSimilarity)%float in
      if (bestScore <? mmrScore)%float then
        bestFrom lambda selected remaining' (S i) mmrScore i
      else bestFrom lambda selected remaining' (S i) bestScore bestIndex
  end.

(** The [while] loop of [mmrSearch]. Every round moves one chunk from
    [remaining] to [selected], so [rounds = length remaining] rounds are
    enough for it to end by its own test. *)
Fixpoint mmrLoop (rounds : nat) (k : Z) (lambda : float)
  (selected remaining : list RetrievedChunk) : result (list RetrievedChunk) :=
  match rounds with
  | O => Ok selected
  | S rounds' =>
      if (len' selected <? k) && (0 <? len' remaining) then
        match selected with
        | [] =>
            match remaining with
            | first :: rest => mmrLoop rounds' k lambda [first] rest
            | [] => Ok selected
            end
        | _ :: _ =>
            let* bestIndex := bestFrom lambda selected remaining 0 neg_infinity 0 in
            match remaining !! bestIndex with
            | Some best =>
                mmrLoop rounds' k lambda (selected ++ [best])
                  (take bestIndex remaining ++ drop (S bestIndex) remaining)
            | None => Ok selected
            end
        end
      else Ok selected
  end.

Definition mmrSearch (queryEmbeds : list (list float)) (chunks : list PdfChunk)
  (k : Z) (lambda : float) : result (list RetrievedChunk) :=
  match chunks with
  | [] => Ok []
  | firstChunk :: _ =>
      match embedding firstChunk with
      | None => Ok []
      | Some _ =>
          let* avgQueryEmbed := averageEmbedding queryEmbeds in
          let totalChunks := len' chunks in
          let* candidates := mapM (scoreChunk avgQueryEmbed totalChunks) chunks in
          let candidates := sortCandidates candidates in
          mmrLoop (length candidates) k lambda [] candidates
      end
  end.

(** [{ ...chunk, content: chunk.content.substring(0, charLimit) + "...",
       tokens: remainingTokens }] with
    [charLimit = Math.floor(remainingTokens * 4)]. *)
Definition truncated (chunk : RetrievedChunk) (remainingTokens : Z) : RetrievedChunk :=
  let charLimit := remainingTokens * 4 in
  let c := base chunk in
  {| base := {| chunk_no := chunk_no c;
                page_start := page_start c;
                page_end := page_end c;
                content := substring0 (content c) charLimit ++ lit "...";
                tokens := remainingTokens;
                preview := preview c;
                embedding := embedding c |};
     similarity := similarity chunk |}.

(** The [for] loop of [compressContext]; [totalTokens] is the running
    counter, the result is what the loop pushes onto [compressed] from here
    on. *)
Fixpoint compressLoop (chunks : list RetrievedChunk) (maxTokens totalTokens : Z)
  : list RetrievedChunk :=
  match chunks with
  | [] => []
  | chunk :: rest =>
      if totalTokens + tokens (base chunk) <=? maxTokens then
        chunk :: compressLoop rest maxTokens (totalTokens + tokens (base chunk))
      else
        let remainingTokens := maxTokens - totalTokens in
        if 50 <? remainingTokens then [truncated chunk remainingTokens] else []
  end.

Definition compressContext (chunks : list RetrievedChunk) (maxTokens : Z)
  : list RetrievedChunk :=
  compressLoop chunks maxTokens 0.

(** [chunks.reduce((sum, c) => sum + c.tokens, 0)]. *)
Definition sumTokens (chunks : list RetrievedChunk) : Z :=
  fold_left (fun sum c => sum + tokens (base c)) chunks 0.

(** What [retrieveContext] resolves to. *)
Record Retrieved := {
  chunks : list RetrievedChunk;
  totalTokens : Z;
  error : option jsstring
}.

Definition retrieveContext (config : Config) (provider : Provider)
  (disk : Disk) (fileId : Z) (query : jsstring) : Retrieved :=
  let noIndex :=
    {| chunks := []; totalTokens := 0;
       error := Some (lit "No index found or index is empty") |} in
  match loadIndex disk fileId with
  | None => noIndex
  | Some index =>
      if (len' (Indexing.chunks index) =? 0) then noIndex
      else
        let attempt :=
          let queries := expandQuery provider query in
          let* queryEmbeds := embedQueries provider queries in
          let* retrieved :=
            mmrSearch queryEmbeds (Indexing.chunks index)
              (RETRIEVAL_TOP_K config) (MMR_LAMBDA config) in
          let compressed := compressContext retrieved (MAX_CONTEXT_TOKENS config) in
          Ok {| chunks := compressed; totalTokens := sumTokens compressed;
                error := None |} in
        match attempt with
        | Ok r => r
        | Throw e =>
            {| chunks := []; totalTokens := 0; error := Some (exn_message e) |}
        end
  end.

End Retrieval.

(** ** streaming.ts: prompt assembly *)

Module Streaming.
Import Indexing Retrieval.

Definition MAX_PROMPT_TOKENS : Z := 2800.

Record Citation := {
  page_start : Z;
  page_end : Z;
  chunk_no : Z
}.

Inductive Role := system | user | assistant.

(** [OpenAI.Chat.ChatCompletionMessageParam], as far as the code builds it. *)
Record Message := {
  role : Role;
  content : jsstring
}.

Record PdfContext := {
  fileName : jsstring;
  moduleName : option jsstring
}.

(** The local [estimateTokens] of [buildPrompt]: [Math.ceil(text.length / 4)]. *)
Definition estimateTokens (text : jsstring) : Z := ceil4 (len text).

Definition defaultSystemPrompt : jsstring :=
  lit "You are a study assistant. Answer concisely in British English using only the provided document context. Always cite page numbers in your answers.".

Definition sectionsHeader : jsstring :=
  nl ++ nl ++ lit "=== Relevant Document Sections ===" ++ nl ++ nl.

Definition noSectionsNotice : jsstring :=
  nl ++ nl ++ lit "No relevant sections found in the document." ++ nl.

(** [`[Pages ${chunk.page_start}-${chunk.page_end}]:\n` + chunk.content + "\n\n"]. *)
Definition chunkText (chunk : RetrievedChunk) : jsstring :=
  let chunkHeader :=
    lit "[Pages " ++ numberToString (Indexing.page_start (base chunk)) ++ lit "-"
      ++ numberToString (Indexing.page_end (base chunk)) ++ lit "]:" ++ nl in
  chunkHeader ++ Indexing.content (base chunk) ++ nl ++ nl.

(** The loop over [retrievedChunks]: the text it appends to [contextText] and
    the citations it pushes, from a counter [tokensUsed]; the [break] ends it. *)
Fixpoint contextLoop (retrievedChunks : list RetrievedChunk) (tokensUsed : Z)
  : jsstring * list Citation :=
  match retrievedChunks with
  | [] => ([], [])
  | chunk :: rest =>
      let chunkTokens := estimateTokens (chunkText chunk) in
      if MAX_PROMPT_TOKENS - 200 <? tokensUsed + chunkTokens then ([], [])
      else
        let '(text, citations) := contextLoop rest (tokensUsed + chunkTokens) in
        (chunkText chunk ++ text,
         {| page_start := Indexing.page_start (base chunk);
            page_end := Indexing.page_end (base chunk);
            chunk_no := Indexing.chunk_no (base chunk) |} :: citations)
  end.

(** The summary as it goes into the prompt, and the counter after it. *)
Definition fitSummary (threadSummary : jsstring) (tokensUsed : Z) : jsstring * Z :=
  if truthy threadSummary && (0 <? len threadSummary) then
    let summaryTokens := estimateTokens threadSummary in
    if tokensUsed + summaryTokens <? MAX_PROMPT_TOKENS - 500 then
      (threadSummary, tokensUsed + summaryTokens)
    else
      let allowedChars := (MAX_PROMPT_TOKENS - tokensUsed - 500) * 4 in
      let threadSummary := substring0 threadSummary allowedChars ++ lit "..." in
      (threadSummary, tokensUsed + estimateTokens threadSummary)
  else (threadSummary, tokensUsed).

(** [baseSystemPrompt + contextInfo]: the instructions (the default ones
    for an empty [systemPrompt]) and the document label. *)
Definition fullSystemPrompt (systemPrompt : jsstring) (pdfContext : PdfContext)
  : jsstring :=
  let baseSystemPrompt :=
    if truthy systemPrompt then systemPrompt else defaultSystemPrompt in
  let contextInfo :=
    nl ++ nl ++ lit "Document: " ++ fileName pdfContext ++
    match moduleName pdfContext with
    | Some m => if truthy m then lit " (" ++ m ++ lit ")" else []
    | None => []
    end in
  baseSystemPrompt ++ contextInfo.

Definition buildPrompt (systemPrompt : jsstring) (pdfContext : PdfContext)
  (threadSummary userMessage : jsstring) (retrievedChunks : list RetrievedChunk)
  : list Message * list Citation :=
  let fullSystemPrompt := fullSystemPrompt systemPrompt pdfContext in
  let tokensUsed := estimateTokens fullSystemPrompt + estimateTokens userMessage in
  let '(threadSummary, tokensUsed) := fitSummary threadSummary tokensUsed in
  let '(text, citations) := contextLoop retrievedChunks tokensUsed in
  let contextText :=
    if (length citations =? 0)%nat then noSectionsNotice else sectionsHeader ++ text in
  let messages :=
    [ {| role := system; content := fullSystemPrompt |} ;
      {| role := system; content := contextText |} ]
    ++ (if truthy threadSummary && (0 <? len threadSummary)
        then [ {| role := system;
                  content := lit "Previous conversation:" ++ nl ++ threadSummary |} ]
        else [])
    ++ [ {| role := user; content := userMessage |} ] in
  (messages, citations).

(** The estimate of a whole prompt: the estimates of its messages, added up. *)
Definition promptTokens (messages : list Message) : Z :=
  fold_right (fun m sum => estimateTokens (content m) + sum) 0 messages.

End Streaming.

(** ** routers.ts: the [indexes] router *)

Module Routers.
Import OpenAI Schema Indexing.

(** The database and the files together. *)
Record World := {
  database : option Tables;
  disk : Disk
}.

(** A write of the index row that the caller wraps in [try]/[catch] and only
    logs on failure. *)
Definition tryUpdateIndex (data : Db.InsertPdfIndex) (db : option Tables)
  : option Tables :=
  match Db.createOrUpdateIndex data db with
  | Ok tables => Some tables
  | Throw _ => db
  end.

Definition statusOnly (file : Z) (s : Status) : Db.InsertPdfIndex :=
  {| Db.fileId := file; Db.newStatus := Some s; Db.newProgress := None;
     Db.newChunkCount := None; Db.newChecksum := None; Db.newIndexPath := None;
     Db.newIndexedAt := None; Db.newErrorMessage := None |}.

(** [{ fileId, status: "INDEXING", progress }]. *)
Definition indexingAt (file : Z) (progress : Z) : Db.InsertPdfIndex :=
  {| Db.fileId := file; Db.newStatus := Some INDEXING; Db.newProgress := Some progress;
     Db.newChunkCount := None; Db.newChecksum := None; Db.newIndexPath := None;
     Db.newIndexedAt := None; Db.newErrorMessage := None |}.

(** [{ fileId, status: "ERROR", errorMessage }]. *)
Definition errorWith (file : Z) (message : option jsstring) : Db.InsertPdfIndex :=
  {| Db.fileId := file; Db.newStatus := Some ERROR; Db.newProgress := None;
     Db.newChunkCount := None; Db.newChecksum := None; Db.newIndexPath := None;
     Db.newIndexedAt := None; Db.newErrorMessage := message |}.

(** The row written on success. *)
Definition readyWith (host : Host) (file : Z) (result : IndexResult)
  : Db.InsertPdfIndex :=
  {| Db.fileId := file; Db.newStatus := Some READY; Db.newProgress := Some 100;
     Db.newChunkCount := Some (chunkCount result);
     Db.newChecksum := Some (resultChecksum result);
     Db.newIndexPath :=
       Some (lit ".local-storage/indexes/" ++ numberToString file ++ lit ".json");
     Db.newIndexedAt := Some (nowISO host);
     Db.newErrorMessage := None |}.

(** The callback that [triggerIndex] gives to [indexPdf]: an [async]
    function, so that a call only starts the write of the progress, which
    [indexPdf] does not wait for. The progress values of the calls made, in
    the order they were made. *)
Definition onProgress (progress : Z) (started : list Z) : list Z :=
  started ++ [progress].

(** A write of the index row that the task has started and that has not
    reached the database yet: the write of a progress callback; the write
    of the outcome, which the task waits for; the [ERROR] write of the
    outer [catch] when the write of the outcome has thrown. *)
Inductive Pending :=
| Progress (progress : Z)
| Outcome (result : IndexResult)
| Caught (err : exn).

(** The row written for the outcome of the build. *)
Definition outcomeOf (host : Host) (file : Z) (result : IndexResult)
  : Db.InsertPdfIndex :=
  if success result then readyWith host file result
  else errorWith file (error result).

(** A write reaches the database: the tables after it and the write that
    follows from it, if any. A progress callback catches and logs what its
    write throws; so does the outer [catch] for its own write. The
    [SELECT] and the [UPDATE] or [INSERT] of one [createOrUpdateIndex] are
    taken as one step, at the time the latter is done: the row of the file
    is there from the write that [triggerIndex] waits for before it starts
    the task, and no write of the task removes it. *)
Definition land (host : Host) (file : Z) (write : Pending) (db : option Tables)
  : option Tables * list Pending :=
  match write with
  | Progress progress => (tryUpdateIndex (indexingAt file progress) db, [])
  | Outcome result =>
      match Db.createOrUpdateIndex (outcomeOf host file result) db with
      | Ok tables => (Some tables, [])
      | Throw err => (db, [Caught err])
      end
  | Caught err => (tryUpdateIndex (errorWith file (Some (exn_message err))) db, [])
  end.

(** The writes under way reach the database one at a time, in an order
    that the code does not fix: nothing waits for a progress callback, so
    its write may be done before or after the writes started after it, the
    write of the outcome among them. The numbers of [schedule] choose the
    order: each picks, among the writes under way at that moment, the one
    that is done next (the first of them once [schedule] is used up). The
    writes in the order they were done, and the tables in the end. *)
Fixpoint landWrites (host : Host) (file : Z) (steps : nat) (schedule : list nat)
  (pending : list Pending) (db : option Tables) : list Pending * option Tables :=
  match steps, pending with
  | S steps', first :: _ =>
      let i := (hd 0 schedule mod length pending)%nat in
      let write := nth i pending first in
      let '(db, more) := land host file write db in
      let '(landed, db) :=
        landWrites host file steps' (tl schedule) (delete i pending ++ more) db in
      (write :: landed, db)
  | _, _ => ([], db)
  end.

(** The build of the task that [triggerIndex] starts and does not wait for:
    what [indexPdf] resolves to, the disk after it and the progress values
    whose callbacks it has started. *)
Definition backgroundBuild (host : Host) (file : Z) (localPath : jsstring)
  (w : World) : IndexResult * Disk * list Z :=
  indexPdf host file localPath (Some onProgress) (disk w) [].

(** The writes that are under way when the build is over: those of the
    progress callbacks and, started last, that of the outcome. *)
Definition startedWrites (host : Host) (file : Z) (localPath : jsstring)
  (w : World) : list Pending :=
  let '(result, _, started) := backgroundBuild host file localPath w in
  map Progress started ++ [Outcome result].

(** The writes of the task in the order they reach the database, and the
    database when all are done. One step for each write and one more for
    the write of the outer [catch] are enough. *)
Definition backgroundWrites (host : Host) (file : Z) (localPath : jsstring)
  (schedule : list nat) (w : World) : list Pending * option Tables :=
  let pending := startedWrites host file localPath w in
  landWrites host file (S (length pending)) schedule pending (database w).

(** The world when the task and the callbacks it has started are all done. *)
Definition backgroundIndexing (host : Host) (file : Z) (localPath : jsstring)
  (schedule : list nat) (w : World) : World :=
  let '(_, disk', _) := backgroundBuild host file localPath w in
  {| database := snd (backgroundWrites host file localPath schedule w);
     disk := disk' |}.

(** What the mutation answers. *)
Record Triggered := {
  triggerSuccess : bool;
  message : option jsstring
}.

(** [indexes.triggerIndex({ fileId })], with [getLocalFilePath] of the
    storage module as a parameter: what the mutation resolves to (or
    throws), the world at that moment, and the background task it started,
    if any: the world that the task leaves, for the order in which its
    writes reach the database. *)
Definition triggerIndex (host : Host) (getLocalFilePath : jsstring -> option jsstring)
  (file : Z) (w : World)
  : result Triggered * World * option (list nat -> World -> World) :=
  match Db.getPdfFileById (database w) file with
  | None => (Throw (Error (lit "PDF file not found")), w, None)
  | Some pdf =>
      match getLocalFilePath (fileKey pdf) with
      | None => (Throw (Error (lit "PDF file not found on disk")), w, None)
      | Some localPath =>
          let existingIndex := Db.getIndexByFileId (database w) file in
          let unchanged :=
            match existingIndex with
            | Some existing =>
                match status existing with
                | READY =>
                    match readFile (disk w) localPath with
                    | Ok buffer =>
                        Ok (bool_decide
                              (Schema.checksum existing
                               = Some (computeChecksum host buffer)))
                    | Throw e => Throw e
                    end
                | _ => Ok false
                end
            | None => Ok false
            end in
          match unchanged with
          | Throw e => (Throw e, w, None)
          | Ok true =>
              (Ok {| triggerSuccess := true;
                     message := Some (lit "File already indexed") |}, w, None)
          | Ok false =>
              match Db.createOrUpdateIndex (indexingAt file 0) (database w) with
              | Throw e => (Throw e, w, None)
              | Ok tables =>
                  (Ok {| triggerSuccess := true; message := None |},
                   {| database := Some tables; disk := disk w |},
                   Some (backgroundIndexing host file localPath))
              end
          end
      end
  end.

(** The world once the mutation has answered and the task it started, if
    any, has finished. *)
Definition afterTrigger (host : Host) (getLocalFilePath : jsstring -> option jsstring)
  (file : Z) (schedule : list nat) (w : World) : World :=
  match triggerIndex host getLocalFilePath file w with
  | (_, w', Some task) => task schedule w'
  | (_, w', None) => w'
  end.

End Routers.

(** ** Binary64 numbers

    The relations on IEEE 754 numbers in which the facts about the ranking
    are stated. *)

Module Binary64.

(** A number with the sign [s] that is neither zero nor NaN. *)
Definition signed (s : bool) (r : spec_float) : Prop :=
  (exists m e, r = S754_finite s m e) \/ r = S754_infinity s.

(** Equal, or both a zero. *)
Definition SFsame (a b : spec_float) : Prop :=
  a = b \/ exists s t, a = S754_zero s /\ b = S754_zero t.

(** Two numbers the comparisons cannot tell apart. *)
Definition same (a b : float) : Prop := SFsame (Prim2SF a) (Prim2SF b).

(** The order of the numbers that are not NaN is the lexicographic order of
    their class and sign, their exponent and their mantissa, the last two
    counted downwards for the negative numbers. *)
Definition rank (x : spec_float) : Z :=
  match x with
  | S754_infinity true => -2
  | S754_finite true _ _ => -1
  | S754_finite false _ _ => 1
  | S754_infinity false => 2
  | _ => 0
  end.

Definition scale (x : spec_float) : Z :=
  match x with
  | S754_finite true _ e => - e
  | S754_finite false _ e => e
  | _ => 0
  end.

Definition digits (x : spec_float) : Z :=
  match x with
  | S754_finite true m _ => Zneg m
  | S754_finite false m _ => Zpos m
  | _ => 0
  end.

Definition SFlt (x y : spec_float) : Prop :=
  rank x < rank y \/
  (rank x = rank y /\
   (scale x < scale y \/ (scale x = scale y /\ digits x < digits y))).

Definition lt (x y : float) : Prop := SFlt (Prim2SF x) (Prim2SF y).

End Binary64.

(** ** Predicates of the statements *)

Module Statements.
Import OpenAI Indexing Retrieval.

(** The chunks up to the first that overflows were all accepted: [accepted]
    runs the test of the loop of [compressContext] over [pre]. *)
Fixpoint accepted (pre : list RetrievedChunk) (maxTokens totalTokens : Z) : bool :=
  match pre with
  | [] => true
  | c :: pre' =>
      (totalTokens + tokens (base c) <=? maxTokens)
      && accepted pre' maxTokens (totalTokens + tokens (base c))
  end.

(** [c] is the first chunk of the ranking [pre ++ c :: post] that would
    overflow the budget. *)
Definition firstOverflow (pre : list RetrievedChunk) (c : RetrievedChunk)
  (maxTokens : Z) : Prop :=
  accepted pre maxTokens 0 = true /\ maxTokens < sumTokens pre + tokens (base c).

(** Sorting by boosted similarity, descending, as the specification words
    it: a stable sort by the comparison [<] of the similarities themselves. *)
Fixpoint insertBySimilarity (c : RetrievedChunk) (sorted : list RetrievedChunk)
  : list RetrievedChunk :=
  match sorted with
  | [] => [c]
  | d :: sorted' =>
      if (similarity c <? similarity d)%float then d :: insertBySimilarity c sorted'
      else c :: sorted
  end.

Definition sortBySimilarity (candidates : list RetrievedChunk) : list RetrievedChunk :=
  fold_right insertBySimilarity [] candidates.

(** The chunks of a list scored against the queries: what [mmrSearch]
    computes before it sorts and selects. *)
Definition scoredCandidates (queryEmbeds : list (list float)) (chunks : list PdfChunk)
  : result (list RetrievedChunk) :=
  let* avgQueryEmbed := averageEmbedding queryEmbeds in
  mapM (scoreChunk avgQueryEmbed (len' chunks)) chunks.

(** Pure relevance ranking, as the specification words it: all chunks
    sorted by boosted similarity, descending, and the first [k] of them. *)
Definition relevanceRanking (queryEmbeds : list (list float)) (chunks : list PdfChunk)
  (k : Z) : result (list RetrievedChunk) :=
  let* candidates := scoredCandidates queryEmbeds chunks in
  Ok (take (Z.to_nat k) (sortBySimilarity candidates)).

(** A step of the build before the index file is written throws [e]:
    reading the document, extracting its text, or embedding the chunks (the
    chunking itself is a total function). *)
Inductive BuildThrows (host : Host) (disk : Disk) (filePath : jsstring) (e : exn)
  : Prop :=
| read_throws :
    readFile disk filePath = Throw e -> BuildThrows host disk filePath e
| extraction_throws :
    forall buffer,
      readFile disk filePath = Ok buffer ->
      extractPdfText host disk filePath = Throw e ->
      BuildThrows host disk filePath e
| embedding_throws :
    forall buffer pageTexts,
      readFile disk filePath = Ok buffer ->
      extractPdfText host disk filePath = Ok pageTexts ->
      generateEmbeddings (provider host)
        (Indexing.chunkText pageTexts CHUNK_SIZE CHUNK_OVERLAP) = Throw e ->
      BuildThrows host disk filePath e.

(** What [indexPdf] resolves to when a step has thrown [e]. *)
Definition failure (e : exn) : IndexResult :=
  {| success := false; chunkCount := 0; resultChecksum := [];
     Indexing.error := Some (exn_message e) |}.

(** The tables with the index row of [file] replaced. *)
Definition withRow (tables : Schema.Tables) (file : Z) (row : Schema.PdfIndexRow)
  : Schema.Tables :=
  {| Schema.pdfFiles := Schema.pdfFiles tables;
     Schema.pdfIndexes := <[file := row]> (Schema.pdfIndexes tables);
     Schema.pdfMessages := Schema.pdfMessages tables |}.

(** The columns that a write of the task sets. *)
Definition written (host : Host) (file : Z) (write : Routers.Pending)
  : Db.InsertPdfIndex :=
  match write with
  | Routers.Progress progress => Routers.indexingAt file progress
  | Routers.Outcome result => Routers.outcomeOf host file result
  | Routers.Caught err => Routers.errorWith file (Some (exn_message err))
  end.

(** The row of [file] when the writes [landed] have been done on it, in
    this order. *)
Definition rowAfter (host : Host) (file : Z) (landed : list Routers.Pending)
  (row : Schema.PdfIndexRow) : Schema.PdfIndexRow :=
  fold_left (fun row write => Db.updatedRow (written host file write) row) landed row.

(** The steps that the writes under way take until all are done: one for
    each, and one more for the write of the outer [catch] that the write of
    an outcome may start. *)
Fixpoint stepsFor (pending : list Routers.Pending) : nat :=
  match pending with
  | [] => 0
  | Routers.Outcome _ :: rest => 2 + stepsFor rest
  | _ :: rest => 1 + stepsFor rest
  end.

(** The write of the outcome is the last of the writes [landed]: no write
    of a progress callback is done after it. *)
Definition outcomeLast (landed : list Routers.Pending) : bool :=
  match last landed with
  | Some (Routers.Outcome _) => true
  | _ => false
  end.

(** [c] is not ranked below [d]. *)
Definition notBelow (c d : RetrievedChunk) : Prop :=
  (similarity c <? similarity d)%float = false.

End Statements.

(** ** Sample inputs *)

Module Samples.
Import Indexing Retrieval.

Definition sampleChunk (no toks : Z) (text : string) (emb : option (list float))
  : PdfChunk :=
  {| chunk_no := no; page_start := no + 1; page_end := no + 1;
     content := lit text; tokens := toks;
     preview := substring0 (lit text) 100 ++ lit "...";
     embedding := emb |}.

Definition ranked (no toks : Z) (sim : float) : RetrievedChunk :=
  {| base := sampleChunk no toks "A limit is the value a function approaches." None;
     similarity := sim |}.

(** Three ranked chunks of 60, 70 and 80 tokens. *)
Definition ranking : list RetrievedChunk :=
  [ranked 0 60 0.9; ranked 1 70 0.8; ranked 2 80 0.7].

(** A text of [n] letters. *)
Definition letters (n : Z) : jsstring := replicate (Z.to_nat n) 97%N.

Definition lecture : Streaming.PdfContext :=
  {| Streaming.fileName := lit "lecture1.pdf";
     Streaming.moduleName := Some (lit "MA100") |}.

(** Eight retrieved chunks of 800 characters each. *)
Definition manyChunks : list RetrievedChunk :=
  map (fun i => {| base := {| chunk_no := i; page_start := i + 1; page_end := i + 1;
                              content := letters 800; tokens := 200;
                              preview := []; embedding := None |};
                   similarity := 0.5 |})
    [0; 1; 2; 3; 4; 5; 6; 7].

(** One page of three words, and the second of the two chunks that
    [chunkText] makes of it for a chunk size of 2 and an overlap of 100: the
    whole first chunk again, and the word that closed it. *)
Definition threeWords : list (Z * jsstring) := [(1, lit "aaa bbb ccc")].

Definition secondOfThreeWords : PdfChunk :=
  {| chunk_no := 1; page_start := 1; page_end := 1;
     content := lit "aaa bbb  ccc"; tokens := 4;
     preview := lit "aaa bbb  ccc..."; embedding := None |}.

(** A document whose text extraction throws, an index built from an
    earlier version of it, and the row that says so. *)
Definition storedPath : jsstring := lit ".local-storage/pdfs/1/lecture1.pdf".

Definition indexedChunk : PdfChunk :=
  sampleChunk 0 11 "A limit is the value a function approaches."
    (Some [1; 0]%float).

Definition earlierIndex : PdfIndex :=
  {| Indexing.fileId := 7;
     Indexing.checksum := lit "0f343b0931126a20f133d67c2b018a3b";
     Indexing.chunks := [indexedChunk];
     Indexing.indexedAt := lit "2025-01-01T00:00:00.000Z";
     Indexing.totalChunks := 1 |}.

Definition brokenPdf : exn := Error (lit "Invalid PDF structure.").

Definition sampleProvider : OpenAI.Provider :=
  {| OpenAI.openaiApiKey := true;
     OpenAI.chatCompletion := fun _ _ => Ok None;
     OpenAI.embeddingsCreate := fun texts => Ok (map (fun _ => [1; 0]%float) texts) |}.

Definition sampleHost : Host :=
  {| provider := sampleProvider;
     md5Hex := fun _ => lit "9e107d9d372bb6826bd81d3542a419d6";
     pdfPages := fun _ => Throw brokenPdf;
     nowISO := lit "2025-02-02T00:00:00.000Z" |}.

Definition sampleWorld : Routers.World :=
  {| Routers.database :=
       Some {| Schema.pdfFiles :=
                 {[ 7 := {| Schema.fileName := lit "lecture1.pdf";
                            Schema.fileKey := lit "pdfs/1/lecture1.pdf" |} ]};
               Schema.pdfIndexes :=
                 {[ 7 := {| Schema.status := Schema.READY;
                            Schema.chunkCount := Some 1;
                            Schema.checksum := Some (lit "0f343b0931126a20f133d67c2b018a3b");
                            Schema.indexPath := Some (lit ".local-storage/indexes/7.json");
                            Schema.errorMessage := None;
                            Schema.progress := Some 100;
                            Schema.indexedAt := Some (lit "2025-01-01T00:00:00.000Z") |} ]};
               Schema.pdfMessages := [] |};
     Routers.disk :=
       {| documents := {[ storedPath := [37; 80; 68; 70]%N ]};
          indexFiles := {[ 7 := earlierIndex ]};
          writeFailure := None |} |}.

Definition sampleLocalPath (fileKey : jsstring) : option jsstring :=
  Some (lit ".local-storage/" ++ fileKey).

(** A chunk whose embedding points away from the query [[1]]. *)
Definition oppositeChunk : PdfChunk :=
  sampleChunk 0 11 "nothing about the question" (Some [-1]%float).

(** Two chunks, the second without an embedding. *)
Definition halfEmbedded : list PdfChunk :=
  [ sampleChunk 0 11 "A limit is the value a function approaches." (Some [1; 0]%float);
    sampleChunk 1 11 "Continuity at a point." None ].

(** A thread of 101 messages of three tokens each, the oldest first. *)
Definition longThread : list Schema.PdfMessage :=
  map (fun i => {| Schema.threadId := lit "thread-1";
                   Schema.role := if Z.even i then Schema.user else Schema.assistant;
                   Schema.content := lit "message " ++ numberToString i;
                   Schema.tokenCount := Some 3;
                   Schema.citations := None;
                   Schema.createdAt := i |})
      (map Z.of_nat (seq 0 101)).

Definition longThreadTables : Schema.Tables :=
  {| Schema.pdfFiles := ∅; Schema.pdfIndexes := ∅; Schema.pdfMessages := longThread |}.

(** Three chunks with embeddings of two dimensions, and their scored
    candidates for the query [[1, 0]]. *)
Definition threeChunks : list PdfChunk :=
  [ sampleChunk 0 11 "Continuity at a point." (Some [0; 1]%float);
    sampleChunk 1 60 "A limit is the value a function approaches." (Some [1; 0]%float);
    sampleChunk 2 11 "sequences and series" (Some [0.6; 0.8]%float) ].

(** Three chunks of which the first two have the embedding [[1e200, 0]]:
    the squares of its coordinates add up to infinity, so that the cosine
    similarity of the two comes out as infinity divided by infinity. *)
Definition overflowChunks : list PdfChunk :=
  [ sampleChunk 0 11 "sequences and series" (Some [1e200; 0]%float);
    sampleChunk 1 11 "rates of change" (Some [1e200; 0]%float);
    sampleChunk 2 11 "areas under curves" (Some [0; 1]%float) ].

(** The numbers of the chunks of a result, in their order. *)
Definition chunkNumbers (retrieved : result (list RetrievedChunk)) : result (list Z) :=
  match retrieved with
  | Ok chunks => Ok (map (fun c => chunk_no (base c)) chunks)
  | Throw e => Throw e
  end.

Definition threeCandidates : list RetrievedChunk :=
  match Statements.scoredCandidates [[1; 0]%float] threeChunks with
  | Ok candidates => candidates
  | Throw _ => []
  end.

End Samples.

(** ** Notions of the further properties: chunking *)

Module Chunking.
Import OpenAI Indexing Retrieval.

(** The words of a document in the order [chunkText] reads them: page by
    page in the order of the page numbers. *)
Definition documentWords (pageTexts : list (Z * jsstring)) : list jsstring :=
  concat (map (fun page => pageWords (snd page)) (sortPages pageTexts)).

(** The tokens [chunkText] counts for a list of words: the estimate of every
    word with the space that follows it. *)
Definition wordTokens (words : list jsstring) : Z :=
  foldr (fun word sum => Indexing.estimateTokens (word ++ lit " ") + sum) 0 words.

(** The number of the last page, 1 for a document without pages. *)
Definition lastPage (pageTexts : list (Z * jsstring)) : Z :=
  List.last (map fst (sortPages pageTexts)) 1.

(** Invariants of the loops of [chunkText]: the chunks saved are numbered
    from 0 and [chunkNo] is the next number. *)
Definition numbered (st : ChunkerState) : Prop :=
  chunkNo st = len' (chunksOut st)
  /\ map chunk_no (chunksOut st) = seqZ 0 (len' (chunksOut st)).

(** A character that is not white space. *)
Definition inked (c : N) : Prop := isSpace c = false.

(** What every chunk saved looks like: a text that is not empty, no
    embedding yet, and for a preview the first 100 characters of the text
    followed by three dots. *)
Definition wellFormed (c : PdfChunk) : Prop :=
  content c <> [] /\ embedding c = None
  /\ preview c = take 100 (content c) ++ lit "...".

(** The buffer is empty or holds a character that is not white space, and
    the chunks saved are well formed. *)
Definition inkedBuffer (st : ChunkerState) : Prop :=
  (currentChunk st = [] \/ Exists inked (currentChunk st))
  /\ Forall wellFormed (chunksOut st).

(** Each chunk starts on the page the one before it ended on, the first on
    page 1. *)
Definition pagesChained (st : ChunkerState) : Prop :=
  1 :: map page_end (chunksOut st)
  = map page_start (chunksOut st) ++ [chunkStartPage st].

(** The page range of a chunk runs forwards from page 1 or later. *)
Definition pagesForward (c : PdfChunk) : Prop :=
  1 <= page_start c /\ page_start c <= page_end c.

Definition pagesOrdered (st : ChunkerState) : Prop :=
  1 <= chunkStartPage st /\ chunkStartPage st <= currentPage st
  /\ Forall pagesForward (chunksOut st).

(** The buffer of a document whose words [ws] all went into one chunk. *)
Definition buffered (ws : list jsstring) : jsstring :=
  concat (map (fun w => w ++ lit " ") ws).

Definition oneChunk (st : ChunkerState) (ws : list jsstring) : Prop :=
  chunksOut st = [] /\ chunkNo st = 0 /\ chunkStartPage st = 1
  /\ currentChunk st = buffered ws /\ currentTokens st = wordTokens ws.

(** The last word of a text. *)
Definition lastWord (s : jsstring) : jsstring :=
  List.last (pageWords s) [].

(** A run of words: the word that a chunk starts with and the words that
    are added to the chunk after it. *)
Record Run := {
  opening : jsstring;
  added : list jsstring
}.

Definition runWords (run : Run) : list jsstring := opening run :: added run.

(** The buffer that the chunk of a run starts from: for the first chunk of
    all the opening word and a space; for a later chunk the seed made of
    [buffer], the buffer of the chunk before it, and the opening word, which
    is the word that closed that chunk. *)
Definition startOf (overlap : Z) (before : option jsstring) (run : Run) : jsstring :=
  match before with
  | None => opening run ++ lit " "
  | Some buffer => seededChunk overlap buffer (opening run)
  end.

(** A run with the buffer that its chunk starts from, the buffer when the
    words added are in it, and the tokens [chunkText] counts for it: the
    estimate of the start and the estimates of the words added, each with
    the space behind it. *)
Record Filled := {
  filledRun : Run;
  startBuffer : jsstring;
  fullBuffer : jsstring;
  counted : Z
}.

Definition fillRun (overlap : Z) (before : option jsstring) (run : Run) : Filled :=
  let start := startOf overlap before run in
  {| filledRun := run;
     startBuffer := start;
     fullBuffer := start ++ buffered (added run);
     counted := Indexing.estimateTokens start + wordTokens (added run) |}.

(** The runs of a text filled one after the other, each seeded from the
    full buffer of the one before it. *)
Fixpoint filled (overlap : Z) (before : option jsstring) (runs : list Run)
  : list Filled :=
  match runs with
  | [] => []
  | run :: runs' =>
      let f := fillRun overlap before run in
      f :: filled overlap (Some (fullBuffer f)) runs'
  end.

(** The full buffer of the last of the runs filled, [before] without one. *)
Definition lastBuffer (before : option jsstring) (fs : list Filled) : option jsstring :=
  match last fs with
  | Some f => Some (fullBuffer f)
  | None => before
  end.

(** The chunk [c] is what [chunkText] saves of the run [f]: the trimmed
    buffer, counted as the run, and within [chunkSize] unless no word was
    added to the buffer the run started from. *)
Definition savedFrom (chunkSize : Z) (c : PdfChunk) (f : Filled) : Prop :=
  content c = trim (fullBuffer f) /\ tokens c = counted f
  /\ (added (filledRun f) = [] \/ tokens c <= chunkSize).

(** Every chunk that has a run after it was closed by the opening word of
    that run: with it the counter would have gone beyond [chunkSize]. *)
Definition closedByNext (chunkSize : Z) (chunks : list PdfChunk) (runs : list Run)
  : Prop :=
  forall i c next,
    chunks !! i = Some c -> runs !! S i = Some next ->
    chunkSize < tokens c + Indexing.estimateTokens (opening next ++ lit " ").

(** The invariant of the loops of [chunkText] for the words read so far:
    nothing is read; or the words are those of the runs of the chunks saved
    and of the run of the buffer, in this order. *)
Definition described (chunkSize overlap : Z) (st : ChunkerState)
  (words : list jsstring) : Prop :=
  (words = [] /\ chunksOut st = [] /\ currentChunk st = [] /\ currentTokens st = 0)
  \/ exists runs current,
       let f := fillRun overlap (lastBuffer None (filled overlap None runs)) current in
       words = concat (map runWords runs) ++ runWords current
       /\ Forall2 (savedFrom chunkSize) (chunksOut st) (filled overlap None runs)
       /\ currentChunk st = fullBuffer f
       /\ currentTokens st = counted f
       /\ (added current = [] \/ currentTokens st <= chunkSize)
       /\ closedByNext chunkSize (chunksOut st) (runs ++ [current]).

End Chunking.

(** ** Notions of the further properties: builds *)

Module Builds.
Import OpenAI Schema Indexing.

(** [d] is the chunk [c] with an embedding attached. *)
Definition embedded (c d : PdfChunk) : Prop :=
  chunk_no d = chunk_no c /\ page_start d = page_start c
  /\ page_end d = page_end c /\ content d = content c
  /\ tokens d = tokens c /\ preview d = preview c
  /\ is_Some (embedding d).

(** The milestones [indexPdf] reports, in the order it reports them. *)
Definition milestones : list Z := [10; 30; 50; 80; 100].

(** The callback run for a list of milestones. *)
Definition reported {T : Type} (onProgress : Z -> T -> T) (ps : list Z) (t : T) : T :=
  fold_left (fun t p => onProgress p t) ps t.

(** Every step of a build succeeds: the document is read as [bytes], its
    pages are [pages], their chunks come back from the provider as
    [chunksWithEmbeddings], and the index file can be written. *)
Definition BuildSucceeds (host : Host) (disk : Disk) (filePath : jsstring)
  (bytes : list N) (pages : list (Z * jsstring))
  (chunksWithEmbeddings : list PdfChunk) : Prop :=
  readFile disk filePath = Ok bytes
  /\ pdfPages host bytes = Ok pages
  /\ generateEmbeddings (provider host)
       (Indexing.chunkText pages CHUNK_SIZE CHUNK_OVERLAP) = Ok chunksWithEmbeddings
  /\ writeFailure disk = None.

(** The index file that a build writes. *)
Definition builtIndex (host : Host) (file : Z) (bytes : list N)
  (chunksWithEmbeddings : list PdfChunk) : PdfIndex :=
  {| Indexing.fileId := file;
     Indexing.checksum := md5Hex host bytes;
     Indexing.chunks := chunksWithEmbeddings;
     Indexing.indexedAt := nowISO host;
     Indexing.totalChunks := len' chunksWithEmbeddings |}.

(** The disk with the index file of [file] replaced. *)
Definition withIndex (disk : Disk) (file : Z) (index : PdfIndex) : Disk :=
  {| documents := documents disk;
     indexFiles := <[file := index]> (indexFiles disk);
     writeFailure := writeFailure disk |}.

(** The row of a document whose build has succeeded, when the write of the
    outcome is the last one done; [before] is the row the document had when
    the build was triggered. *)
Definition readyRow (host : Host) (file : Z) (bytes : list N)
  (pages : list (Z * jsstring)) (before : option PdfIndexRow) : PdfIndexRow :=
  {| Schema.status := READY;
     Schema.chunkCount :=
       Some (len' (Indexing.chunkText pages CHUNK_SIZE CHUNK_OVERLAP));
     Schema.checksum := Some (md5Hex host bytes);
     Schema.indexPath :=
       Some (lit ".local-storage/indexes/" ++ numberToString file ++ lit ".json");
     Schema.errorMessage := before ≫= Schema.errorMessage;
     Schema.progress := Some 100;
     Schema.indexedAt := Some (nowISO host) |}.

(** Sample inputs: a host whose text extraction gives the one page of
    three words, the chunk of that page with its embedding, and a world in
    which the row of document 7 says that a build is running. *)
Definition workingHost : Host :=
  {| provider := Samples.sampleProvider;
     md5Hex := fun _ => lit "9e107d9d372bb6826bd81d3542a419d6";
     pdfPages := fun _ => Ok Samples.threeWords;
     nowISO := lit "2025-02-02T00:00:00.000Z" |}.

Definition embeddedWords : list PdfChunk :=
  match generateEmbeddings Samples.sampleProvider
          (Indexing.chunkText Samples.threeWords CHUNK_SIZE CHUNK_OVERLAP) with
  | Ok chunks => chunks
  | Throw _ => []
  end.

Definition samplePdf : PdfFile :=
  {| fileName := lit "lecture1.pdf"; fileKey := lit "pdfs/1/lecture1.pdf" |}.

Definition sampleBytes : list N := [37; 80; 68; 70]%N.

Definition indexingTables : Tables :=
  {| pdfFiles := {[ 7 := samplePdf ]};
     pdfIndexes :=
       {[ 7 := {| Schema.status := INDEXING;
                  Schema.chunkCount := Some 0;
                  Schema.checksum := None;
                  Schema.indexPath := None;
                  Schema.errorMessage := None;
                  Schema.progress := Some 30;
                  Schema.indexedAt := None |} ]};
     pdfMessages := [] |}.

(** The disk of the sample world when the next write of an index file
    fails for want of space, after the file has been opened. *)
Definition fullDisk : Disk :=
  {| documents := documents (Routers.disk Samples.sampleWorld);
     indexFiles := indexFiles (Routers.disk Samples.sampleWorld);
     writeFailure :=
       Some {| thrown := Error (lit "ENOSPC: no space left on device, write");
               fileLeft := FileTruncated |} |}.

Definition indexingWorld : Routers.World :=
  {| Routers.database := Some indexingTables;
     Routers.disk := Routers.disk Samples.sampleWorld |}.

End Builds.

(** ** Notions of the further properties: retrieval *)

Module Ranking.
Import OpenAI Indexing Retrieval.

(** The phrases that the first ten patterns of [hasDefinitionIndicators]
    look for. *)
Definition definitionPhrases : list jsstring :=
  [ lit "is defined as"; lit "refers to"; lit "means that"; lit "is a"; lit "is an";
    lit "define"; lit "definition"; lit "defined"; lit "characterized by";
    lit "can be described as"; lit "essentially"; lit "in other words" ].

(** A vector of [n] zeros. *)
Definition zeros (n : nat) : list float := replicate n 0%float.

(** Sample inputs: the two chunks that [mmrSearch] returns of the three
    sample chunks for the query [[1, 0]], and the first of them. *)
Definition twoRetrieved : list RetrievedChunk :=
  match mmrSearch [[1; 0]%float] Samples.threeChunks 2 0.3 with
  | Ok retrieved => retrieved
  | Throw _ => []
  end.

Definition firstRetrieved : RetrievedChunk :=
  List.hd (Samples.ranked 0 0 0) twoRetrieved.

(** An index of the three sample chunks for document 9, on the disk of the
    sample world. *)
Definition threeChunkDisk : Disk :=
  {| documents := documents (Routers.disk Samples.sampleWorld);
     indexFiles :=
       {[ 9 := {| Indexing.fileId := 9;
                  Indexing.checksum := lit "9e107d9d372bb6826bd81d3542a419d6";
                  Indexing.chunks := Samples.threeChunks;
                  Indexing.indexedAt := lit "2025-02-02T00:00:00.000Z";
                  Indexing.totalChunks := 3 |} ]};
     writeFailure := None |}.

End Ranking.

(** ** db.ts: saving a message *)

Module DbWrites.
Import OpenAI Schema.

(** [InsertPdfMessage]: the columns the callers of [addMessage] give. *)
Record InsertPdfMessage := {
  newThreadId : jsstring;
  newRole : Role;
  newContent : jsstring;
  newTokenCount : option Z;
  newCitations : option jsstring
}.

(** [addMessage(data)]: the row goes behind the rows of the table, with the
    defaults of the columns not given and the time [now] of the database for
    [createdAt]; the tables after it, or what it throws. The insert is
    taken to be accepted by the database: the sizes of the columns, 36
    characters for a thread id, are not part of the model. *)
Definition addMessage (data : InsertPdfMessage) (now : Z) (db : option Tables)
  : result Tables :=
  match db with
  | None => Throw Db.databaseNotAvailable
  | Some tables =>
      let row :=
        {| threadId := newThreadId data;
           role := newRole data;
           content := newContent data;
           tokenCount := from_option Some (Some 0) (newTokenCount data);
           citations := newCitations data;
           createdAt := now |} in
      Ok {| pdfFiles := pdfFiles tables;
            pdfIndexes := pdfIndexes tables;
            pdfMessages := pdfMessages tables ++ [row] |}
  end.

End DbWrites.

(** ** Notions of the further properties: prompt and memory *)

Module Prompts.
Import Indexing Retrieval Streaming.

(** The estimated tokens of the texts of a list of chunks as they go into
    the context message. *)
Definition contextCost (chunks : list RetrievedChunk) : Z :=
  foldr (fun chunk sum => Streaming.estimateTokens (Streaming.chunkText chunk) + sum)
    0 chunks.

(** The counter of [buildPrompt] when it comes to the chunks: the estimates
    of the system prompt, of the user message and of the memory as it goes in. *)
Definition usedBeforeChunks (systemPrompt : jsstring) (pdfContext : PdfContext)
  (threadSummary userMessage : jsstring) : Z :=
  snd (fitSummary threadSummary
         (Streaming.estimateTokens (fullSystemPrompt systemPrompt pdfContext)
          + Streaming.estimateTokens userMessage)).

(** Sample inputs: a message for the thread of the samples, saved at time
    200, and the tables of a thread of two messages. *)
Definition laterMessage : DbWrites.InsertPdfMessage :=
  {| DbWrites.newThreadId := lit "thread-1";
     DbWrites.newRole := Schema.user;
     DbWrites.newContent := lit "And a derivative?";
     DbWrites.newTokenCount := Some 5;
     DbWrites.newCitations := None |}.

Definition laterRow : Schema.PdfMessage :=
  {| Schema.threadId := lit "thread-1";
     Schema.role := Schema.user;
     Schema.content := lit "And a derivative?";
     Schema.tokenCount := Some 5;
     Schema.citations := None;
     Schema.createdAt := 200 |}.

Definition shortThreadTables : Schema.Tables :=
  {| Schema.pdfFiles := ∅; Schema.pdfIndexes := ∅;
     Schema.pdfMessages := take 2 Samples.longThread |}.

Definition withLaterRow (tables : Schema.Tables) : Schema.Tables :=
  {| Schema.pdfFiles := Schema.pdfFiles tables;
     Schema.pdfIndexes := Schema.pdfIndexes tables;
     Schema.pdfMessages := Schema.pdfMessages tables ++ [laterRow] |}.

End Prompts.

(** ** openai.ts: the chat without retrieval *)

Module Chat.
Import Streaming.

(** The chat completions of the provider as [chatWithPDF] uses them: the
    content of the first choice for a list of messages, [None] for a [null]
    content; the request may throw. *)
Definition Completions := list Message -> result (option jsstring).

(** [getOpenAIClient()]: [openaiClient] says whether the module holds a
    client already; the client returned, if any, and the variable after the
    call. A client is made when there is none and an API key is set. *)
Definition getOpenAIClient (apiKey : bool) (openaiClient : bool) : bool * bool :=
  let openaiClient := if negb openaiClient && apiKey then true else openaiClient in
  (openaiClient, openaiClient).

Definition defaultSystemMessage : jsstring := lit "You are a helpful study assistant.".

Definition noResponse : jsstring := lit "I couldn't generate a response.".

(** The messages of the request: the system message, the context message
    with the first 15000 characters of the text, and the messages given. *)
Definition requestMessages (messages : list Message) (pdfText : jsstring)
  (systemPrompt : option jsstring) : list Message :=
  let systemMessage :=
    match systemPrompt with
    | Some prompt => if truthy prompt then prompt else defaultSystemMessage
    | None => defaultSystemMessage
    end in
  let contextMessage :=
    lit "Here is the content from the student's lecture PDF:" ++ nl ++ nl
      ++ take (Z.to_nat 15000) pdfText ++ nl ++ nl
      ++ lit "Use this content to answer the student's questions." in
  {| role := system; content := systemMessage |}
  :: {| role := system; content := contextMessage |}
  :: messages.

(** [chatWithPDF({ messages, pdfText, systemPrompt })]: what it resolves to
    or throws, and the module variable after it. *)
Definition chatWithPDF (apiKey : bool) (create : Completions) (openaiClient : bool)
  (messages : list Message) (pdfText : jsstring) (systemPrompt : option jsstring)
  : result jsstring * bool :=
  let '(client, openaiClient) := getOpenAIClient apiKey openaiClient in
  if negb client then (Throw (Error (lit "OpenAI client not configured")), openaiClient)
  else
    match create (requestMessages messages pdfText systemPrompt) with
    | Throw e => (Throw e, openaiClient)
    | Ok content =>
        (Ok match content with
            | Some text => if truthy text then text else noResponse
            | None => noResponse
            end,
         openaiClient)
    end.

End Chat.

(** ** streaming.ts and _core/index.ts: the streamed answer *)

Module ChatEndpoint.
Import OpenAI Schema Indexing Retrieval DbWrites.

(** What the streaming completions of the provider send for a request they
    have accepted: the [delta.content] of every chunk, [None] where a chunk
    has none, and the error the stream breaks off with, if it does. *)
Record ProviderStream := {
  deltas : list (option jsstring);
  brokenBy : option exn
}.

(** What a generator does for the loop that reads it: the values it yields
    and, if it ends by throwing, what it throws. *)
Definition Generated (A : Type) : Type := list A * option exn.

(** [streamChatResponse(messages)]: the contents that are not empty. *)
Definition streamChatResponse (provider : Provider)
  (completionsStream : list Streaming.Message -> result ProviderStream)
  (messages : list Streaming.Message) : Generated jsstring :=
  if negb (openaiApiKey provider) then
    ([], Some (Error (lit "OpenAI API key not configured")))
  else
    match completionsStream messages with
    | Throw e => ([], Some e)
    | Ok stream =>
        (omap (fun delta =>
                 match delta with
                 | Some content => if truthy content then Some content else None
                 | None => None
                 end) (deltas stream),
         brokenBy stream)
    end.

(** The [timing] of an item of [streamResponse]. *)
Record Timing := {
  totalMs : option Z;
  firstTokenMs : Z;
  tokenCount : option Z
}.

Inductive StreamItem :=
| TokenItem (content : jsstring)
| TimingItem (timing : Timing).

(** [streamResponse(messages)]; [startTime], [firstTokenTime] and [endTime]
    are what [Date.now()] gives at the start, at the first token and after
    the last. *)
Definition streamResponse (provider : Provider)
  (completionsStream : list Streaming.Message -> result ProviderStream)
  (startTime firstTokenTime endTime : Z)
  (messages : list Streaming.Message) : Generated StreamItem :=
  let '(tokens, failure) := streamChatResponse provider completionsStream messages in
  let items :=
    match tokens with
    | [] => []
    | first :: rest =>
        TimingItem {| totalMs := None; firstTokenMs := firstTokenTime - startTime;
                      tokenCount := None |}
        :: TokenItem first :: map TokenItem rest
    end in
  match failure with
  | Some e => (items, Some e)
  | None =>
      (items ++
       [TimingItem
          {| totalMs := Some (endTime - startTime);
             firstTokenMs :=
               match tokens with
               | [] => 0
               | _ :: _ =>
                   if firstTokenTime =? 0 then 0 else firstTokenTime - startTime
               end;
             tokenCount := Some (len' tokens) |}],
       None)
  end.

(** The body of a request; a field that is missing counts like its empty
    value, 0 or the empty string, which the endpoint treats alike. *)
Record Request := {
  fileId : Z;
  threadId : jsstring;
  message : jsstring;
  systemPrompt : option jsstring
}.

(** The events written to the response, by their data. *)
Inductive Event :=
| ErrorEvent (error : jsstring)
| RetrievalTiming (retrievalMs contextTokens : Z)
| TokenEvent (content : jsstring)
| DoneEvent (citations : list Streaming.Citation) (totalMs firstTokenMs retrievalMs : Z).

(** The response: status 400 with a JSON error, or a stream of events. *)
Inductive Reply :=
| BadRequest (error : jsstring)
| EventStream (events : list Event).

(** What the clocks give during a request: [Date.now()] at the places the
    endpoint and [streamResponse] read it, and the time of the database when
    the two messages are saved. *)
Record Times := {
  requestStart : Z;
  userSavedAt : Z;
  retrievalStart : Z;
  retrievalEnd : Z;
  streamStart : Z;
  firstTokenTime : Z;
  streamEnd : Z;
  assistantSavedAt : Z;
  requestEnd : Z
}.

Record Env := {
  config : Config;
  provider : Provider;
  completionsStream : list Streaming.Message -> result ProviderStream;
  times : Times
}.

(** [JSON.stringify(citations)]. *)
Definition quote : jsstring := [34%N].

Definition stringifyCitation (c : Streaming.Citation) : jsstring :=
  lit "{" ++ quote ++ lit "page_start" ++ quote ++ lit ":"
    ++ numberToString (Streaming.page_start c)
    ++ lit "," ++ quote ++ lit "page_end" ++ quote ++ lit ":"
    ++ numberToString (Streaming.page_end c)
    ++ lit "," ++ quote ++ lit "chunk_no" ++ quote ++ lit ":"
    ++ numberToString (Streaming.chunk_no c) ++ lit "}".

Definition stringifyCitations (citations : list Streaming.Citation) : jsstring :=
  lit "[" ++ join (lit ",") (map stringifyCitation citations) ++ lit "]".

(** The loop over the items of [streamResponse]: the response so far, the
    events written and [firstTokenMs]. *)
Definition readItem (state : jsstring * list Event * Z) (item : StreamItem)
  : jsstring * list Event * Z :=
  let '(fullResponse, events, first) := state in
  match item with
  | TokenItem content => (fullResponse ++ content, events ++ [TokenEvent content], first)
  | TimingItem timing =>
      (fullResponse, events,
       if firstTokenMs timing =? 0 then first else firstTokenMs timing)
  end.

Definition notIndexedYet : jsstring :=
  lit "PDF not indexed yet. Please wait for indexing to complete.".

(** [POST /api/chat/stream]: the response and the world after it. *)
Definition postChatStream (env : Env) (req : Request) (w : Routers.World)
  : Reply * Routers.World :=
  if (fileId req =? 0) || negb (truthy (threadId req)) || negb (truthy (message req))
  then (BadRequest (lit "Missing required fields"), w)
  else
    let db := Routers.database w in
    let ready :=
      match Db.getIndexByFileId db (fileId req) with
      | Some index => match status index with READY => true | _ => false end
      | None => false
      end in
    if negb ready then (EventStream [ErrorEvent notIndexedYet], w)
    else
      match Db.getPdfFileById db (fileId req) with
      | None => (EventStream [ErrorEvent (lit "PDF file not found")], w)
      | Some file =>
          match addMessage
                  {| newThreadId := threadId req; newRole := user;
                     newContent := message req;
                     newTokenCount := Some (Db.estimateMessageTokens (message req));
                     newCitations := None |}
                  (userSavedAt (times env)) db with
          | Throw e => (EventStream [ErrorEvent (exn_message e)], w)
          | Ok tables =>
              let w := {| Routers.database := Some tables;
                          Routers.disk := Routers.disk w |} in
              let retrieved :=
                retrieveContext (config env) (provider env) (Routers.disk w)
                  (fileId req) (message req) in
              let retrievalMs := retrievalEnd (times env) - retrievalStart (times env) in
              (* [undefined] and the empty string are no error to the test *)
              let retrievalError := default [] (Retrieval.error retrieved) in
              if truthy retrievalError then (EventStream [ErrorEvent retrievalError], w)
              else
                let threadSummary :=
                  Db.getThreadSummary (provider env) (Some tables) (threadId req) in
                let '(messages, citations) :=
                  Streaming.buildPrompt (default [] (systemPrompt req))
                    {| Streaming.fileName := fileName file;
                       Streaming.moduleName := None |}
                    threadSummary (message req) (Retrieval.chunks retrieved) in
                let written :=
                  [RetrievalTiming retrievalMs (Retrieval.totalTokens retrieved)] in
                let '(items, failure) :=
                  streamResponse (provider env) (completionsStream env)
                    (streamStart (times env)) (firstTokenTime (times env))
                    (streamEnd (times env)) messages in
                let '(fullResponse, written, firstTokenMs) :=
                  fold_left readItem items ([], written, 0) in
                match failure with
                | Some e => (EventStream (written ++ [ErrorEvent (exn_message e)]), w)
                | None =>
                    match addMessage
                            {| newThreadId := threadId req; newRole := assistant;
                               newContent := fullResponse;
                               newTokenCount :=
                                 Some (Db.estimateMessageTokens fullResponse);
                               newCitations := Some (stringifyCitations citations) |}
                            (assistantSavedAt (times env)) (Some tables) with
                    | Throw e =>
                        (EventStream (written ++ [ErrorEvent (exn_message e)]), w)
                    | Ok tables =>
                        let totalMs := requestEnd (times env) - requestStart (times env) in
                        (EventStream
                           (written ++ [DoneEvent citations totalMs firstTokenMs retrievalMs]),
                         {| Routers.database := Some tables;
                            Routers.disk := Routers.disk w |})
                    end
                end
          end
      end.


(** The text of the token events among the events written. *)
Definition tokenText (events : list Event) : jsstring :=
  concat (omap (fun event =>
                  match event with
                  | TokenEvent content => Some content
                  | _ => None
                  end) events).

(** The row of the user's message of a request. *)
Definition userRow (env : Env) (req : Request) : PdfMessage :=
  {| Schema.threadId := threadId req;
     Schema.role := user;
     Schema.content := message req;
     Schema.tokenCount := Some (Db.estimateMessageTokens (message req));
     Schema.citations := None;
     Schema.createdAt := userSavedAt (times env) |}.

(** The tables with rows added to the messages. *)
Definition withMessages (tables : Tables) (rows : list PdfMessage) : Tables :=
  {| pdfFiles := pdfFiles tables;
     pdfIndexes := pdfIndexes tables;
     pdfMessages := pdfMessages tables ++ rows |}.

(** Sample inputs: a provider whose stream sends two contents with an
    empty chunk and a chunk without content between them, the clock readings
    of a request, and a question about document 7. *)
Definition sampleStream : ProviderStream :=
  {| deltas := [Some (lit "A limit"); None; Some []; Some (lit " is a value.")];
     brokenBy := None |}.

Definition sampleEnv : Env :=
  {| config := defaultConfig;
     provider := Samples.sampleProvider;
     completionsStream := fun _ => Ok sampleStream;
     times := {| requestStart := 1000; userSavedAt := 1001; retrievalStart := 1002;
                 retrievalEnd := 1302; streamStart := 1303; firstTokenTime := 1803;
                 streamEnd := 2503; assistantSavedAt := 2504; requestEnd := 2505 |} |}.

Definition question (file : Z) : Request :=
  {| fileId := file; threadId := lit "thread-1"; message := lit "What is a limit?";
     systemPrompt := None |}.

End ChatEndpoint.

(** * Properties *)

Import Indexing Retrieval Statements Samples OpenAI.

(** ** Context compression *)

Lemma fold_tokens_shift (l : list RetrievedChunk) (a : Z) :
  fold_left (fun sum c => sum + tokens (base c)) l a = a + sumTokens l.
Proof.
  unfold sumTokens. revert a.
  induction l as [|c l IH]; intros a; simpl; [lia|].
  rewrite (IH (a + tokens (base c))), (IH (0 + tokens (base c))). lia.
Qed.

Lemma sumTokens_cons (c : RetrievedChunk) (l : list RetrievedChunk) :
  sumTokens (c :: l) = tokens (base c) + sumTokens l.
Proof. unfold sumTokens at 1. simpl. rewrite fold_tokens_shift. lia. Qed.

Lemma sumTokens_app (l1 l2 : list RetrievedChunk) :
  sumTokens (l1 ++ l2) = sumTokens l1 + sumTokens l2.
Proof.
  induction l1 as [|c l1 IH]; simpl; [reflexivity|].
  rewrite !sumTokens_cons, IH. lia.
Qed.

(** The counter never passes the budget: from a counter within the budget,
    what the loop still pushes fits in what is left. *)
Lemma compressLoop_budget (chunks : list RetrievedChunk) (maxTokens totalTokens : Z) :
  totalTokens <= maxTokens ->
  totalTokens + sumTokens (compressLoop chunks maxTokens totalTokens) <= maxTokens.
Proof.
  revert totalTokens.
  induction chunks as [|c chunks IH]; intros totalTokens Hle; simpl.
  - unfold sumTokens; simpl. lia.
  - destruct (Z.leb_spec (totalTokens + tokens (base c)) maxTokens) as [Hfit|Hover].
    + rewrite sumTokens_cons. specialize (IH _ Hfit). lia.
    + destruct (50 <? maxTokens - totalTokens).
      * rewrite sumTokens_cons. unfold sumTokens; simpl. lia.
      * unfold sumTokens; simpl. lia.
Qed.

(** The loop keeps the first [n] chunks as they are and then, at most, a
    truncated copy of chunk [n]; nothing behind it. *)
Lemma compressLoop_prefix (chunks : list RetrievedChunk) (maxTokens totalTokens : Z) :
  exists n : nat,
    (n <= length chunks)%nat /\
    (compressLoop chunks maxTokens totalTokens = take n chunks \/
     exists c r, chunks !! n = Some c /\
       compressLoop chunks maxTokens totalTokens = take n chunks ++ [truncated c r]).
Proof.
  revert totalTokens.
  induction chunks as [|c chunks IH]; intros totalTokens; simpl.
  - exists 0%nat. split; [lia|]. left. reflexivity.
  - destruct (totalTokens + tokens (base c) <=? maxTokens).
    + destruct (IH (totalTokens + tokens (base c))) as (n & Hn & [Heq | (c' & r & Hc' & Heq)]).
      * exists (S n). split; [lia|]. left. simpl. now rewrite Heq.
      * exists (S n). split; [lia|]. right. exists c', r. simpl. now rewrite Heq.
    + destruct (50 <? maxTokens - totalTokens).
      * exists 0%nat. split; [lia|]. right. exists c, (maxTokens - totalTokens). now simpl.
      * exists 0%nat. split; [lia|]. left. reflexivity.
Qed.

(** C2. For every ranked chunk list and every budget [maxTokens] (a token
    count, so not negative), the token estimates of the chunks that
    [compressContext] returns sum to at most [maxTokens], and the result is a
    prefix of the ranking: the first [n] chunks unchanged, followed at most by
    the truncated chunk [n]; so no chunk is dropped while a later-ranked one
    is kept. *)
Theorem compressContext_budget_and_prefix
  (chunks : list RetrievedChunk) (maxTokens : Z) :
  0 <= maxTokens ->
  sumTokens (compressContext chunks maxTokens) <= maxTokens /\
  exists n : nat,
    (n <= length chunks)%nat /\
    (compressContext chunks maxTokens = take n chunks \/
     exists c r, chunks !! n = Some c /\
       compressContext chunks maxTokens = take n chunks ++ [truncated c r]).
Proof.
  intros Hmax. split.
  - pose proof (compressLoop_budget chunks maxTokens 0 Hmax) as H.
    unfold compressContext. lia.
  - apply compressLoop_prefix.
Qed.

(** A budget of 190 tokens over chunks of 60, 70 and 80: two kept, the third
    cut to the 60 tokens left. *)
Lemma compressContext_budget_and_prefix_witness :
  0 <= 190 /\
  (sumTokens (compressContext ranking 190) <= 190 /\
   exists n : nat,
     (n <= length ranking)%nat /\
     (compressContext ranking 190 = take n ranking \/
      exists c r, ranking !! n = Some c /\
        compressContext ranking 190 = take n ranking ++ [truncated c r])).
Proof.
  split; [lia|]. apply (compressContext_budget_and_prefix ranking 190). lia.
Defined.

(** ** Truncation of the first chunk that overflows *)

Lemma accepted_sum (pre : list RetrievedChunk) (maxTokens totalTokens : Z) :
  accepted pre maxTokens totalTokens = true ->
  forall rest, compressLoop (pre ++ rest) maxTokens totalTokens
               = pre ++ compressLoop rest maxTokens (totalTokens + sumTokens pre).
Proof.
  revert totalTokens.
  induction pre as [|c pre IH]; intros totalTokens Hacc rest.
  - unfold sumTokens; simpl. now rewrite Z.add_0_r.
  - simpl in Hacc. apply andb_true_iff in Hacc as [Hfit Hacc].
    cbn [app compressLoop]. rewrite Hfit, (IH _ Hacc), sumTokens_cons.
    now rewrite Z.add_assoc.
Qed.

(** C8, as amended. For every ranked chunk list, the first chunk whose
    token estimate would overflow the remaining budget is truncated to the
    remaining budget (four characters a token, with the marker [...]
    appended) when more than 50 tokens of the budget remain, and dropped
    otherwise; in both cases accumulation stops there: the chunks before it
    are kept in rank order and all later-ranked chunks are dropped. *)
Theorem compressContext_first_overflow (pre post : list RetrievedChunk)
  (c : RetrievedChunk) (maxTokens : Z) :
  firstOverflow pre c maxTokens ->
  let remainingTokens := maxTokens - sumTokens pre in
  compressContext (pre ++ c :: post) maxTokens
  = pre ++ (if 50 <? remainingTokens then [truncated c remainingTokens] else [])
  /\ Indexing.content (base (truncated c remainingTokens))
     = take (Z.to_nat (remainingTokens * 4)) (Indexing.content (base c)) ++ lit "..."
  /\ tokens (base (truncated c remainingTokens)) = remainingTokens.
Proof.
  intros [Hacc Hover] remainingTokens. split; [|split; reflexivity].
  unfold compressContext. rewrite (accepted_sum _ _ _ Hacc). cbn [compressLoop].
  destruct (Z.leb_spec (0 + sumTokens pre + tokens (base c)) maxTokens) as [Hfit|_];
    [lia|].
  subst remainingTokens. replace (maxTokens - (0 + sumTokens pre))
    with (maxTokens - sumTokens pre) by lia.
  reflexivity.
Qed.

(** With a budget of 190 the third chunk is cut to the 60 tokens left. *)
Lemma compressContext_first_overflow_witness :
  firstOverflow [ranked 0 60 0.9; ranked 1 70 0.8] (ranked 2 80 0.7) 190 /\
  compressContext ([ranked 0 60 0.9; ranked 1 70 0.8] ++ [ranked 2 80 0.7]) 190
  = [ranked 0 60 0.9; ranked 1 70 0.8] ++ [truncated (ranked 2 80 0.7) 60].
Proof.
  assert (H : firstOverflow [ranked 0 60 0.9; ranked 1 70 0.8] (ranked 2 80 0.7) 190).
  { split; [reflexivity | vm_compute; reflexivity]. }
  split; [exact H|].
  exact (proj1 (compressContext_first_overflow
                  [ranked 0 60 0.9; ranked 1 70 0.8] [] (ranked 2 80 0.7) 190 H)).
Defined.

(** C8, as stated, fails: with a budget of 150 the third chunk is the first
    to overflow, 20 tokens remain, and the chunk is dropped, not truncated. *)
Lemma compressContext_drops_small_remainder :
  firstOverflow [ranked 0 60 0.9; ranked 1 70 0.8] (ranked 2 80 0.7) 150 /\
  compressContext ([ranked 0 60 0.9; ranked 1 70 0.8] ++ [ranked 2 80 0.7]) 150
  <> [ranked 0 60 0.9; ranked 1 70 0.8]
     ++ [truncated (ranked 2 80 0.7)
           (150 - sumTokens [ranked 0 60 0.9; ranked 1 70 0.8])].
Proof.
  split.
  - split; [reflexivity | vm_compute; reflexivity].
  - vm_compute. discriminate.
Qed.

(** ** Prompt budget *)

Section PromptBudget.
Import Streaming.

Lemma ceil4_bounds (n : Z) : n <= 4 * ceil4 n /\ 4 * ceil4 n <= n + 3.
Proof. unfold ceil4. Z.to_euclidean_division_equations. lia. Qed.

Lemma ceil4_mono (n m : Z) : n <= m -> ceil4 n <= ceil4 m.
Proof. intros H. unfold ceil4. apply Z.div_le_mono; lia. Qed.

Lemma len_nonneg (s : jsstring) : 0 <= len s.
Proof. unfold len. lia. Qed.

Lemma len_app (s t : jsstring) : len (s ++ t) = len s + len t.
Proof. unfold len. rewrite length_app. lia. Qed.

Lemma len_substring0 (s : jsstring) (n : Z) :
  len (substring0 s n) <= Z.max 0 n.
Proof. unfold len, substring0. rewrite length_take. lia. Qed.

(** A text is never longer than four times its estimate. *)
Lemma len_le_estimate (s : jsstring) : len s <= 4 * Streaming.estimateTokens s.
Proof. unfold Streaming.estimateTokens. apply ceil4_bounds. Qed.

(** Whatever the chunk loop appends was paid for on the counter, and the
    counter stayed within [MAX_PROMPT_TOKENS - 200]. *)
Lemma contextLoop_bound (chunks : list RetrievedChunk) (tokensUsed : Z)
  (text : jsstring) (citations : list Citation) :
  contextLoop chunks tokensUsed = (text, citations) ->
  (citations = [] /\ text = []) \/
  (citations <> [] /\
   exists paid, len text <= 4 * paid /\ tokensUsed + paid <= MAX_PROMPT_TOKENS - 200).
Proof.
  revert tokensUsed text citations.
  induction chunks as [|c chunks IH]; intros tokensUsed text citations;
    cbn [contextLoop].
  - intros [<- <-]%pair_equal_spec. now left.
  - destruct (Z.ltb_spec (MAX_PROMPT_TOKENS - 200)
                (tokensUsed + Streaming.estimateTokens (chunkText c))) as [Hover|Hfit].
    + intros [<- <-]%pair_equal_spec. now left.
    + destruct (contextLoop chunks (tokensUsed + Streaming.estimateTokens (chunkText c)))
        as [text' citations'] eqn:Hrec.
      intros [<- <-]%pair_equal_spec. right. split; [discriminate|].
      pose proof (len_le_estimate (chunkText c)) as Hc.
      destruct (IH _ _ _ Hrec) as [[_ ->] | (_ & paid & Hlen & Hpaid)].
      * exists (Streaming.estimateTokens (chunkText c)).
        rewrite app_nil_r. split; [exact Hc | lia].
      * exists (Streaming.estimateTokens (chunkText c) + paid).
        rewrite len_app. split; lia.
Qed.

(** The summary goes in whole below [MAX_PROMPT_TOKENS - 500]; cut to the
    characters left otherwise, it costs at most one token more than that. *)
Lemma fitSummary_bound (threadSummary : jsstring) (tokensUsed : Z)
  (summary' : jsstring) (tokensUsed' : Z) :
  fitSummary threadSummary tokensUsed = (summary', tokensUsed') ->
  (truthy summary' && (0 <? len summary') = false /\ tokensUsed' = tokensUsed) \/
  (truthy summary' && (0 <? len summary') = true /\
   tokensUsed' = tokensUsed + Streaming.estimateTokens summary' /\
   tokensUsed' <= Z.max tokensUsed (MAX_PROMPT_TOKENS - 500) + 1).
Proof.
  unfold fitSummary.
  destruct (truthy threadSummary && (0 <? len threadSummary)) eqn:Hcond.
  - destruct (Z.ltb_spec (tokensUsed + Streaming.estimateTokens threadSummary)
                (MAX_PROMPT_TOKENS - 500)) as [Hfit|Hcut].
    + intros [= <- <-]. right. rewrite Hcond. repeat split; lia.
    + intros [= <- <-]. right.
      set (cut := substring0 threadSummary ((MAX_PROMPT_TOKENS - tokensUsed - 500) * 4)).
      assert (Hlen : len (cut ++ lit "...") = len cut + 3) by now rewrite len_app.
      pose proof (len_nonneg cut) as Hcut0.
      pose proof (len_substring0 threadSummary
                    ((MAX_PROMPT_TOKENS - tokensUsed - 500) * 4)) as Hcut1.
      fold cut in Hcut1.
      split; [|split; [reflexivity|]].
      * apply andb_true_iff. split.
        -- unfold lit; simpl. now destruct cut.
        -- apply Z.ltb_lt. lia.
      * unfold Streaming.estimateTokens. rewrite Hlen.
        pose proof (ceil4_bounds (len cut + 3)) as Hc.
        unfold MAX_PROMPT_TOKENS in *. lia.
  - intros [= <- <-]. left. now split.
Qed.

(** The prompt costs at most 19 tokens more than the larger of the fixed part
    (system prompt with label, user message) and [MAX_PROMPT_TOKENS - 200]:
    the headings are never counted, and the fixed part is never cut. *)
Lemma buildPrompt_bound (systemPrompt : jsstring) (pdfContext : PdfContext)
  (threadSummary userMessage : jsstring) (retrievedChunks : list RetrievedChunk) :
  promptTokens (fst (buildPrompt systemPrompt pdfContext threadSummary userMessage
                       retrievedChunks))
  <= Z.max (MAX_PROMPT_TOKENS - 200)
       (Streaming.estimateTokens (fullSystemPrompt systemPrompt pdfContext)
        + Streaming.estimateTokens userMessage) + 19.
Proof.
  unfold buildPrompt.
  set (full := fullSystemPrompt systemPrompt pdfContext).
  set (fixed := Streaming.estimateTokens full + Streaming.estimateTokens userMessage).
  destruct (fitSummary threadSummary fixed) as [summary' used'] eqn:Hsum.
  destruct (contextLoop retrievedChunks used') as [text citations] eqn:Hloop.
  apply fitSummary_bound in Hsum. apply contextLoop_bound in Hloop.
  assert (Hctx : Streaming.estimateTokens
                   (if (length citations =? 0)%nat then noSectionsNotice
                    else sectionsHeader ++ text)
                 <= Z.max 12 (MAX_PROMPT_TOKENS - 200 - used' + 10)).
  { destruct Hloop as [[-> ->] | (Hne & paid & Hlen & Hpaid)].
    - change (Streaming.estimateTokens
                (if (length (@nil Citation) =? 0)%nat then noSectionsNotice
                 else sectionsHeader ++ [])) with 12.
      lia.
    - destruct citations as [|ci citations]; [congruence|]. simpl (length _ =? 0)%nat.
      cbv iota. unfold Streaming.estimateTokens. rewrite len_app.
      change (len sectionsHeader) with 38.
      pose proof (ceil4_bounds (38 + len text)). lia. }
  assert (Hfull : 0 <= Streaming.estimateTokens full).
  { pose proof (len_le_estimate full). pose proof (len_nonneg full). lia. }
  assert (Huser : 0 <= Streaming.estimateTokens userMessage).
  { pose proof (len_le_estimate userMessage). pose proof (len_nonneg userMessage). lia. }
  destruct Hsum as [[Hno ->] | (Hyes & -> & Hle)].
  - rewrite Hno. cbn [fst app promptTokens fold_right content].
    unfold MAX_PROMPT_TOKENS in *. fold fixed. lia.
  - rewrite Hyes. cbn [fst app promptTokens fold_right content].
    assert (Hprev : Streaming.estimateTokens (lit "Previous conversation:" ++ nl ++ summary')
                    <= 6 + Streaming.estimateTokens summary').
    { unfold Streaming.estimateTokens. rewrite app_assoc, len_app.
      change (len (lit "Previous conversation:" ++ nl)) with 23.
      pose proof (ceil4_bounds (23 + len summary')).
      pose proof (ceil4_bounds (len summary')). lia. }
    unfold MAX_PROMPT_TOKENS in *. fold fixed in Hle |- *. lia.
Qed.

(** C1, as amended. The system prompt with the document label and the user
    message are never truncated: the first message of the prompt is the
    whole of the former, the last the whole of the latter. Whenever the two
    together are estimated at 2781 tokens or fewer, the estimates of all
    messages of the prompt that [buildPrompt] assembles add up to at most
    2800, for every memory string and every list of retrieved chunks. *)
Theorem buildPrompt_within_ceiling (systemPrompt : jsstring) (pdfContext : PdfContext)
  (threadSummary userMessage : jsstring) (retrievedChunks : list RetrievedChunk) :
  let messages :=
    fst (buildPrompt systemPrompt pdfContext threadSummary userMessage
           retrievedChunks) in
  head messages
  = Some {| role := system; content := fullSystemPrompt systemPrompt pdfContext |}
  /\ last messages = Some {| role := user; content := userMessage |}
  /\ (Streaming.estimateTokens (fullSystemPrompt systemPrompt pdfContext)
        + Streaming.estimateTokens userMessage <= 2781 ->
      promptTokens messages <= 2800).
Proof.
  cbv zeta. split; [|split].
  - unfold buildPrompt. destruct (fitSummary _ _) as [summary tokensUsed].
    destruct (contextLoop _ _) as [text citations]. reflexivity.
  - unfold buildPrompt. destruct (fitSummary _ _) as [summary tokensUsed].
    destruct (contextLoop _ _) as [text citations]. cbn [fst].
    rewrite !app_assoc. apply last_snoc.
  - intros Hfixed.
    pose proof (buildPrompt_bound systemPrompt pdfContext threadSummary userMessage
                  retrievedChunks) as H.
    unfold MAX_PROMPT_TOKENS in H. lia.
Qed.

End PromptBudget.

(** A memory of 12000 characters and eight chunks of 800 characters; the
    memory is cut, the question is not. *)
Lemma buildPrompt_within_ceiling_witness :
  Streaming.estimateTokens (Streaming.fullSystemPrompt [] lecture)
    + Streaming.estimateTokens (lit "What is a limit?") <= 2781 /\
  last (fst (Streaming.buildPrompt [] lecture (letters 12000)
               (lit "What is a limit?") manyChunks))
  = Some {| Streaming.role := Streaming.user;
            Streaming.content := lit "What is a limit?" |} /\
  Streaming.promptTokens
    (fst (Streaming.buildPrompt [] lecture (letters 12000)
            (lit "What is a limit?") manyChunks)) <= 2800.
Proof.
  assert (H : Streaming.estimateTokens (Streaming.fullSystemPrompt [] lecture)
              + Streaming.estimateTokens (lit "What is a limit?") <= 2781).
  { vm_compute. discriminate. }
  split; [exact H|].
  destruct (buildPrompt_within_ceiling [] lecture (letters 12000)
              (lit "What is a limit?") manyChunks) as (_ & Hlast & Hsum).
  split; [exact Hlast | exact (Hsum H)].
Defined.

(** C1, as stated, fails: a user message of 11204 characters is estimated at
    2801 tokens and goes into the prompt whole. *)
Lemma buildPrompt_exceeds_ceiling :
  ~ Streaming.promptTokens
      (fst (Streaming.buildPrompt [] lecture [] (letters 11204) [])) <= 2800.
Proof. vm_compute. intros H. apply H. reflexivity. Qed.

(** ** Chunking *)

Lemma closesChunk_iff (chunkSize : Z) (st : ChunkerState) (word : jsstring) :
  closesChunk chunkSize st word = true <->
  chunkSize < currentTokens st + Indexing.estimateTokens (word ++ lit " ")
  /\ currentChunk st <> [].
Proof.
  unfold closesChunk. rewrite andb_true_iff, !Z.ltb_lt.
  unfold len. destruct (currentChunk st); simpl; split; intros [H1 H2];
    (split; [exact H1|]); try lia; congruence.
Qed.

Lemma app_word_nonempty (buffer word : jsstring) : buffer ++ word ++ lit " " <> [].
Proof. destruct buffer, word; discriminate. Qed.

(** An invariant of one step is one of the loop. *)
Lemma fold_left_invariant {S A : Type} (P : S -> Prop) (step : S -> A -> S)
  (l : list A) (s : S) :
  (forall s a, P s -> P (step s a)) -> P s -> P (fold_left step l s).
Proof.
  intros Hstep. revert s. induction l as [|a l IH]; intros s Hs; simpl; auto.
Qed.

Section ChunkingFacts.
Import Chunking.

(** *** The chunks of [chunkText] *)

(** An invariant of one step, for the steps taken on the elements of the
    list, is one of the loop. *)
Lemma fold_left_invariant_in {S A : Type} (P : S -> Prop) (step : S -> A -> S)
  (l : list A) (s : S) :
  (forall s a, a ∈ l -> P s -> P (step s a)) -> P s -> P (fold_left step l s).
Proof.
  revert s. induction l as [|a l IH]; intros s Hstep Hs; simpl; [exact Hs|].
  apply IH.
  - intros s' a' Hin. apply Hstep. now right.
  - apply Hstep; [now left | exact Hs].
Qed.

(** *** Numbering *)

Lemma numbered_saved (st : ChunkerState) :
  numbered st ->
  map chunk_no (chunksOut st ++ [savedChunk st])
  = seqZ 0 (len' (chunksOut st ++ [savedChunk st])).
Proof.
  intros [Hno Hmap]. unfold len' in *. rewrite map_app, length_app, Hmap.
  cbn [map length savedChunk chunk_no].
  rewrite Nat2Z.inj_add. change (Z.of_nat 1) with 1.
  rewrite seqZ_app by lia. rewrite Hno. reflexivity.
Qed.

Lemma wordStep_numbered (chunkSize overlap : Z) (st : ChunkerState) (word : jsstring) :
  numbered st -> numbered (wordStep chunkSize overlap st word).
Proof.
  intros Hn. unfold wordStep. destruct (closesChunk chunkSize st word).
  - split; cbn [chunkNo chunksOut].
    + destruct Hn as [-> _]. unfold len'. rewrite length_app. cbn [length]. lia.
    + now apply numbered_saved.
  - exact Hn.
Qed.

Lemma chunkerRun_numbered (pageTexts : list (Z * jsstring)) (chunkSize overlap : Z) :
  numbered (chunkerRun pageTexts chunkSize overlap).
Proof.
  unfold chunkerRun. apply (fold_left_invariant numbered).
  - intros s p Hs. unfold pageStep.
    apply (fold_left_invariant numbered); [intros; now apply wordStep_numbered|].
    exact Hs.
  - split; reflexivity.
Qed.

(** X1. The chunks are numbered from 0 in the order they are produced: chunk
    [i] has [chunk_no = i]. *)
Theorem chunkText_numbered (pageTexts : list (Z * jsstring)) (chunkSize overlap : Z) :
  map chunk_no (Indexing.chunkText pageTexts chunkSize overlap)
  = seqZ 0 (len' (Indexing.chunkText pageTexts chunkSize overlap)).
Proof.
  pose proof (chunkerRun_numbered pageTexts chunkSize overlap) as Hn.
  unfold Indexing.chunkText.
  destruct (0 <? len (trim (currentChunk (chunkerRun pageTexts chunkSize overlap)))).
  - now apply numbered_saved.
  - apply Hn.
Qed.

(** *** Text *)

Lemma trimStart_inked (s : jsstring) : Exists inked s -> Exists inked (trimStart s).
Proof.
  induction s as [|c s IH]; intros H; [inversion H|].
  cbn [trimStart]. destruct (isSpace c) eqn:Hc; [|exact H].
  apply IH. inversion H as [? ? Hi|]; [|assumption].
  unfold inked in Hi. congruence.
Qed.

Lemma reverse_inked (s : jsstring) : Exists inked s -> Exists inked (reverse s).
Proof.
  rewrite !Exists_exists. intros (c & Hin & Hc). exists c.
  split; [now apply elem_of_reverse | exact Hc].
Qed.

Lemma trim_inked (s : jsstring) : Exists inked s -> trim s <> [].
Proof.
  intros H. unfold trim.
  assert (Hr : Exists inked (reverse (trimStart (reverse (trimStart s))))).
  { now apply reverse_inked, trimStart_inked, reverse_inked, trimStart_inked. }
  intros Hnil. rewrite Hnil in Hr. inversion Hr.
Qed.

Lemma splitSpacesFrom_inked (s cur : jsstring) (inRun : bool) :
  Forall inked cur -> Forall (Forall inked) (splitSpacesFrom cur inRun s).
Proof.
  revert cur inRun. induction s as [|c s IH]; intros cur inRun Hcur; cbn [splitSpacesFrom].
  - now constructor.
  - destruct (isSpace c) eqn:Hc.
    + destruct inRun; [now apply IH|]. constructor; [exact Hcur | now apply IH].
    + apply IH. apply Forall_app. split; [exact Hcur|]. now repeat constructor.
Qed.

(** The words of a page are not empty and hold no white space. *)
Lemma pageWords_inked (pageText word : jsstring) :
  word ∈ pageWords pageText -> word <> [] /\ Forall inked word.
Proof.
  unfold pageWords. intros [Hlen Hin]%list_elem_of_filter. split.
  - intros ->. vm_compute in Hlen. discriminate.
  - pose proof (splitSpacesFrom_inked pageText [] false (Forall_nil_2 _)) as Hall.
    rewrite Forall_forall in Hall. now apply Hall.
Qed.

Lemma word_Exists_inked (word : jsstring) :
  word <> [] -> Forall inked word -> Exists inked word.
Proof.
  intros Hne Hall. destruct word as [|c word]; [congruence|].
  left. now inversion Hall.
Qed.

Lemma savedChunk_wellFormed (st : ChunkerState) :
  trim (currentChunk st) <> [] -> wellFormed (savedChunk st).
Proof. intros H. repeat split. exact H. Qed.

Lemma wordStep_inked (chunkSize overlap : Z) (st : ChunkerState) (word : jsstring) :
  word <> [] -> Forall inked word ->
  inkedBuffer st -> inkedBuffer (wordStep chunkSize overlap st word).
Proof.
  intros Hne Hall [Hbuf Hout]. pose proof (word_Exists_inked word Hne Hall) as Hw.
  unfold wordStep. destruct (closesChunk chunkSize st word) eqn:Hclose.
  - apply closesChunk_iff in Hclose as [_ Hfull].
    split; cbn [currentChunk chunksOut].
    + right. unfold seededChunk.
      apply Exists_app. right. apply Exists_app. right. apply Exists_app. now left.
    + apply Forall_app. split; [exact Hout|]. constructor; [|constructor].
      apply savedChunk_wellFormed, trim_inked. destruct Hbuf; [contradiction | assumption].
  - split; cbn [currentChunk chunksOut]; [|exact Hout].
    right. apply Exists_app. right. apply Exists_app. now left.
Qed.

Lemma chunkerRun_inked (pageTexts : list (Z * jsstring)) (chunkSize overlap : Z) :
  inkedBuffer (chunkerRun pageTexts chunkSize overlap).
Proof.
  unfold chunkerRun. apply (fold_left_invariant inkedBuffer).
  - intros s p Hs. unfold pageStep.
    apply (fold_left_invariant_in inkedBuffer).
    + intros s' w Hin. apply pageWords_inked in Hin as [Hne Hall].
      now apply wordStep_inked.
    + exact Hs.
  - split; [now left | constructor].
Qed.

(** X2. Every chunk holds text: its content is never empty. A chunk leaves
    [chunkText] without an embedding, and its preview is the first 100
    characters of its content followed by three dots. *)
Theorem chunkText_well_formed (pageTexts : list (Z * jsstring)) (chunkSize overlap : Z) :
  Forall (fun c => Indexing.content c <> [] /\ embedding c = None
                   /\ preview c = take 100 (Indexing.content c) ++ lit "...")
    (Indexing.chunkText pageTexts chunkSize overlap).
Proof.
  pose proof (chunkerRun_inked pageTexts chunkSize overlap) as [_ Hout].
  unfold Indexing.chunkText.
  destruct (Z.ltb_spec 0 (len (trim (currentChunk (chunkerRun pageTexts chunkSize overlap)))))
    as [Hpos|_]; [|exact Hout].
  apply Forall_app. split; [exact Hout|]. constructor; [|constructor].
  apply savedChunk_wellFormed. intros Hnil. rewrite Hnil in Hpos. vm_compute in Hpos.
  discriminate.
Qed.

(** *** Pages *)

Lemma wordStep_currentPage (chunkSize overlap : Z) (st : ChunkerState) (word : jsstring) :
  currentPage (wordStep chunkSize overlap st word) = currentPage st.
Proof. unfold wordStep. now destruct (closesChunk chunkSize st word). Qed.

Lemma pageStep_currentPage (chunkSize overlap : Z) (st : ChunkerState)
  (page : Z * jsstring) :
  currentPage (pageStep chunkSize overlap st page) = fst page.
Proof.
  unfold pageStep.
  apply (fold_left_invariant (fun s => currentPage s = fst page)); [|reflexivity].
  intros s w <-. apply wordStep_currentPage.
Qed.

Lemma wordStep_chained (chunkSize overlap : Z) (st : ChunkerState) (word : jsstring) :
  pagesChained st -> pagesChained (wordStep chunkSize overlap st word).
Proof.
  unfold pagesChained, wordStep. intros H.
  destruct (closesChunk chunkSize st word); cbn [chunksOut chunkStartPage]; [|exact H].
  rewrite !map_app. cbn [map savedChunk page_start page_end].
  rewrite app_comm_cons, H. reflexivity.
Qed.

Lemma chunkerRun_chained (pageTexts : list (Z * jsstring)) (chunkSize overlap : Z) :
  pagesChained (chunkerRun pageTexts chunkSize overlap).
Proof.
  unfold chunkerRun. apply (fold_left_invariant pagesChained); [|reflexivity].
  intros s p Hs. unfold pageStep.
  apply (fold_left_invariant pagesChained); [intros; now apply wordStep_chained|].
  exact Hs.
Qed.

(** X3. The first chunk starts on page 1, whatever the number of the first
    page, and every later chunk starts on the page on which the chunk before
    it ended. *)
Theorem chunkText_pages_chained (pageTexts : list (Z * jsstring)) (chunkSize overlap : Z) :
  let chunks := Indexing.chunkText pageTexts chunkSize overlap in
  map Indexing.page_start chunks
  = take (length chunks) (1 :: map Indexing.page_end chunks).
Proof.
  intros chunks.
  assert (H : exists next,
             1 :: map Indexing.page_end chunks
             = map Indexing.page_start chunks ++ [next]).
  { pose proof (chunkerRun_chained pageTexts chunkSize overlap) as Hc.
    unfold chunks, Indexing.chunkText.
    set (st := chunkerRun pageTexts chunkSize overlap) in *.
    destruct (0 <? len (trim (currentChunk st))).
    - exists (currentPage st). unfold pagesChained in Hc.
      rewrite !map_app. cbn [map savedChunk Indexing.page_start Indexing.page_end].
      rewrite app_comm_cons, Hc. reflexivity.
    - now exists (chunkStartPage st). }
  destruct H as [next ->].
  rewrite <- (length_map Indexing.page_start chunks). now rewrite take_app_length.
Qed.

Lemma insertPage_Forall (P : Z * jsstring -> Prop) (page : Z * jsstring)
  (pages : list (Z * jsstring)) :
  P page -> Forall P pages -> Forall P (insertPage page pages).
Proof.
  intros Hp. induction 1 as [|q pages Hq Hall IH]; cbn [insertPage].
  - now repeat constructor.
  - destruct (fst q <? fst page); repeat constructor; assumption.
Qed.

Lemma sortPages_Forall (P : Z * jsstring -> Prop) (pages : list (Z * jsstring)) :
  Forall P pages -> Forall P (sortPages pages).
Proof.
  induction 1 as [|p pages Hp Hall IH]; [constructor|].
  unfold sortPages in *. cbn [fold_right]. now apply insertPage_Forall.
Qed.

Lemma insertPage_sorted (page : Z * jsstring) (pages : list (Z * jsstring)) :
  StronglySorted (fun p q => fst p <= fst q) pages ->
  StronglySorted (fun p q => fst p <= fst q) (insertPage page pages).
Proof.
  induction 1 as [|q pages Hsorted IH Hq]; cbn [insertPage].
  - repeat constructor.
  - destruct (Z.ltb_spec (fst q) (fst page)) as [Hlt|Hge].
    + constructor; [exact IH|].
      apply insertPage_Forall; [lia | exact Hq].
    + constructor; [now constructor|].
      constructor; [exact Hge|].
      eapply Forall_impl; [exact Hq|]. cbn. intros r Hr. lia.
Qed.

Lemma sortPages_sorted (pages : list (Z * jsstring)) :
  StronglySorted (fun p q => fst p <= fst q) (sortPages pages).
Proof.
  induction pages as [|p pages IH]; [constructor|].
  unfold sortPages in *. cbn [fold_right]. now apply insertPage_sorted.
Qed.

Lemma wordStep_ordered (chunkSize overlap : Z) (st : ChunkerState) (word : jsstring) :
  pagesOrdered st -> pagesOrdered (wordStep chunkSize overlap st word).
Proof.
  unfold pagesOrdered, wordStep. intros (H1 & H2 & Hout).
  destruct (closesChunk chunkSize st word);
    cbn [chunksOut chunkStartPage currentPage]; [|auto].
  repeat split; [lia | lia |].
  apply Forall_app. split; [exact Hout|].
  constructor; [|constructor]. split; cbn; lia.
Qed.

Lemma pageStep_ordered (chunkSize overlap : Z) (st : ChunkerState)
  (page : Z * jsstring) :
  currentPage st <= fst page ->
  pagesOrdered st -> pagesOrdered (pageStep chunkSize overlap st page).
Proof.
  intros Hle (H1 & H2 & Hout). unfold pageStep.
  apply (fold_left_invariant pagesOrdered); [intros; now apply wordStep_ordered|].
  repeat split; cbn [chunkStartPage currentPage chunksOut]; [lia | lia | exact Hout].
Qed.

Lemma pages_ordered (chunkSize overlap : Z) (pages : list (Z * jsstring))
  (st : ChunkerState) :
  StronglySorted (fun p q => fst p <= fst q) pages ->
  Forall (fun p => currentPage st <= fst p) pages ->
  pagesOrdered st ->
  pagesOrdered (fold_left (pageStep chunkSize overlap) pages st).
Proof.
  intros Hsorted. revert st.
  induction Hsorted as [|p pages Hsorted IH Hp]; intros st Hall Hst; [exact Hst|].
  cbn [fold_left]. inversion Hall as [|? ? Hle Hall']; subst.
  apply IH.
  - rewrite pageStep_currentPage. exact Hp.
  - now apply pageStep_ordered.
Qed.

(** X4. For a document whose pages are numbered from 1 on, as [extractPdfText]
    numbers them, the page range of every chunk runs forwards:
    [1 <= page_start <= page_end]. *)
Theorem chunkText_pages_forward (pageTexts : list (Z * jsstring)) (chunkSize overlap : Z) :
  Forall (fun page => 1 <= fst page) pageTexts ->
  Forall (fun c => 1 <= Indexing.page_start c
                   /\ Indexing.page_start c <= Indexing.page_end c)
    (Indexing.chunkText pageTexts chunkSize overlap).
Proof.
  intros Hpages.
  assert (Hrun : pagesOrdered (chunkerRun pageTexts chunkSize overlap)).
  { unfold chunkerRun. apply pages_ordered.
    - apply sortPages_sorted.
    - now apply sortPages_Forall.
    - repeat split; cbn; [lia | lia | constructor]. }
  destruct Hrun as (H1 & H2 & Hout).
  unfold Indexing.chunkText.
  destruct (0 <? len (trim (currentChunk (chunkerRun pageTexts chunkSize overlap))));
    [|exact Hout].
  apply Forall_app. split; [exact Hout|].
  constructor; [|constructor]. split; cbn; lia.
Qed.

(** *** A document that fits into one chunk *)

Lemma estimateTokens_nonneg (s : jsstring) : 0 <= Indexing.estimateTokens s.
Proof.
  unfold Indexing.estimateTokens. pose proof (ceil4_bounds (len s)).
  pose proof (len_nonneg s). lia.
Qed.

Lemma wordTokens_nonneg (ws : list jsstring) : 0 <= wordTokens ws.
Proof.
  unfold wordTokens. induction ws as [|w ws IH]; cbn [foldr]; [lia|].
  pose proof (estimateTokens_nonneg (w ++ lit " ")). lia.
Qed.

Lemma wordTokens_app (ws vs : list jsstring) :
  wordTokens (ws ++ vs) = wordTokens ws + wordTokens vs.
Proof.
  induction ws as [|w ws IH]; cbn [app]; [reflexivity|].
  unfold wordTokens in *. cbn [foldr]. rewrite IH. lia.
Qed.

Lemma buffered_snoc (ws : list jsstring) (w : jsstring) :
  buffered (ws ++ [w]) = buffered ws ++ w ++ lit " ".
Proof.
  unfold buffered. rewrite map_app, concat_app. cbn [map concat].
  now rewrite app_nil_r.
Qed.

Lemma buffered_join (ws : list jsstring) :
  ws <> [] -> buffered ws = join (lit " ") ws ++ lit " ".
Proof.
  induction ws as [|w ws IH]; [congruence|]. intros _.
  destruct ws as [|v ws].
  - unfold buffered. cbn [map concat join]. now rewrite app_nil_r.
  - change (buffered (w :: v :: ws)) with ((w ++ lit " ") ++ buffered (v :: ws)).
    rewrite IH by discriminate.
    change (join (lit " ") (w :: v :: ws))
      with (w ++ lit " " ++ join (lit " ") (v :: ws)).
    now rewrite <- !app_assoc.
Qed.

(** The words joined start and end with a character that is not white
    space. *)
Lemma join_ends (ws : list jsstring) :
  ws <> [] -> Forall (fun w => w <> [] /\ Forall inked w) ws ->
  (exists c rest, join (lit " ") ws = c :: rest /\ inked c) /\
  (exists front c, join (lit " ") ws = front ++ [c] /\ inked c).
Proof.
  induction ws as [|w ws IH]; [congruence|]. intros _ Hall.
  inversion Hall as [|? ? [Hne Hw] Hall']; subst.
  assert (Hhead : exists c rest, w = c :: rest /\ inked c).
  { destruct w as [|c w]; [congruence|]. exists c, w. split; [reflexivity|].
    now inversion Hw. }
  assert (Hlast : exists front c, w = front ++ [c] /\ inked c).
  { destruct (exists_last Hne) as (front & c & ->). exists front, c.
    split; [reflexivity|]. apply Forall_app in Hw as [_ Hc]. now inversion Hc. }
  destruct ws as [|v ws]; [now split|].
  change (join (lit " ") (w :: v :: ws)) with (w ++ lit " " ++ join (lit " ") (v :: ws)).
  destruct (IH ltac:(discriminate) Hall') as [_ (front & c & -> & Hc)].
  split.
  - destruct Hhead as (c0 & rest & -> & Hc0). eexists c0, _. split; [reflexivity|exact Hc0].
  - exists (w ++ lit " " ++ front), c. split; [|exact Hc].
    now rewrite <- !app_assoc.
Qed.

Lemma trimStart_inked_head (c : N) (s : jsstring) :
  inked c -> trimStart (c :: s) = c :: s.
Proof. intros Hc. cbn [trimStart]. unfold inked in Hc. now rewrite Hc. Qed.

(** Trimming the buffer of the words gives the words with one space
    between them. *)
Lemma trim_buffered (ws : list jsstring) :
  ws <> [] -> Forall (fun w => w <> [] /\ Forall inked w) ws ->
  trim (buffered ws) = join (lit " ") ws.
Proof.
  intros Hne Hall. rewrite buffered_join by exact Hne.
  destruct (join_ends ws Hne Hall) as [(c0 & rest & Hj & Hc0) (front & c & Hj' & Hc)].
  unfold trim. rewrite Hj. change ((c0 :: rest) ++ lit " ") with (c0 :: rest ++ lit " ").
  rewrite trimStart_inked_head by exact Hc0.
  change (c0 :: rest ++ lit " ") with ((c0 :: rest) ++ lit " ").
  rewrite <- Hj, Hj'. rewrite reverse_app. change (reverse (lit " ")) with (lit " ").
  change (lit " " ++ reverse (front ++ [c])) with (32%N :: reverse (front ++ [c])).
  cbn [trimStart]. change (isSpace 32) with true. cbn match.
  rewrite reverse_app. change (reverse [c]) with [c]. cbn [app].
  rewrite trimStart_inked_head by exact Hc.
  change (c :: reverse front) with ([c] ++ reverse front).
  rewrite reverse_app, reverse_involutive. reflexivity.
Qed.

Lemma documentWords_inked (pageTexts : list (Z * jsstring)) :
  Forall (fun w => w <> [] /\ Forall inked w) (documentWords pageTexts).
Proof.
  unfold documentWords. induction (sortPages pageTexts) as [|page pages IH];
    cbn [map concat]; [constructor|].
  apply Forall_app. split; [|exact IH].
  apply Forall_forall. intros w Hw. now apply pageWords_inked in Hw.
Qed.

Lemma words_oneChunk (chunkSize overlap : Z) (l ws : list jsstring) (st : ChunkerState) :
  oneChunk st ws -> wordTokens (ws ++ l) <= chunkSize ->
  oneChunk (fold_left (wordStep chunkSize overlap) l st) (ws ++ l).
Proof.
  revert ws st. induction l as [|w l IH]; intros ws st Hst Hfit.
  - now rewrite app_nil_r.
  - cbn [fold_left]. replace (ws ++ w :: l) with ((ws ++ [w]) ++ l) in *
      by now rewrite <- app_assoc.
    apply IH; [|exact Hfit].
    destruct Hst as (Hout & Hno & Hstart & Hbuf & Htok).
    assert (Hopen : closesChunk chunkSize st w = false).
    { destruct (closesChunk chunkSize st w) eqn:Hc; [|reflexivity].
      apply closesChunk_iff in Hc as [Hc _].
      rewrite !wordTokens_app in Hfit. pose proof (wordTokens_nonneg l).
      change (wordTokens [w]) with (Indexing.estimateTokens (w ++ lit " ") + 0) in Hfit.
      lia. }
    unfold wordStep. rewrite Hopen.
    repeat split; cbn [chunksOut chunkNo chunkStartPage currentChunk currentTokens];
      try assumption.
    + now rewrite buffered_snoc, Hbuf.
    + rewrite wordTokens_app, Htok.
      change (wordTokens [w]) with (Indexing.estimateTokens (w ++ lit " ") + 0). lia.
Qed.

Lemma last_cons_default {A : Type} (l : list A) (a d : A) :
  List.last (a :: l) d = List.last l a.
Proof.
  revert a d. induction l as [|b l IH]; intros a d; [reflexivity|].
  change (List.last (a :: b :: l) d) with (List.last (b :: l) d).
  now rewrite !IH.
Qed.

Lemma pages_oneChunk (chunkSize overlap : Z) (pages : list (Z * jsstring))
  (ws : list jsstring) (st : ChunkerState) :
  oneChunk st ws ->
  wordTokens (ws ++ concat (map (fun page => pageWords (snd page)) pages)) <= chunkSize ->
  let st' := fold_left (pageStep chunkSize overlap) pages st in
  oneChunk st' (ws ++ concat (map (fun page => pageWords (snd page)) pages))
  /\ currentPage st' = List.last (map fst pages) (currentPage st).
Proof.
  revert ws st. induction pages as [|p pages IH]; intros ws st Hst Hfit.
  - cbn. now rewrite app_nil_r.
  - cbn [fold_left map concat] in *. rewrite app_assoc in *.
    assert (Hp : oneChunk (pageStep chunkSize overlap st p) (ws ++ pageWords (snd p))).
    { unfold pageStep. apply words_oneChunk; [exact Hst|].
      rewrite wordTokens_app in Hfit.
      pose proof (wordTokens_nonneg
                    (concat (map (fun page => pageWords (snd page)) pages))). lia. }
    destruct (IH _ _ Hp Hfit) as [Hone Hpage]. split; [exact Hone|].
    rewrite Hpage, pageStep_currentPage. cbn [map].
    now rewrite last_cons_default.
Qed.

(** X5. A document whose words together stay within [chunkSize] becomes one
    chunk: number 0, from page 1 to the last page, its text the words of the
    document in page order with a single space between them, its tokens the
    estimates of the words added up. *)
Theorem chunkText_one_chunk (pageTexts : list (Z * jsstring)) (chunkSize overlap : Z) :
  documentWords pageTexts <> [] ->
  wordTokens (documentWords pageTexts) <= chunkSize ->
  Indexing.chunkText pageTexts chunkSize overlap
  = [ {| chunk_no := 0;
         Indexing.page_start := 1;
         Indexing.page_end := lastPage pageTexts;
         Indexing.content := join (lit " ") (documentWords pageTexts);
         tokens := wordTokens (documentWords pageTexts);
         preview := take 100 (join (lit " ") (documentWords pageTexts)) ++ lit "...";
         embedding := None |} ].
Proof.
  intros Hne Hfit.
  destruct (pages_oneChunk chunkSize overlap (sortPages pageTexts) [] initialState)
    as [(Hout & Hno & Hstart & Hbuf & Htok) Hpage].
  { repeat split. }
  { exact Hfit. }
  cbn [app] in *. fold (documentWords pageTexts) in *.
  fold (chunkerRun pageTexts chunkSize overlap) in *.
  pose proof (trim_buffered _ Hne (documentWords_inked pageTexts)) as Htrim.
  unfold Indexing.chunkText.
  set (st := chunkerRun pageTexts chunkSize overlap) in *.
  assert (Hpos : (0 <? len (trim (currentChunk st))) = true).
  { apply Z.ltb_lt. rewrite Hbuf, Htrim.
    destruct (join_ends _ Hne (documentWords_inked pageTexts)) as [(c & rest & -> & _) _].
    unfold len. cbn [length]. lia. }
  rewrite Hpos, Hout. cbn [app]. unfold savedChunk.
  rewrite Hno, Hstart, Hpage, Hbuf, Htok, Htrim. reflexivity.
Qed.

(** *** The size of a chunk *)

Lemma filled_snoc (overlap : Z) (before : option jsstring) (runs : list Run)
  (run : Run) :
  filled overlap before (runs ++ [run])
  = filled overlap before runs
    ++ [fillRun overlap (lastBuffer before (filled overlap before runs)) run].
Proof.
  revert before. induction runs as [|r runs IH]; intros before; [reflexivity|].
  cbn [app filled]. rewrite IH. cbn [app]. do 3 f_equal.
  unfold lastBuffer. rewrite last_cons.
  now destruct (last (filled overlap _ runs)).
Qed.

Lemma filled_length (overlap : Z) (before : option jsstring) (runs : list Run) :
  length (filled overlap before runs) = length runs.
Proof.
  revert before. induction runs as [|r runs IH]; intros before; [reflexivity|].
  cbn [filled length]. now rewrite IH.
Qed.

Lemma startOf_nonempty (overlap : Z) (before : option jsstring) (run : Run) :
  startOf overlap before run <> [].
Proof.
  unfold startOf. destruct before as [buffer|].
  - unfold seededChunk. rewrite (app_assoc (join _ _)). apply app_word_nonempty.
  - apply (app_word_nonempty []).
Qed.

(** The body of the loop over the words keeps the invariant, with the
    word read. *)
Lemma wordStep_described (chunkSize overlap : Z) (st : ChunkerState)
  (words : list jsstring) (word : jsstring) :
  described chunkSize overlap st words ->
  described chunkSize overlap (wordStep chunkSize overlap st word) (words ++ [word]).
Proof.
  intros [(-> & Hout & Hbuf & Htok)
         | (runs & current & Hwords & Hsaved & Hbuf & Htok & Hfit & Hclosed)].
  - (* the first word goes into the empty buffer *)
    right. exists [], {| opening := word; added := [] |}.
    assert (Hopen : closesChunk chunkSize st word = false).
    { destruct (closesChunk chunkSize st word) eqn:Hc; [|reflexivity].
      apply closesChunk_iff in Hc as [_ Hc]. contradiction. }
    unfold wordStep. rewrite Hopen.
    cbn [chunksOut currentChunk currentTokens filled lastBuffer last fillRun
         fullBuffer counted startOf opening added buffered map concat wordTokens
         foldr runWords app].
    rewrite Hout, Hbuf, Htok, app_nil_r. cbn [app].
    split; [reflexivity|]. split; [constructor|]. split; [reflexivity|].
    split; [lia|]. split; [now left|].
    intros i c next Hi. rewrite lookup_nil in Hi. discriminate.
  - cbv zeta in Hbuf, Htok.
    set (before := lastBuffer None (filled overlap None runs)) in *.
    right. unfold wordStep.
    destruct (closesChunk chunkSize st word) eqn:Hclose.
    + (* the buffer is saved and a new run starts with the word *)
      apply closesChunk_iff in Hclose as [Hover _].
      exists (runs ++ [current]), {| opening := word; added := [] |}.
      cbn [chunksOut currentChunk currentTokens].
      rewrite filled_snoc. fold before.
      assert (Hlast : lastBuffer None
                        (filled overlap None runs ++ [fillRun overlap before current])
                      = Some (currentChunk st)).
      { unfold lastBuffer. now rewrite last_snoc, Hbuf. }
      rewrite Hlast.
      cbn [fillRun fullBuffer counted startOf opening added buffered map concat
           wordTokens foldr runWords].
      split.
      { rewrite Hwords, map_app, concat_app. cbn [map concat runWords].
        now rewrite app_nil_r, <- !app_assoc. }
      split.
      { apply Forall2_app; [exact Hsaved|]. constructor; [|constructor].
        split; [cbn [savedChunk content]; now rewrite Hbuf|].
        split; [exact Htok|]. exact Hfit. }
      split; [now rewrite app_nil_r|]. split; [lia|]. split; [now left|].
      intros i c next Hi Hnext.
      pose proof (Forall2_length _ _ _ Hsaved) as Hlen.
      rewrite filled_length in Hlen.
      apply lookup_app_Some in Hi as [Hi | [Hge Hi]].
      * apply (Hclosed i c next Hi).
        apply lookup_lt_Some in Hi.
        rewrite lookup_app_l in Hnext; [exact Hnext|].
        rewrite length_app. cbn [length]. lia.
      * destruct (i - length (chunksOut st))%nat eqn:Hd; [|discriminate].
        injection Hi as <-. cbn [savedChunk tokens].
        assert (i = length (chunksOut st)) as -> by lia.
        rewrite lookup_app_r in Hnext by (rewrite length_app; cbn [length]; lia).
        rewrite length_app, Hlen in Hnext. cbn [length] in Hnext.
        replace (S (length runs) - (length runs + 1))%nat with 0%nat in Hnext by lia.
        injection Hnext as <-. exact Hover.
    + (* the word is added to the buffer *)
      exists runs, {| opening := opening current; added := added current ++ [word] |}.
      cbn [chunksOut currentChunk currentTokens]. fold before.
      unfold fillRun in *. cbn [fullBuffer counted startOf opening added runWords] in *.
      change (startOf overlap before
                {| opening := opening current; added := added current ++ [word] |})
        with (startOf overlap before current).
      split.
      { rewrite Hwords. unfold runWords. now rewrite <- !app_assoc. }
      split; [exact Hsaved|].
      split; [now rewrite buffered_snoc, Hbuf, <- app_assoc|].
      split.
      { rewrite wordTokens_app, Htok.
        change (wordTokens [word])
          with (Indexing.estimateTokens (word ++ lit " ") + 0). lia. }
      split.
      { right.
        destruct (Z.le_gt_cases
                    (currentTokens st + Indexing.estimateTokens (word ++ lit " "))
                    chunkSize) as [Hle|Hgt]; [exact Hle|].
        assert (closesChunk chunkSize st word = true); [|congruence].
        apply closesChunk_iff. split; [lia|]. rewrite Hbuf.
        intros Hnil. apply app_eq_nil in Hnil as [Hnil _].
        now apply startOf_nonempty in Hnil. }
      intros i c next Hi Hnext.
      apply lookup_app_Some in Hnext as [Hnext | [Hge Hnext]].
      * apply (Hclosed i c next Hi). now apply lookup_app_l_Some.
      * destruct (S i - length runs)%nat eqn:Hd; [|discriminate].
        injection Hnext as <-. cbn [opening].
        apply (Hclosed i c current Hi).
        rewrite lookup_app_r by exact Hge. now rewrite Hd.
Qed.

Lemma words_described (chunkSize overlap : Z) (l words : list jsstring)
  (st : ChunkerState) :
  described chunkSize overlap st words ->
  described chunkSize overlap (fold_left (wordStep chunkSize overlap) l st) (words ++ l).
Proof.
  revert words st. induction l as [|w l IH]; intros words st Hst.
  - now rewrite app_nil_r.
  - cbn [fold_left]. replace (words ++ w :: l) with ((words ++ [w]) ++ l)
      by now rewrite <- app_assoc.
    apply IH. now apply wordStep_described.
Qed.

Lemma pages_described (chunkSize overlap : Z) (pages : list (Z * jsstring))
  (words : list jsstring) (st : ChunkerState) :
  described chunkSize overlap st words ->
  described chunkSize overlap (fold_left (pageStep chunkSize overlap) pages st)
    (words ++ concat (map (fun page => pageWords (snd page)) pages)).
Proof.
  revert words st. induction pages as [|p pages IH]; intros words st Hst.
  - cbn. now rewrite app_nil_r.
  - cbn [fold_left map concat]. rewrite app_assoc. apply IH.
    unfold pageStep. apply words_described. exact Hst.
Qed.

(** C7, as amended. The words of the document go, in their order, into
    runs, one for each chunk that [chunkText] produces. A chunk starts from
    a buffer that [chunkSize] does not bound: the first chunk from its first
    word, a later chunk from the seed made of the overlap words of the buffer
    before it and the word that closed that buffer. The chunk is the trimmed
    buffer with the further words of its run added, and its token estimate
    is the estimate of the buffer it started from and, for every word added,
    the estimate of the word with a space, at four characters a token. That
    estimate is at most [chunkSize] unless the chunk is saved as the buffer
    it started from, no word added. A chunk closes exactly when the next
    word would take the counter beyond [chunkSize]: every word added to a
    buffer fitted, and the word that opens the next run did not fit. *)
Theorem chunkText_within_size (pageTexts : list (Z * jsstring))
  (chunkSize overlap : Z) :
  exists runs : list Run,
    concat (map runWords runs) = documentWords pageTexts
    /\ Forall2
         (fun c f =>
            Indexing.content c = trim (fullBuffer f)
            /\ tokens c = counted f
            /\ (added (filledRun f) = [] \/ tokens c <= chunkSize)
            /\ (forall ws w rest,
                  added (filledRun f) = ws ++ w :: rest ->
                  Indexing.estimateTokens (startBuffer f) + wordTokens ws
                    + Indexing.estimateTokens (w ++ lit " ") <= chunkSize))
         (Indexing.chunkText pageTexts chunkSize overlap)
         (filled overlap None runs)
    /\ (forall i c next,
          Indexing.chunkText pageTexts chunkSize overlap !! i = Some c ->
          runs !! S i = Some next ->
          chunkSize < tokens c + Indexing.estimateTokens (opening next ++ lit " ")).
Proof.
  assert (Hstrong : forall chunks fs,
            Forall2 (savedFrom chunkSize) chunks fs ->
            Forall (fun f => exists before run, f = fillRun overlap before run) fs ->
            Forall2
              (fun c f =>
                 Indexing.content c = trim (fullBuffer f)
                 /\ tokens c = counted f
                 /\ (added (filledRun f) = [] \/ tokens c <= chunkSize)
                 /\ (forall ws w rest,
                       added (filledRun f) = ws ++ w :: rest ->
                       Indexing.estimateTokens (startBuffer f) + wordTokens ws
                         + Indexing.estimateTokens (w ++ lit " ") <= chunkSize))
              chunks fs).
  { intros chunks fs Hsaved. induction Hsaved as [|c f chunks fs Hcf _ IH];
      intros Hfs; [constructor|].
    inversion Hfs as [|? ? (before & run & ->) Hfs']; subst.
    constructor; [|now apply IH].
    destruct Hcf as (Hcontent & Htokens & Hfit).
    split; [exact Hcontent|]. split; [exact Htokens|]. split; [exact Hfit|].
    cbn [fillRun filledRun startBuffer counted] in *.
    intros ws w rest Hadded. rewrite Hadded in *.
    destruct Hfit as [Hnil | Hle]; [now destruct ws|].
    rewrite Htokens, wordTokens_app in Hle.
    change (wordTokens (w :: rest))
      with (Indexing.estimateTokens (w ++ lit " ") + wordTokens rest) in Hle.
    pose proof (wordTokens_nonneg rest). lia. }
  assert (Hfilled : forall before runs,
            Forall (fun f => exists before run, f = fillRun overlap before run)
              (filled overlap before runs)).
  { intros before runs. revert before.
    induction runs as [|r runs IH]; intros before; cbn [filled]; constructor; eauto. }
  pose proof (pages_described chunkSize overlap (sortPages pageTexts) [] initialState)
    as Hrun.
  cbn [app] in Hrun. fold (documentWords pageTexts) in Hrun.
  fold (chunkerRun pageTexts chunkSize overlap) in Hrun.
  pose proof (chunkerRun_inked pageTexts chunkSize overlap) as [Hinked _].
  unfold Indexing.chunkText.
  set (st := chunkerRun pageTexts chunkSize overlap) in *.
  destruct Hrun as [(Hwords & Hout & Hbuf & Htok)
                   | (runs & current & Hwords & Hsaved & Hbuf & Htok & Hfit & Hclosed)].
  { left. repeat split. }
  - exists []. rewrite Hbuf, Hout. cbn. split; [now rewrite Hwords|].
    split; [constructor|]. intros i c next Hi. destruct i; discriminate Hi.
  - cbv zeta in Hbuf, Htok.
    set (f := fillRun overlap (lastBuffer None (filled overlap None runs)) current) in *.
    assert (Hpos : (0 <? len (trim (currentChunk st))) = true).
    { apply Z.ltb_lt.
      assert (Hne : currentChunk st <> []).
      { rewrite Hbuf. cbn [f fillRun fullBuffer]. intros Hnil.
        apply app_eq_nil in Hnil as [Hnil _]. now apply startOf_nonempty in Hnil. }
      destruct Hinked as [Hnil | Hink]; [contradiction|].
      apply trim_inked in Hink. unfold len.
      destruct (trim (currentChunk st)); [contradiction|]. cbn [length]. lia. }
    rewrite Hpos. exists (runs ++ [current]).
    split; [rewrite map_app, concat_app; cbn [map concat]; now rewrite app_nil_r|].
    rewrite filled_snoc. fold f. split.
    + apply Hstrong.
      * apply Forall2_app; [exact Hsaved|]. constructor; [|constructor].
        split; [cbn [savedChunk content]; now rewrite Hbuf|].
        split; [exact Htok|]. exact Hfit.
      * unfold f. rewrite <- filled_snoc. apply Hfilled.
    + intros i c next Hi Hnext.
      pose proof (Forall2_length _ _ _ Hsaved) as Hlen.
      rewrite filled_length in Hlen.
      apply lookup_app_Some in Hi as [Hi | [Hge Hi]]; [now apply (Hclosed i c next)|].
      apply lookup_lt_Some in Hnext. rewrite length_app in Hnext.
      cbn [length] in Hnext. lia.
Qed.

(** C7, as stated, fails: with a chunk size of 2 and an overlap of 100 the
    second chunk of three words of one token each is estimated at 4 tokens,
    more than the chunk size and the one token of its last word together. *)
Lemma chunkText_seed_exceeds_size :
  secondOfThreeWords ∈ Indexing.chunkText threeWords 2 100 /\
  ~ tokens secondOfThreeWords
    <= 2 + Indexing.estimateTokens
             (lastWord (Indexing.content secondOfThreeWords) ++ lit " ").
Proof.
  split.
  - apply list_elem_of_In. vm_compute. right. left. reflexivity.
  - vm_compute. intros H. apply H. reflexivity.
Qed.

(** *** The statements on a sample *)

(** The one page of three words, whose number is 1. *)
Lemma chunkText_pages_forward_witness :
  Forall (fun page => 1 <= fst page) threeWords
  /\ Forall (fun c => 1 <= Indexing.page_start c
                      /\ Indexing.page_start c <= Indexing.page_end c)
       (Indexing.chunkText threeWords 2 100).
Proof.
  assert (H : Forall (fun page => 1 <= fst page) threeWords).
  { unfold threeWords. constructor; [cbn; lia | constructor]. }
  split; [exact H|]. exact (chunkText_pages_forward threeWords 2 100 H).
Defined.

(** Three words of one token each in a chunk of up to 800 tokens. *)
Lemma chunkText_one_chunk_witness :
  documentWords threeWords = [lit "aaa"; lit "bbb"; lit "ccc"]
  /\ wordTokens (documentWords threeWords) = 3
  /\ Indexing.chunkText threeWords 800 100
     = [ {| chunk_no := 0;
            Indexing.page_start := 1;
            Indexing.page_end := lastPage threeWords;
            Indexing.content := join (lit " ") (documentWords threeWords);
            tokens := wordTokens (documentWords threeWords);
            preview := take 100 (join (lit " ") (documentWords threeWords)) ++ lit "...";
            embedding := None |} ].
Proof.
  split; [vm_compute; reflexivity|]. split; [vm_compute; reflexivity|].
  apply (chunkText_one_chunk threeWords 800 100).
  - vm_compute. discriminate.
  - vm_compute. discriminate.
Defined.

End ChunkingFacts.

(** ** Retrieval without an index *)

(** C4. [retrieveContext] for a document id with no persisted index, or
    whose index has an empty chunk list, returns the value
    [{chunks: [], totalTokens: 0, error: "No index found or index is empty"}];
    it is a total function into the typed result, so nothing is thrown. *)
Theorem retrieveContext_no_index (config : Config) (provider : OpenAI.Provider)
  (disk : Disk) (fileId : Z) (query : jsstring) :
  loadIndex disk fileId = None \/
  (exists index, loadIndex disk fileId = Some index /\ Indexing.chunks index = []) ->
  retrieveContext config provider disk fileId query
  = {| Retrieval.chunks := []; Retrieval.totalTokens := 0;
       Retrieval.error := Some (lit "No index found or index is empty") |}.
Proof.
  unfold retrieveContext.
  intros [-> | (index & -> & Hempty)]; [reflexivity|].
  rewrite Hempty. reflexivity.
Qed.

Lemma retrieveContext_no_index_witness :
  (loadIndex (Routers.disk sampleWorld) 8 = None \/
   (exists index, loadIndex (Routers.disk sampleWorld) 8 = Some index
                  /\ Indexing.chunks index = [])) /\
  retrieveContext defaultConfig sampleProvider (Routers.disk sampleWorld) 8
    (lit "What is a limit?")
  = {| Retrieval.chunks := []; Retrieval.totalTokens := 0;
       Retrieval.error := Some (lit "No index found or index is empty") |}.
Proof.
  assert (H : loadIndex (Routers.disk sampleWorld) 8 = None \/
              (exists index, loadIndex (Routers.disk sampleWorld) 8 = Some index
                             /\ Indexing.chunks index = [])).
  { left. reflexivity. }
  split; [exact H|].
  exact (retrieveContext_no_index defaultConfig sampleProvider
           (Routers.disk sampleWorld) 8 (lit "What is a limit?") H).
Defined.

(** ** A build that throws *)

(** When a step before the writing of the index file throws, [indexPdf]
    resolves to the failure with the message of what was thrown, and the
    disk is as it was; the callback has been called for the milestones
    passed, which keeps whatever it keeps. *)
Lemma indexPdf_failure {T : Type} (host : Host) (file : Z) (filePath : jsstring)
  (onProgress : Z -> T -> T) (disk : Disk) (t : T) (e : exn) (P : T -> Prop) :
  BuildThrows host disk filePath e ->
  P t -> (forall p t, P t -> P (onProgress p t)) ->
  exists t', P t' /\
    indexPdf host file filePath (Some onProgress) disk t = (failure e, disk, t').
Proof.
  intros Hthrows Ht Hkeep. unfold indexPdf.
  destruct Hthrows as [Hread | buffer Hread Hextract
                      | buffer pageTexts Hread Hextract Hembed].
  - rewrite Hread. exists t. split; [exact Ht | reflexivity].
  - rewrite Hread, Hextract. eexists. split; [|reflexivity]. auto.
  - rewrite Hread, Hextract, Hembed. eexists. split; [|reflexivity]. auto.
Qed.

Lemma createOrUpdateIndex_withRow (data : Db.InsertPdfIndex) (tables : Schema.Tables) :
  Db.createOrUpdateIndex data (Some tables)
  = Ok (withRow tables (Db.fileId data)
          (match Schema.pdfIndexes tables !! Db.fileId data with
           | Some existing => Db.updatedRow data existing
           | None => Db.insertedRow data
           end)).
Proof. reflexivity. Qed.

Lemma withRow_withRow (tables : Schema.Tables) (file : Z) (row row' : Schema.PdfIndexRow) :
  withRow (withRow tables file row) file row' = withRow tables file row'.
Proof. unfold withRow. cbn. now rewrite insert_insert_eq. Qed.

Lemma lookup_withRow (tables : Schema.Tables) (file : Z) (row : Schema.PdfIndexRow) :
  Schema.pdfIndexes (withRow tables file row) !! file = Some row.
Proof. unfold withRow. cbn. now rewrite lookup_insert_eq. Qed.

Lemma tryUpdateIndex_withRow (data : Db.InsertPdfIndex) (tables : Schema.Tables)
  (row : Schema.PdfIndexRow) :
  Routers.tryUpdateIndex data (Some (withRow tables (Db.fileId data) row))
  = Some (withRow tables (Db.fileId data) (Db.updatedRow data row)).
Proof.
  unfold Routers.tryUpdateIndex.
  now rewrite createOrUpdateIndex_withRow, lookup_withRow, withRow_withRow.
Qed.

(** What a trigger that starts a task has done. *)
Lemma triggerIndex_started (host : Host)
  (getLocalFilePath : jsstring -> option jsstring) (file : Z)
  (w w1 : Routers.World) (answer : result Routers.Triggered)
  (task : list nat -> Routers.World -> Routers.World)
  (pdf : Schema.PdfFile) (localPath : jsstring) :
  Routers.triggerIndex host getLocalFilePath file w = (answer, w1, Some task) ->
  Db.getPdfFileById (Routers.database w) file = Some pdf ->
  getLocalFilePath (Schema.fileKey pdf) = Some localPath ->
  exists tables,
    Routers.database w = Some tables
    /\ answer = Ok {| Routers.triggerSuccess := true; Routers.message := None |}
    /\ task = Routers.backgroundIndexing host file localPath
    /\ w1 = {| Routers.database :=
                 Some (withRow tables file
                         (match Schema.pdfIndexes tables !! file with
                          | Some existing =>
                              Db.updatedRow (Routers.indexingAt file 0) existing
                          | None => Db.insertedRow (Routers.indexingAt file 0)
                          end));
               Routers.disk := Routers.disk w |}.
Proof.
  unfold Routers.triggerIndex. intros H Hpdf Hpath. rewrite Hpdf, Hpath in H.
  destruct (Routers.database w) as [tables|] eqn:Hdb; [|discriminate].
  exists tables. split; [reflexivity|].
  rewrite createOrUpdateIndex_withRow in H.
  match type of H with
  | match ?u with _ => _ end = _ => destruct u as [[]|]
  end; try discriminate.
  injection H as <- <- <-. repeat split.
Qed.

(** *** The order of the writes *)

Lemma written_fileId (host : Host) (file : Z) (write : Routers.Pending) :
  Db.fileId (written host file write) = file.
Proof.
  destruct write as [p|r|err]; try reflexivity.
  cbn [written]. unfold Routers.outcomeOf. now destruct (success r).
Qed.

(** A write that reaches a database in which the file has a row rewrites
    that row, and nothing follows from it. *)
Lemma land_withRow (host : Host) (file : Z) (write : Routers.Pending)
  (tables : Schema.Tables) (row : Schema.PdfIndexRow) :
  Routers.land host file write (Some (withRow tables file row))
  = (Some (withRow tables file (Db.updatedRow (written host file write) row)), []).
Proof.
  pose proof (written_fileId host file write) as Hfile.
  destruct write as [p|r|err]; cbn [Routers.land written] in *.
  - rewrite <- Hfile at 1. rewrite tryUpdateIndex_withRow. now rewrite Hfile.
  - rewrite createOrUpdateIndex_withRow, Hfile, lookup_withRow, withRow_withRow.
    reflexivity.
  - rewrite <- Hfile at 1. rewrite tryUpdateIndex_withRow. now rewrite Hfile.
Qed.

(** Whatever the schedule, the writes under way are all done, each once, and
    the row of the file is what they make of it in the order they are done. *)
Lemma landWrites_withRow (host : Host) (file : Z) (steps : nat) (schedule : list nat)
  (pending : list Routers.Pending) (tables : Schema.Tables)
  (row : Schema.PdfIndexRow) :
  (length pending <= steps)%nat ->
  exists landed,
    landed ≡ₚ pending
    /\ Routers.landWrites host file steps schedule pending
         (Some (withRow tables file row))
       = (landed, Some (withRow tables file (rowAfter host file landed row))).
Proof.
  revert schedule pending row.
  induction steps as [|steps IH]; intros schedule pending row Hsteps.
  - destruct pending; [|cbn in Hsteps; lia]. exists []. split; reflexivity.
  - destruct pending as [|first pending'].
    { exists []. split; reflexivity. }
    cbn [Routers.landWrites].
    set (pending := first :: pending') in *.
    set (i := (hd 0 schedule mod length pending)%nat).
    assert (Hi : (i < length pending)%nat).
    { apply Nat.mod_upper_bound. discriminate. }
    destruct (lookup_lt_is_Some_2 pending i Hi) as [write Hwrite].
    rewrite (nth_lookup_Some _ _ first _ Hwrite).
    rewrite land_withRow, app_nil_r.
    destruct (IH (tl schedule) (delete i pending)
                (Db.updatedRow (written host file write) row))
      as (landed & Hperm & ->).
    { rewrite length_delete by eauto. cbn [length] in *. lia. }
    exists (write :: landed). split; [|reflexivity].
    rewrite Hperm. symmetry. now apply delete_Permutation.
Qed.

(** With or without a database, the steps that the task takes are enough:
    every write that is under way is done. *)
Lemma stepsFor_Permutation (l1 l2 : list Routers.Pending) :
  l1 ≡ₚ l2 -> stepsFor l1 = stepsFor l2.
Proof.
  induction 1 as [|x l1 l2 _ IH|x y l|l1 l2 l3 _ IH1 _ IH2].
  - reflexivity.
  - destruct x; cbn [stepsFor]; now rewrite IH.
  - destruct x, y; reflexivity.
  - now rewrite IH1.
Qed.

Lemma stepsFor_app (l1 l2 : list Routers.Pending) :
  stepsFor (l1 ++ l2) = (stepsFor l1 + stepsFor l2)%nat.
Proof.
  induction l1 as [|x l1 IH]; [reflexivity|].
  destruct x; cbn [app stepsFor]; rewrite IH; lia.
Qed.

Lemma landWrites_all_done (host : Host) (file : Z) (steps : nat) (schedule : list nat)
  (pending : list Routers.Pending) (db : option Schema.Tables) :
  (stepsFor pending <= steps)%nat ->
  pending ⊆+ fst (Routers.landWrites host file steps schedule pending db).
Proof.
  revert schedule pending db.
  induction steps as [|steps IH]; intros schedule pending db Hsteps.
  - destruct pending as [|[] pending]; cbn [stepsFor] in Hsteps; try lia. reflexivity.
  - destruct pending as [|first pending']; [reflexivity|].
    cbn [Routers.landWrites].
    set (pending := first :: pending') in *.
    set (i := (hd 0 schedule mod length pending)%nat).
    assert (Hi : (i < length pending)%nat).
    { apply Nat.mod_upper_bound. discriminate. }
    destruct (lookup_lt_is_Some_2 pending i Hi) as [write Hwrite].
    rewrite (nth_lookup_Some _ _ first _ Hwrite).
    pose proof (delete_Permutation pending i write Hwrite) as Hperm.
    apply stepsFor_Permutation in Hperm as Hcount.
    destruct (Routers.land host file write db) as [db' more] eqn:Hland.
    assert (Hmore : (S (stepsFor (delete i pending ++ more))
                     <= stepsFor (write :: delete i pending))%nat).
    { rewrite stepsFor_app. destruct write as [p|r|err]; cbn [Routers.land] in Hland.
      - injection Hland as _ <-. cbn [stepsFor]. lia.
      - destruct (Db.createOrUpdateIndex _ _); injection Hland as _ <-;
          cbn [stepsFor]; lia.
      - injection Hland as _ <-. cbn [stepsFor]. lia. }
    specialize (IH (tl schedule) (delete i pending ++ more) db' ltac:(lia)).
    destruct (Routers.landWrites host file steps (tl schedule)
                (delete i pending ++ more) db') as [landed db''].
    cbn [fst] in *. rewrite Hperm. apply submseteq_skip.
    etransitivity; [|exact IH]. now apply submseteq_inserts_r.
Qed.

Lemma backgroundWrites_all_done (host : Host) (file : Z) (localPath : jsstring)
  (schedule : list nat) (w : Routers.World) :
  Routers.startedWrites host file localPath w
  ⊆+ fst (Routers.backgroundWrites host file localPath schedule w).
Proof.
  unfold Routers.backgroundWrites. apply landWrites_all_done.
  unfold Routers.startedWrites.
  destruct (Routers.backgroundBuild host file localPath w) as [[result disk'] started].
  rewrite stepsFor_app, length_app, length_map. cbn [stepsFor length].
  induction started as [|p started IH]; cbn [map stepsFor length]; lia.
Qed.

Lemma rowAfter_app (host : Host) (file : Z) (l1 l2 : list Routers.Pending)
  (row : Schema.PdfIndexRow) :
  rowAfter host file (l1 ++ l2) row = rowAfter host file l2 (rowAfter host file l1 row).
Proof. unfold rowAfter. apply fold_left_app. Qed.

(** Progress writes set the status and the progress and no other column:
    after some of them the row has status [INDEXING] and the progress of
    the last one. *)
Lemma rowAfter_progress (host : Host) (file : Z) (ps : list Z)
  (row : Schema.PdfIndexRow) :
  rowAfter host file (map Routers.Progress ps) row
  = match last ps with
    | None => row
    | Some p =>
        {| Schema.status := Schema.INDEXING;
           Schema.chunkCount := Schema.chunkCount row;
           Schema.checksum := Schema.checksum row;
           Schema.indexPath := Schema.indexPath row;
           Schema.errorMessage := Schema.errorMessage row;
           Schema.progress := Some p;
           Schema.indexedAt := Schema.indexedAt row |}
    end.
Proof.
  induction ps as [|p ps IH] using rev_ind; [reflexivity|].
  rewrite map_app, rowAfter_app, IH, last_snoc. cbn.
  destruct (last ps); reflexivity.
Qed.

(** The writes of the task, when the row of the file is there: those of
    the progress callbacks started, in some order, with the write of the
    outcome somewhere among them. *)
Lemma backgroundWrites_withRow (host : Host) (file : Z) (localPath : jsstring)
  (schedule : list nat) (tables : Schema.Tables) (row : Schema.PdfIndexRow)
  (disk disk' : Disk) (result : IndexResult) (started : list Z) :
  Routers.backgroundBuild host file localPath
    {| Routers.database := Some (withRow tables file row); Routers.disk := disk |}
  = (result, disk', started) ->
  exists before after,
    before ++ after ≡ₚ started
    /\ Routers.backgroundWrites host file localPath schedule
         {| Routers.database := Some (withRow tables file row); Routers.disk := disk |}
       = (map Routers.Progress before ++ Routers.Outcome result
            :: map Routers.Progress after,
          Some (withRow tables file
                  (rowAfter host file
                     (map Routers.Progress before ++ Routers.Outcome result
                        :: map Routers.Progress after) row))).
Proof.
  intros Hbuild. unfold Routers.backgroundWrites, Routers.startedWrites.
  rewrite Hbuild. cbn [Routers.database].
  set (pending := map Routers.Progress started ++ [Routers.Outcome result]).
  destruct (landWrites_withRow host file (S (length pending)) schedule pending
              tables row) as (landed & Hperm & ->); [lia|].
  assert (Hin : Routers.Outcome result ∈ landed).
  { rewrite Hperm. unfold pending. set_solver. }
  apply list_elem_of_split in Hin as (l1 & l2 & ->).
  assert (Hrest : l1 ++ l2 ≡ₚ map Routers.Progress started).
  { apply (Permutation_cons_inv (a := Routers.Outcome result)).
    rewrite Permutation_middle, Hperm. unfold pending.
    now rewrite <- Permutation_cons_append. }
  destruct (Permutation_map_inv _ _ Hrest) as (l3 & Heq & Hperm3).
  symmetry in Heq. apply fmap_app_inv in Heq as (before & after & -> & -> & ->).
  exists before, after. split; [now symmetry | reflexivity].
Qed.

(** The task of a build that throws before the index file is written: the
    disk is as it was; the [ERROR] write is done, and the message of what was
    thrown is in the row of the file in the end, whatever the order of the
    writes; the status of the row is [ERROR] when that write is the last one
    done, and [INDEXING] when a write of a progress callback is done after
    it. *)
Lemma backgroundIndexing_failure (host : Host) (file : Z) (localPath : jsstring)
  (schedule : list nat) (tables : Schema.Tables) (before : Schema.PdfIndexRow)
  (disk : Disk) (e : exn) :
  BuildThrows host disk localPath e ->
  let w1 := {| Routers.database := Some (withRow tables file before);
               Routers.disk := disk |} in
  let landed := fst (Routers.backgroundWrites host file localPath schedule w1) in
  Routers.disk (Routers.backgroundIndexing host file localPath schedule w1) = disk /\
  Routers.Outcome (failure e) ∈ landed /\
  exists row,
    Db.getIndexByFileId
      (Routers.database (Routers.backgroundIndexing host file localPath schedule w1))
      file = Some row /\
    Schema.errorMessage row = Some (exn_message e) /\
    (Schema.status row = Schema.ERROR \/ Schema.status row = Schema.INDEXING) /\
    (Schema.status row = Schema.ERROR <-> outcomeLast landed = true).
Proof.
  intros Hthrows w1 landed. subst landed.
  destruct (indexPdf_failure host file localPath Routers.onProgress disk [] e
              (fun _ => True) Hthrows I ltac:(auto)) as (started & _ & Hbuild).
  change (Routers.backgroundBuild host file localPath w1 = (failure e, disk, started))
    in Hbuild.
  unfold Routers.backgroundIndexing. rewrite Hbuild.
  destruct (backgroundWrites_withRow host file localPath schedule tables before
              disk disk (failure e) started Hbuild)
    as (ps & qs & _ & Hwrites).
  fold w1 in Hwrites. rewrite Hwrites. cbn [fst snd Routers.disk Routers.database].
  split; [reflexivity|]. split; [set_solver|].
  eexists. split; [unfold Db.getIndexByFileId; now rewrite lookup_withRow|].
  rewrite rowAfter_app. change (?x :: map Routers.Progress qs)
    with ([x] ++ map Routers.Progress qs).
  rewrite rowAfter_app, (rowAfter_progress host file qs).
  unfold outcomeLast. rewrite app_assoc.
  destruct qs as [|q qs] using rev_ind.
  - cbn [map last]. rewrite app_nil_r, last_snoc. cbn.
    split; [reflexivity|]. split; [now left|]. split; intros _; reflexivity.
  - clear IHqs. rewrite map_app, app_assoc. cbn [map]. rewrite !last_snoc. cbn.
    split; [reflexivity|]. split; [now right|]. split; intros H; discriminate H.
Qed.

(** The same for the task that a trigger has started: for every order of
    the writes, no file is written, so the index persisted before (if any) is
    the one [loadIndex] finds and [retrieveContext] answers every query as it
    did before the build; the [ERROR] write is done and the message of what
    was thrown is in the row; and the status of the row is [ERROR] exactly
    when no write of a progress callback is done after the [ERROR] write. *)
Lemma failed_build_keeps_previous_index (host : Host)
  (getLocalFilePath : jsstring -> option jsstring) (file : Z)
  (w w1 : Routers.World) (answer : result Routers.Triggered)
  (task : list nat -> Routers.World -> Routers.World)
  (pdf : Schema.PdfFile) (localPath : jsstring) (e : exn) (schedule : list nat) :
  Routers.triggerIndex host getLocalFilePath file w = (answer, w1, Some task) ->
  Db.getPdfFileById (Routers.database w) file = Some pdf ->
  getLocalFilePath (Schema.fileKey pdf) = Some localPath ->
  BuildThrows host (Routers.disk w) localPath e ->
  let w2 := task schedule w1 in
  let landed := fst (Routers.backgroundWrites host file localPath schedule w1) in
  Routers.disk w2 = Routers.disk w /\
  (forall f, loadIndex (Routers.disk w2) f = loadIndex (Routers.disk w) f) /\
  (forall config provider f query,
     retrieveContext config provider (Routers.disk w2) f query
     = retrieveContext config provider (Routers.disk w) f query) /\
  Routers.Outcome (failure e) ∈ landed /\
  exists row,
    Db.getIndexByFileId (Routers.database w2) file = Some row /\
    Schema.errorMessage row = Some (exn_message e) /\
    (Schema.status row = Schema.ERROR \/ Schema.status row = Schema.INDEXING) /\
    (Schema.status row = Schema.ERROR <-> outcomeLast landed = true).
Proof.
  intros Htrigger Hpdf Hpath Hthrows.
  destruct (triggerIndex_started _ _ _ _ _ _ _ _ _ Htrigger Hpdf Hpath)
    as (tables & Hdb & _ & -> & ->).
  pose proof (backgroundIndexing_failure host file localPath schedule tables
                (match Schema.pdfIndexes tables !! file with
                 | Some existing => Db.updatedRow (Routers.indexingAt file 0) existing
                 | None => Db.insertedRow (Routers.indexingAt file 0)
                 end)
                (Routers.disk w) e Hthrows) as (Hdisk & Hin & Hrow).
  cbv zeta. rewrite Hdisk.
  split; [reflexivity|]. split; [reflexivity|]. split; [reflexivity|].
  split; [exact Hin | exact Hrow].
Qed.

(** C3 on the sample: the document of the sample world, whose text
    extraction throws, and the task that the trigger starts. The task has
    two writes under way, that of the callback for 10 percent, which
    [indexPdf] has started and does not wait for, and the [ERROR] write.
    When the write of the callback is done after the [ERROR] write, the
    index file is the one of before and the message of what was thrown is in
    the row, but the status of the row is [INDEXING], not [ERROR]; it is
    [ERROR] when the two writes are done in the other order. *)
Theorem failed_build_status_overwritten :
  let w1 := snd (fst (Routers.triggerIndex sampleHost sampleLocalPath 7 sampleWorld)) in
  let w2 := Routers.backgroundIndexing sampleHost 7 storedPath [1%nat] w1 in
  BuildThrows sampleHost (Routers.disk sampleWorld) storedPath brokenPdf
  /\ Routers.startedWrites sampleHost 7 storedPath w1
     = [Routers.Progress 10; Routers.Outcome (failure brokenPdf)]
  /\ fst (Routers.backgroundWrites sampleHost 7 storedPath [1%nat] w1)
     = [Routers.Outcome (failure brokenPdf); Routers.Progress 10]
  /\ (exists row,
        Db.getIndexByFileId (Routers.database w2) 7 = Some row
        /\ Schema.status row = Schema.INDEXING
        /\ Schema.progress row = Some 10
        /\ Schema.errorMessage row = Some (lit "Invalid PDF structure."))
  /\ loadIndex (Routers.disk w2) 7 = Some earlierIndex
  /\ (exists row,
        Db.getIndexByFileId
          (Routers.database (Routers.backgroundIndexing sampleHost 7 storedPath [] w1))
          7 = Some row
        /\ Schema.status row = Schema.ERROR).
Proof.
  split.
  { apply (extraction_throws _ _ _ _ [37; 80; 68; 70]%N); reflexivity. }
  split; [reflexivity|]. split; [reflexivity|]. split.
  { eexists. split; [reflexivity|]. repeat split. }
  split; [reflexivity|].
  eexists. split; reflexivity.
Qed.

(** ** The similarity of a retrieved chunk *)

Lemma mapM_Forall {A B : Type} (f : A -> result B) (P : B -> Prop)
  (l : list A) (bs : list B) :
  (forall a b, f a = Ok b -> P b) -> mapM f l = Ok bs -> Forall P bs.
Proof.
  intros Hf. revert bs. induction l as [|a l IH]; intros bs; simpl.
  - intros [= <-]. constructor.
  - destruct (f a) as [b|] eqn:Hb; [|discriminate]. simpl.
    destruct (mapM f l) as [bs'|]; [|discriminate]. simpl.
    intros [= <-]. constructor; eauto.
Qed.

Lemma insertCandidate_Forall (P : RetrievedChunk -> Prop) (c : RetrievedChunk)
  (sorted : list RetrievedChunk) :
  P c -> Forall P sorted -> Forall P (insertCandidate c sorted).
Proof.
  intros Hc. induction 1 as [|d sorted Hd Hs IH]; simpl.
  - constructor; [exact Hc | constructor].
  - destruct (0 <? similarity d - similarity c)%float; constructor; auto.
Qed.

Lemma sortCandidates_Forall (P : RetrievedChunk -> Prop)
  (candidates : list RetrievedChunk) :
  Forall P candidates -> Forall P (sortCandidates candidates).
Proof.
  induction 1; simpl; [constructor | now apply insertCandidate_Forall].
Qed.

(** The loop returns chunks it was given. *)
Lemma mmrLoop_Forall (P : RetrievedChunk -> Prop) (rounds : nat) (k : Z)
  (lambda : float) (selected remaining out : list RetrievedChunk) :
  Forall P selected -> Forall P remaining ->
  mmrLoop rounds k lambda selected remaining = Ok out -> Forall P out.
Proof.
  revert selected remaining.
  induction rounds as [|rounds IH]; intros selected remaining Hsel Hrem; simpl.
  - intros [= <-]. exact Hsel.
  - destruct ((len' selected <? k) && (0 <? len' remaining)); [|intros [= <-]; exact Hsel].
    destruct selected as [|s selected].
    + destruct remaining as [|first rest]; [intros [= <-]; constructor|].
      inversion Hrem; subst. apply IH; [repeat constructor; assumption | assumption].
    + destruct (bestFrom lambda (s :: selected) remaining 0 neg_infinity 0)
        as [bestIndex|]; [|discriminate]. simpl.
      destruct (remaining !! bestIndex) as [best|] eqn:Hbest;
        [|intros [= <-]; exact Hsel].
      apply IH.
      * apply (proj2 (Forall_app P (s :: selected) [best])).
        split; [exact Hsel|]. constructor; [|constructor].
        rewrite Forall_lookup in Hrem. eauto.
      * apply Forall_app. split; [now apply Forall_take | now apply Forall_drop].
Qed.

(** [Math.min(1.0, x)] is never above 1, whatever [x] is. *)
Lemma mathMin_one_capped (x : float) : (1 <? mathMin 1 x)%float = false.
Proof.
  unfold mathMin. change (PrimFloat.is_nan 1) with false. cbn [orb].
  destruct (PrimFloat.is_nan x); [reflexivity|].
  destruct (1 <? x)%float eqn:H1; [reflexivity|].
  destruct (x <? 1)%float; [exact H1|].
  reflexivity.
Qed.

(** C6, as amended. Every chunk that [mmrSearch] returns carries the
    similarity [Math.min(1.0, base + boost)] of its cosine similarity to the
    averaged query and its priority boost; it is capped, so it never exceeds
    1.0. Nothing bounds it from below: a negative cosine similarity gives a
    negative value. *)
Theorem mmrSearch_similarity_capped (queryEmbeds : list (list float))
  (chunks : list PdfChunk) (k : Z) (lambda : float)
  (out : list RetrievedChunk) (c : RetrievedChunk) :
  mmrSearch queryEmbeds chunks k lambda = Ok out ->
  c ∈ out ->
  (1 <? similarity c)%float = false /\
  exists avgQueryEmbed baseSimilarity,
    averageEmbedding queryEmbeds = Ok avgQueryEmbed /\
    cosineSimilarity (Some avgQueryEmbed) (embedding (base c)) = Ok baseSimilarity /\
    similarity c
    = mathMin 1 (baseSimilarity + calculatePriorityBoost (base c) (len' chunks))%float.
Proof.
  intros Hsearch Hin. unfold mmrSearch in Hsearch.
  destruct chunks as [|firstChunk rest];
    [injection Hsearch as <-; inversion Hin|].
  destruct (embedding firstChunk); [|injection Hsearch as <-; inversion Hin].
  destruct (averageEmbedding queryEmbeds) as [avg|]; [|discriminate].
  cbn [bind] in Hsearch.
  set (total := len' (firstChunk :: rest)) in *.
  destruct (mapM (scoreChunk avg total) (firstChunk :: rest)) as [candidates|] eqn:Hmap;
    [|discriminate].
  cbn [bind] in Hsearch.
  set (P := fun c : RetrievedChunk =>
              exists baseSimilarity,
                cosineSimilarity (Some avg) (embedding (base c)) = Ok baseSimilarity /\
                similarity c
                = mathMin 1 (baseSimilarity + calculatePriorityBoost (base c) total)%float).
  assert (Hcands : Forall P candidates).
  { refine (mapM_Forall _ P _ _ _ Hmap). intros a b H.
    unfold scoreChunk in H.
    destruct (cosineSimilarity (Some avg) (embedding a)) as [s|] eqn:Hs;
      [|discriminate].
    injection H as <-. exists s. split; [exact Hs | reflexivity]. }
  assert (Hout : Forall P out).
  { eapply mmrLoop_Forall; [constructor | | exact Hsearch].
    now apply sortCandidates_Forall. }
  rewrite Forall_forall in Hout. destruct (Hout c Hin) as (s & Hs & Hsim).
  split.
  - rewrite Hsim. apply mathMin_one_capped.
  - exists avg, s. auto.
Qed.


(** C6, as stated, fails: for the query [[1]] a chunk with the embedding
    [[-1]] has cosine similarity -1 and boost 0.15, and is returned with a
    similarity below 0. *)
Lemma mmrSearch_negative_similarity :
  match mmrSearch [[1]%float] [oppositeChunk] 8 0.3 with
  | Ok [c] => base c = oppositeChunk /\ (similarity c <? 0)%float = true
  | _ => False
  end.
Proof. vm_compute. split; reflexivity. Qed.

Lemma mmrSearch_similarity_capped_witness :
  mmrSearch [[1]%float] [oppositeChunk] 8 0.3
  = Ok [ {| base := oppositeChunk; similarity := (-1 + 0.15 * (1 - 0 / 1))%float |} ] /\
  (1 <? -1 + 0.15 * (1 - 0 / 1))%float = false.
Proof.
  assert (H : mmrSearch [[1]%float] [oppositeChunk] 8 0.3
              = Ok [ {| base := oppositeChunk;
                        similarity := (-1 + 0.15 * (1 - 0 / 1))%float |} ]).
  { vm_compute. reflexivity. }
  split; [exact H|].
  exact (proj1 (mmrSearch_similarity_capped [[1]%float] [oppositeChunk] 8 0.3 _
                  {| base := oppositeChunk;
                     similarity := (-1 + 0.15 * (1 - 0 / 1))%float |}
                  H (list_elem_of_here _ _))).
Defined.

(** ** The guard of [mmrSearch] *)

Lemma mapM_throws {A B : Type} (f : A -> result B) (l : list A) (a : A) (e : exn) :
  a ∈ l -> f a = Throw e -> exists e', mapM f l = Throw e'.
Proof.
  induction 1 as [a l | a b l Hin IH]; intros Ha; simpl.
  - rewrite Ha. simpl. eauto.
  - destruct (f b); simpl; [|eauto].
    destruct (IH Ha) as [e' ->]. simpl. eauto.
Qed.

Lemma mapM_throws_at {A B : Type} (f : A -> result B) (pre post : list A)
  (a : A) (e : exn) :
  Forall (fun p => exists b, f p = Ok b) pre -> f a = Throw e ->
  mapM f (pre ++ a :: post) = Throw e.
Proof.
  induction 1 as [|p pre [b Hb] Hpre IH]; intros Ha; simpl.
  - now rewrite Ha.
  - rewrite Hb. simpl. now rewrite (IH Ha).
Qed.

Lemma scoreChunk_without_embedding (avgQueryEmbed : list float) (totalChunks : Z)
  (c : PdfChunk) :
  embedding c = None ->
  cosineSimilarity (Some avgQueryEmbed) (embedding c) = Throw lengthOfUndefined /\
  scoreChunk avgQueryEmbed totalChunks c = Throw lengthOfUndefined.
Proof. intros H. unfold scoreChunk. rewrite H. split; reflexivity. Qed.

Lemma scoreChunk_with_embedding (avgQueryEmbed : list float) (totalChunks : Z)
  (c : PdfChunk) (v : list float) :
  embedding c = Some v -> length v = length avgQueryEmbed ->
  exists r, scoreChunk avgQueryEmbed totalChunks c = Ok r.
Proof.
  intros H Hlen. unfold scoreChunk, cosineSimilarity. rewrite H, Hlen.
  rewrite Nat.eqb_refl. cbn [negb].
  destruct (cosineSums avgQueryEmbed v (0, 0, 0)%float) as [[d a] b].
  destruct ((PrimFloat.sqrt a =? 0)%float || (PrimFloat.sqrt b =? 0)%float);
    simpl; eauto.
Qed.

(** C10. [mmrSearch] returns the empty list whenever the chunk list is empty
    or its first chunk has no embedding, whatever [k] is and whatever the
    later chunks carry. The guard looks at the first chunk only: when that
    one has an embedding and a later one has none, nothing is returned, an
    exception is thrown; and when the chunks before the later one can be
    scored, it is the chunk without embedding that reaches
    [cosineSimilarity] under the non-null assertion, which throws the
    [TypeError] of reading [length] of [undefined]. *)
Theorem mmrSearch_guards_first_chunk_only (queryEmbeds : list (list float))
  (chunks : list PdfChunk) (k : Z) (lambda : float) :
  (chunks = [] \/ (exists c rest, chunks = c :: rest /\ embedding c = None) ->
   mmrSearch queryEmbeds chunks k lambda = Ok [])
  /\
  (forall c0 v0 pre c post,
     chunks = c0 :: pre ++ c :: post ->
     embedding c0 = Some v0 -> embedding c = None ->
     (exists e, mmrSearch queryEmbeds chunks k lambda = Throw e) /\
     (forall avgQueryEmbed,
        averageEmbedding queryEmbeds = Ok avgQueryEmbed ->
        Forall (fun p => exists v, embedding p = Some v
                                   /\ length v = length avgQueryEmbed) (c0 :: pre) ->
        cosineSimilarity (Some avgQueryEmbed) (embedding c) = Throw lengthOfUndefined /\
        mmrSearch queryEmbeds chunks k lambda = Throw lengthOfUndefined)).
Proof.
  split.
  - intros [-> | (c & rest & -> & Hnone)]; [reflexivity|].
    unfold mmrSearch. now rewrite Hnone.
  - intros c0 v0 pre c post -> Hfirst Hnone.
    unfold mmrSearch. rewrite Hfirst.
    set (total := len' (c0 :: pre ++ c :: post)).
    split.
    + destruct (averageEmbedding queryEmbeds) as [avg|e]; [|simpl; eauto].
      cbn [bind].
      destruct (mapM_throws (scoreChunk avg total) (c0 :: pre ++ c :: post) c
                  lengthOfUndefined) as [e' He'].
      * apply elem_of_cons. right. apply elem_of_app. right. apply elem_of_cons. now left.
      * now apply scoreChunk_without_embedding.
      * rewrite He'. simpl. eauto.
    + intros avg -> Hpre. cbn [bind].
      destruct (scoreChunk_without_embedding avg total c Hnone) as [Hcos Hscore].
      split; [exact Hcos|].
      change (c0 :: pre ++ c :: post) with ((c0 :: pre) ++ c :: post).
      rewrite (mapM_throws_at (scoreChunk avg total) (c0 :: pre) post c
                 lengthOfUndefined); [reflexivity | | exact Hscore].
      eapply Forall_impl; [exact Hpre|].
      intros p (v & Hv & Hlen). now apply (scoreChunk_with_embedding _ _ _ v).
Qed.

Lemma mmrSearch_guards_first_chunk_only_witness :
  mmrSearch [[1; 0]%float] (rev halfEmbedded) 8 0.3 = Ok [] /\
  mmrSearch [[1; 0]%float] halfEmbedded 8 0.3 = Throw lengthOfUndefined.
Proof.
  destruct (mmrSearch_guards_first_chunk_only [[1; 0]%float] (rev halfEmbedded) 8 0.3)
    as [Hguard _].
  destruct (mmrSearch_guards_first_chunk_only [[1; 0]%float] halfEmbedded 8 0.3)
    as [_ Hlater].
  split.
  - apply Hguard. right. eexists _, _. split; reflexivity.
  - destruct (Hlater _ [1; 0]%float [] _ [] eq_refl eq_refl eq_refl) as [_ Hthrow].
    apply (Hthrow [1; 0]%float).
    + vm_compute. reflexivity.
    + constructor; [|constructor]. exists [1; 0]%float. split; reflexivity.
Defined.

(** ** The conversation memory *)

(** What [getThreadSummary] does with the messages it loads: nothing for an
    empty thread, the transcript below 2500 tokens, and from 2500 tokens on
    the summary of all but the last ten of them followed by the last ten. *)
Lemma getThreadSummary_threshold (provider : Provider) (tables : Schema.Tables)
  (thread : jsstring) :
  let messages := Db.getThreadMessages (Some tables) thread 100 in
  let totalTokens :=
    fold_left (fun sum msg => sum + default 0 (Schema.tokenCount msg)) messages 0 in
  messages <> [] ->
  (totalTokens < 2500 ->
   Db.getThreadSummary provider (Some tables) thread = Db.transcript messages) /\
  (2500 <= totalTokens ->
   Db.getThreadSummary provider (Some tables) thread
   = lit "Previous conversation summary:" ++ nl
       ++ Db.summarizeThread provider (take (length messages - 10) messages)
       ++ nl ++ nl ++ lit "Recent messages:" ++ nl
       ++ Db.transcript (slice (-10) messages)).
Proof.
  intros messages totalTokens Hne. unfold Db.getThreadSummary.
  fold messages. fold totalTokens.
  assert (Hlen : (len' messages =? 0) = false).
  { apply Z.eqb_neq. unfold len'. destruct messages; [congruence | simpl; lia]. }
  rewrite Hlen. split; intros H.
  - apply Z.ltb_lt in H. now rewrite H.
  - apply Z.ltb_ge in H. now rewrite H.
Qed.

(** The messages it loads are the first hundred in the order of creation. *)
Lemma getThreadMessages_oldest_first (tables : Schema.Tables) (thread : jsstring) :
  Db.getThreadMessages (Some tables) thread 100
  = take 100 (Db.orderByCreatedAt
                (filter (fun m => Schema.threadId m = thread)
                   (Schema.pdfMessages tables))).
Proof. reflexivity. Qed.

Lemma insertByCreatedAt_length (m : Schema.PdfMessage) (sorted : list Schema.PdfMessage) :
  length (Db.insertByCreatedAt m sorted) = S (length sorted).
Proof.
  induction sorted as [|m' sorted IH]; [reflexivity|].
  cbn [Db.insertByCreatedAt].
  destruct (Schema.createdAt m' <? Schema.createdAt m); cbn [length]; congruence.
Qed.

Lemma orderByCreatedAt_length (rows : list Schema.PdfMessage) :
  length (Db.orderByCreatedAt rows) = length rows.
Proof.
  induction rows as [|m rows IH]; [reflexivity|].
  unfold Db.orderByCreatedAt in *. cbn [fold_right].
  now rewrite insertByCreatedAt_length, IH.
Qed.

(** On a thread of at most a hundred messages the first hundred are all of
    them, and so the last hundred as well. *)
Lemma getThreadMessages_short_thread (tables : Schema.Tables) (thread : jsstring) :
  let ordered :=
    Db.orderByCreatedAt
      (filter (fun m => Schema.threadId m = thread) (Schema.pdfMessages tables)) in
  (length ordered <= 100)%nat ->
  Db.getThreadMessages (Some tables) thread 100 = ordered
  /\ slice (-100) ordered = ordered.
Proof.
  intros ordered Hlen. split.
  - rewrite getThreadMessages_oldest_first. fold ordered. now apply take_ge.
  - unfold slice. change (-100 <? 0) with true. cbn match.
    replace (Z.to_nat (Z.max (Z.of_nat (length ordered) + -100) 0)) with 0%nat by lia.
    apply drop_0.
Qed.

(** C9 on a thread of 101 short messages: the memory is the transcript of
    the oldest hundred, so the newest message is missing from it; the
    transcript of the last hundred is another text. *)
Lemma getThreadSummary_reads_oldest_hundred :
  Db.getThreadSummary sampleProvider (Some longThreadTables) (lit "thread-1")
  = Db.transcript (take 100 longThread) /\
  Db.transcript (take 100 longThread) <> Db.transcript (slice (-100) longThread) /\
  List.last longThread
    {| Schema.threadId := []; Schema.role := Schema.user; Schema.content := [];
       Schema.tokenCount := None; Schema.citations := None; Schema.createdAt := 0 |}
  ∉ take 100 longThread.
Proof.
  split; [vm_compute; reflexivity|]. split.
  - vm_compute. discriminate.
  - intros Hin. apply list_elem_of_In in Hin. vm_compute in Hin.
    repeat (destruct Hin as [Hin|Hin]; [discriminate|]). exact Hin.
Qed.

(** ** Facts about binary64 numbers

    What the ranking needs of IEEE 754 arithmetic, from the specification of
    the primitive operations ([Prim2SF] and the [_spec] axioms of the
    Standard Library): the sign of a difference, the product with one, the
    difference with a zero, and the order of the numbers that are not NaN. *)

Module Binary64Facts.
Import Binary64.

Lemma digits2_pos_bounds (m : positive) :
  2 ^ (Zpos (digits2_pos m) - 1) <= Zpos m < 2 ^ Zpos (digits2_pos m).
Proof.
  induction m as [m IH | m IH |]; cbn [digits2_pos].
  - rewrite Pos2Z.inj_succ, Z.pow_succ_r by lia.
    replace (Z.succ (Zpos (digits2_pos m)) - 1) with (Z.succ (Zpos (digits2_pos m) - 1)) by lia.
    rewrite Z.pow_succ_r by lia. lia.
  - rewrite Pos2Z.inj_succ, Z.pow_succ_r by lia.
    replace (Z.succ (Zpos (digits2_pos m)) - 1) with (Z.succ (Zpos (digits2_pos m) - 1)) by lia.
    rewrite Z.pow_succ_r by lia. lia.
  - simpl. lia.
Qed.

Lemma valid_finite (s : bool) (m : positive) (e : Z) :
  valid_binary (S754_finite s m e) = true ->
  -1074 <= e /\ e <= 971 /\ Zpos (digits2_pos m) <= 53 /\
  (-1074 < e -> Zpos (digits2_pos m) = 53).
Proof.
  unfold SpecFloat.valid_binary, bounded, canonical_mantissa, fexp, SpecFloat.emin, prec, emax.
  intros H. apply andb_prop in H as [H1 H2].
  apply Z.eqb_eq in H1. apply Z.leb_le in H2. lia.
Qed.

Lemma iter_xO_value (m d : positive) :
  Zpos (Pos.iter xO m d) = Zpos m * 2 ^ Zpos d.
Proof.
  induction d as [|d IH] using Pos.peano_ind.
  - simpl. lia.
  - rewrite Pos.iter_succ, Pos2Z.inj_succ, Z.pow_succ_r by lia.
    rewrite Pos2Z.inj_xO, IH. lia.
Qed.

Lemma shl_align_value (m : positive) (e ez : Z) :
  ez <= e -> Zpos (fst (shl_align m e ez)) = Zpos m * 2 ^ (e - ez).
Proof.
  intros H. unfold shl_align.
  destruct (ez - e) as [|d|d] eqn:Hd; cbn [fst].
  - replace (e - ez) with 0 by lia. simpl. lia.
  - lia.
  - rewrite iter_xO_value. f_equal. f_equal. lia.
Qed.

Lemma shl_align_exp (m : positive) (e ez : Z) :
  snd (shl_align m e ez) = Z.min e ez.
Proof.
  unfold shl_align. destruct (ez - e) eqn:Hd; cbn [snd]; lia.
Qed.

(** The comparison of two valid finite numbers is the comparison of their
    signed mantissas once aligned on the smaller exponent. *)
Lemma SFcompare_aligned (sx : bool) (mx : positive) (ex : Z)
  (sy : bool) (my : positive) (ey : Z) :
  valid_binary (S754_finite sx mx ex) = true ->
  valid_binary (S754_finite sy my ey) = true ->
  SFcompare (S754_finite sx mx ex) (S754_finite sy my ey)
  = Some (cond_Zopp sx (Zpos (fst (shl_align mx ex (Z.min ex ey))))
          ?= cond_Zopp sy (Zpos (fst (shl_align my ey (Z.min ex ey))))).
Proof.
  intros Hx Hy.
  apply valid_finite in Hx as (Hx1 & Hx2 & Hx3 & Hx4).
  apply valid_finite in Hy as (Hy1 & Hy2 & Hy3 & Hy4).
  rewrite !shl_align_value by lia.
  pose proof (digits2_pos_bounds mx) as Bx. pose proof (digits2_pos_bounds my) as By.
  assert (P53 : forall d, Zpos d <= 53 -> 2 ^ Zpos d <= 2 ^ 53).
  { intros d Hd. apply Z.pow_le_mono_r; lia. }
  assert (Hbig : forall m k, Zpos (digits2_pos m) = 53 -> 1 <= k ->
                   2 ^ 53 <= Zpos m * 2 ^ k).
  { intros m k Hm Hk. pose proof (digits2_pos_bounds m) as B. rewrite Hm in B.
    change (53 - 1) with 52 in B.
    assert (2 ^ 1 <= 2 ^ k) by (apply Z.pow_le_mono_r; lia).
    change (2 ^ 1) with 2 in *. change (2 ^ 53) with (2 ^ 52 * 2).
    apply Z.mul_le_mono_nonneg; lia. }
  assert (Hsmall : forall m, Zpos (digits2_pos m) <= 53 -> Zpos m < 2 ^ 53).
  { intros m Hm. pose proof (digits2_pos_bounds m) as B. specialize (P53 _ Hm). lia. }
  cbn [SFcompare].
  destruct (Z.compare_spec ex ey) as [Heq | Hlt | Hgt].
  - subst ey. rewrite Z.min_id, Z.sub_diag. change (2 ^ 0) with 1. rewrite !Z.mul_1_r.
    change (Pos.compare_cont Eq mx my) with (mx ?= my)%positive.
    rewrite Pos2Z.inj_compare.
    destruct sx, sy; cbn [cond_Zopp]; reflexivity.
  - rewrite Z.min_l by lia. rewrite Z.sub_diag. change (2 ^ 0) with 1. rewrite Z.mul_1_r.
    specialize (Hbig my (ey - ex) (Hy4 ltac:(lia)) ltac:(lia)).
    specialize (Hsmall mx Hx3).
    destruct sx, sy; cbn [cond_Zopp]; f_equal; symmetry;
      first [apply Z.compare_lt_iff; lia | apply Z.compare_gt_iff; lia].
  - rewrite Z.min_r by lia. rewrite Z.sub_diag. change (2 ^ 0) with 1. rewrite Z.mul_1_r.
    specialize (Hbig mx (ex - ey) (Hx4 ltac:(lia)) ltac:(lia)).
    specialize (Hsmall my Hy3).
    destruct sx, sy; cbn [cond_Zopp]; f_equal; symmetry;
      first [apply Z.compare_lt_iff; lia | apply Z.compare_gt_iff; lia].
Qed.

(** *** Rounding keeps the sign and never reaches zero *)

Lemma shr_1_m (mrs : shr_record) :
  0 <= shr_m mrs -> shr_m (shr_1 mrs) = shr_m mrs / 2.
Proof.
  destruct mrs as [m r s]. cbn [shr_m]. intros Hm. unfold shr_1.
  destruct m as [|[p|p|]|p]; cbn [shr_m]; try lia;
    first [ reflexivity
          | apply (Z.div_unique _ 2 _ 1); lia
          | apply (Z.div_unique _ 2 _ 0); lia ].
Qed.

Lemma shr_1_nonneg (mrs : shr_record) : 0 <= shr_m mrs -> 0 <= shr_m (shr_1 mrs).
Proof. intros H. rewrite shr_1_m by exact H. apply Z.div_pos; lia. Qed.

Lemma pow2_xO (n : positive) : 2 ^ Zpos n~0 = 2 ^ Zpos n * 2 ^ Zpos n.
Proof.
  replace (Zpos n~0) with (Zpos n + Zpos n) by lia.
  now rewrite Z.pow_add_r by lia.
Qed.

Lemma pow2_xI (n : positive) : 2 ^ Zpos n~1 = 2 * (2 ^ Zpos n * 2 ^ Zpos n).
Proof.
  replace (Zpos n~1) with (1 + (Zpos n + Zpos n)) by lia.
  now rewrite !Z.pow_add_r by lia.
Qed.

Lemma iter_shr_1_m (n : positive) :
  forall mrs, 0 <= shr_m mrs ->
    shr_m (SpecFloat.iter_pos shr_1 n mrs) = shr_m mrs / 2 ^ Zpos n.
Proof.
  induction n as [n IH | n IH |]; intros mrs Hm; cbn [SpecFloat.iter_pos].
  - assert (H1 : 0 <= shr_m (shr_1 mrs)) by now apply shr_1_nonneg.
    assert (H2 : 0 <= shr_m (SpecFloat.iter_pos shr_1 n (shr_1 mrs))).
    { rewrite IH by exact H1. apply Z.div_pos; lia. }
    rewrite IH by exact H2. rewrite IH by exact H1. rewrite shr_1_m by exact Hm.
    rewrite !Z.div_div by lia. now rewrite pow2_xI.
  - assert (H2 : 0 <= shr_m (SpecFloat.iter_pos shr_1 n mrs)).
    { rewrite IH by exact Hm. apply Z.div_pos; lia. }
    rewrite IH by exact H2. rewrite IH by exact Hm.
    rewrite !Z.div_div by lia. now rewrite pow2_xO.
  - rewrite shr_1_m by exact Hm. reflexivity.
Qed.

Lemma shr_record_of_loc_m (m : Z) (l : location) : shr_m (shr_record_of_loc m l) = m.
Proof. destruct l as [|[]]; reflexivity. Qed.

Lemma shr_fexp_positive (m : positive) (e : Z) (l : location) :
  -1074 <= e ->
  0 < shr_m (fst (shr_fexp prec emax (Zpos m) e l)) /\
  -1074 <= snd (shr_fexp prec emax (Zpos m) e l).
Proof.
  intros He. unfold shr_fexp, shr. cbn [Zdigits2].
  pose proof (digits2_pos_bounds m) as B.
  set (d := Zpos (digits2_pos m)) in *.
  destruct (fexp prec emax (d + e) - e) as [|n|n] eqn:Hn; cbn [fst snd].
  - rewrite shr_record_of_loc_m. lia.
  - rewrite iter_shr_1_m by (rewrite shr_record_of_loc_m; lia).
    rewrite shr_record_of_loc_m.
    unfold fexp, SpecFloat.emin, prec, emax in Hn.
    assert (Hnd : Zpos n = d - 53) by lia.
    split; [|lia].
    apply Z.div_str_pos. split; [lia|].
    apply Z.le_trans with (2 ^ (d - 1)); [|lia].
    apply Z.pow_le_mono_r; lia.
  - rewrite shr_record_of_loc_m. lia.
Qed.

Lemma round_nearest_even_positive (m : Z) (l : location) :
  0 < m -> 0 < round_nearest_even m l.
Proof.
  intros Hm. unfold round_nearest_even.
  destruct l as [|[]]; try lia. destruct (Z.even m); lia.
Qed.


Lemma binary_round_aux_signed (s : bool) (m : positive) (e : Z) (l : location) :
  -1074 <= e -> signed s (binary_round_aux prec emax s (Zpos m) e l).
Proof.
  intros He. unfold binary_round_aux.
  destruct (shr_fexp_positive m e l He) as [H1 H2].
  destruct (shr_fexp prec emax (Zpos m) e l) as [mrs' e'] eqn:E1. cbn [fst snd] in H1, H2.
  pose proof (round_nearest_even_positive (shr_m mrs') (loc_of_shr_record mrs') H1) as Hr.
  destruct (round_nearest_even (shr_m mrs') (loc_of_shr_record mrs')) as [|m1|m1] eqn:Er;
    try lia.
  destruct (shr_fexp_positive m1 e' loc_Exact H2) as [H3 H4].
  destruct (shr_fexp prec emax (Zpos m1) e' loc_Exact) as [mrs'' e''] eqn:E2.
  cbn [fst snd] in H3, H4.
  destruct (shr_m mrs'') as [|m2|m2]; try lia.
  destruct (e'' <=? emax - prec); [left; eauto | right; reflexivity].
Qed.

Lemma binary_round_signed (s : bool) (m : positive) (e : Z) :
  -1074 <= e -> signed s (binary_round prec emax s m e).
Proof.
  intros He. unfold binary_round.
  destruct (shl_align m e (fexp prec emax (Zpos (digits2_pos m) + e))) as [mz ez] eqn:E.
  apply binary_round_aux_signed.
  pose proof (shl_align_exp m e (fexp prec emax (Zpos (digits2_pos m) + e))) as Hs.
  rewrite E in Hs. cbn [snd] in Hs.
  unfold fexp, SpecFloat.emin, prec, emax in Hs. lia.
Qed.

Lemma SFltb_zero_signed (s0 s : bool) (r : spec_float) :
  signed s r -> SFltb (S754_zero s0) r = negb s.
Proof. intros [(m & e & ->) | ->]; destruct s; reflexivity. Qed.

(** *** The sign of a difference *)

Lemma SFsub_sign (x y : spec_float) :
  valid_binary x = true -> valid_binary y = true ->
  x <> S754_nan -> y <> S754_nan ->
  SFltb (S754_zero false) (SF64sub y x) = SFltb x y.
Proof.
  intros Vx Vy Nx Ny.
  destruct x as [sx|sx| |sx mx ex], y as [sy|sy| |sy my ey]; try congruence;
    try (destruct sx, sy; reflexivity); try (destruct sx; reflexivity);
    try (destruct sy; reflexivity).
  unfold SF64sub, SFsub, SFltb.
  rewrite (SFcompare_aligned sx mx ex sy my ey Vx Vy).
  rewrite (Z.min_comm ey ex).
  set (X := cond_Zopp sx (Zpos (fst (shl_align mx ex (Z.min ex ey))))).
  set (Y := cond_Zopp sy (Zpos (fst (shl_align my ey (Z.min ex ey))))).
  apply valid_finite in Vx as (Hx1 & _). apply valid_finite in Vy as (Hy1 & _).
  assert (Hez : -1074 <= Z.min ex ey) by lia.
  clearbody X Y. unfold binary_normalize.
  destruct (Y - X) as [|p|p] eqn:HD.
  - assert (X = Y) by lia. subst Y. rewrite Z.compare_refl. reflexivity.
  - fold (SFltb (S754_zero false) (binary_round prec emax false p (Z.min ex ey))).
    rewrite (SFltb_zero_signed _ false) by now apply binary_round_signed.
    assert (H : (X ?= Y) = Lt) by (apply Z.compare_lt_iff; lia). now rewrite H.
  - fold (SFltb (S754_zero false) (binary_round prec emax true p (Z.min ex ey))).
    rewrite (SFltb_zero_signed _ true) by now apply binary_round_signed.
    assert (H : (X ?= Y) = Gt) by (apply Z.compare_gt_iff; lia). now rewrite H.
Qed.

Lemma Prim2SF_not_nan (x : float) : is_nan x = false -> Prim2SF x <> S754_nan.
Proof.
  intros H. unfold Prim2SF. rewrite H.
  destruct (is_zero x); [discriminate|].
  destruct (is_infinity x); [discriminate|].
  destruct (Z.frexp x) as [r exp].
  destruct (shr_fexp _ _ _ _ _) as [shr e'].
  destruct (shr_m shr); discriminate.
Qed.

Lemma Prim2SF_nan_is_nan (x : float) : Prim2SF x <> S754_nan -> is_nan x = false.
Proof.
  intros H. destruct (is_nan x) eqn:E; [|reflexivity].
  exfalso. apply H. unfold Prim2SF. now rewrite E.
Qed.

(** For numbers that are not NaN, the comparison [b - a > 0] of the sort is
    [a < b]. *)
Theorem sub_sign (x y : float) :
  is_nan x = false -> is_nan y = false ->
  (0 <? y - x)%float = (x <? y)%float.
Proof.
  intros Hx Hy. rewrite !FloatAxioms.ltb_spec, FloatAxioms.sub_spec.
  change (Prim2SF 0) with (S754_zero false).
  apply SFsub_sign; auto using Prim2SF_valid, Prim2SF_not_nan.
Qed.

(** *** Multiplying by one *)

Lemma canonical_fexp (s : bool) (m : positive) (e : Z) :
  valid_binary (S754_finite s m e) = true ->
  fexp prec emax (Zpos (digits2_pos m) + e) = e /\ (e <=? emax - prec) = true.
Proof.
  unfold SpecFloat.valid_binary, bounded, canonical_mantissa.
  intros H. apply andb_prop in H as [H1 H2]. apply Z.eqb_eq in H1. auto.
Qed.

Lemma digits2_pos_shift52 (m : positive) :
  Zpos (digits2_pos (4503599627370496 * m)) = Zpos (digits2_pos m) + 52.
Proof.
  lazy beta iota delta [Pos.mul]. cbn [digits2_pos].
  rewrite !Pos2Z.inj_succ. lia.
Qed.

Lemma SFmul_one_finite (s : bool) (m : positive) (e : Z) :
  valid_binary (S754_finite s m e) = true ->
  SF64mul (S754_finite false 4503599627370496 (-52)) (S754_finite s m e)
  = S754_finite s m e.
Proof.
  intros V. destruct (canonical_fexp s m e V) as [Hfexp Hbound].
  unfold SF64mul, SFmul, binary_round_aux, shr_fexp.
  cbn [xorb Zdigits2]. rewrite digits2_pos_shift52.
  replace (Zpos (digits2_pos m) + 52 + (-52 + e))
    with (Zpos (digits2_pos m) + e) by lia.
  rewrite Hfexp. replace (e - (-52 + e)) with 52 by lia.
  lazy beta iota delta [Pos.mul].
  cbn [shr shr_record_of_loc SpecFloat.iter_pos shr_1 orb shr_m loc_of_shr_record
       round_nearest_even Zdigits2].
  replace (-52 + e + 52) with e by lia.
  rewrite Hfexp, Z.sub_diag. cbn [shr shr_m]. rewrite Hbound. reflexivity.
Qed.

Theorem mul_one_l (x : float) : (1 * x)%float = x.
Proof.
  apply Prim2SF_inj. rewrite FloatAxioms.mul_spec.
  change (Prim2SF 1) with (S754_finite false 4503599627370496 (-52)).
  pose proof (Prim2SF_valid x) as V.
  destruct (Prim2SF x) as [s|s| |s m e]; try reflexivity.
  now apply SFmul_one_finite.
Qed.

(** *** Equal up to the sign of zero *)


Lemma SFcompare_same (a a' b b' : spec_float) :
  SFsame a a' -> SFsame b b' -> SFcompare a b = SFcompare a' b'.
Proof.
  intros [-> | (s & t & -> & ->)] [-> | (s' & t' & -> & ->)]; try reflexivity;
    match goal with |- context [SFcompare ?u _] => destruct u; reflexivity end.
Qed.


Lemma ltb_same (a a' b b' : float) :
  same a a' -> same b b' -> (a <? b)%float = (a' <? b')%float.
Proof.
  intros Ha Hb. rewrite !FloatAxioms.ltb_spec. unfold SFltb.
  now rewrite (SFcompare_same _ _ _ _ Ha Hb).
Qed.

Lemma is_nan_same (a a' : float) : same a a' -> is_nan a = is_nan a'.
Proof.
  intros H. unfold is_nan. rewrite !FloatAxioms.eqb_spec. unfold SFeqb.
  now rewrite (SFcompare_same _ _ _ _ H H).
Qed.

Lemma Prim2SF_finite (m : float) :
  is_finite m = true ->
  (exists s, Prim2SF m = S754_zero s) \/ (exists s p e, Prim2SF m = S754_finite s p e).
Proof.
  unfold is_finite. intros H. apply negb_true_iff, orb_false_iff in H as [Hn Hi].
  unfold Prim2SF. rewrite Hn, Hi.
  destruct (is_zero m); [left; eauto|].
  destruct (Z.frexp m) as [r exp].
  destruct (shr_fexp _ _ _ _ _) as [shr e'].
  destruct (shr_m shr); [left | right | left]; eauto.
Qed.

(** [x - 0 * m] cannot be told apart from [x] when [m] is finite. *)
Lemma sub_zero_mul_same (x m : float) :
  is_finite m = true -> same (x - 0 * m)%float x.
Proof.
  intros Hm. unfold same. rewrite FloatAxioms.sub_spec, FloatAxioms.mul_spec.
  change (Prim2SF 0) with (S754_zero false).
  destruct (Prim2SF_finite m Hm) as [[s ->] | (s & p & e & ->)]; cbn [SF64mul SFmul].
  - destruct (Prim2SF x) as [sx|sx| |sx mx ex]; cbn [SF64sub SFsub];
      [right | left | left | left]; try reflexivity.
    destruct sx, s; cbn [xorb]; eauto.
  - destruct (Prim2SF x) as [sx|sx| |sx mx ex]; cbn [SF64sub SFsub];
      [right | left | left | left]; try reflexivity.
    destruct sx, s; cbn [xorb]; eauto.
Qed.

(** *** The order of the numbers that are not NaN *)





Lemma SFltb_lt (x y : spec_float) :
  x <> S754_nan -> y <> S754_nan -> (SFltb x y = true <-> SFlt x y).
Proof.
  intros Hx Hy. unfold SFltb, SFlt.
  destruct x as [sx|sx| |sx mx ex], y as [sy|sy| |sy my ey]; try congruence;
    cbn [SFcompare rank scale digits];
    try change (Pos.compare_cont Eq mx my) with (mx ?= my)%positive;
    try destruct sx; try destruct sy;
    try destruct (Z.compare_spec ex ey); try destruct (Pos.compare_spec mx my);
    cbn [CompOpp]; split; intros Hlt;
    first [discriminate | reflexivity | lia | exfalso; lia].
Qed.


Lemma ltb_lt (x y : float) :
  is_nan x = false -> is_nan y = false -> ((x <? y)%float = true <-> lt x y).
Proof.
  intros Hx Hy. rewrite FloatAxioms.ltb_spec. apply SFltb_lt; now apply Prim2SF_not_nan.
Qed.

Lemma ltb_nan_l (x y : float) : is_nan x = true -> (x <? y)%float = false.
Proof.
  intros H. rewrite FloatAxioms.ltb_spec. unfold Prim2SF at 1. rewrite H. reflexivity.
Qed.

Lemma ltb_nan_r (x y : float) : is_nan y = true -> (x <? y)%float = false.
Proof.
  intros H. rewrite FloatAxioms.ltb_spec. unfold Prim2SF at 2. rewrite H.
  unfold SFltb. destruct (Prim2SF x); reflexivity.
Qed.

(** [a >= b] and [b >= c] give [a >= c], as far as [<] can see, when [b] is
    not NaN. *)
Lemma not_ltb_trans (a b c : float) :
  is_nan b = false ->
  (a <? b)%float = false -> (b <? c)%float = false -> (a <? c)%float = false.
Proof.
  intros Hb Hab Hbc.
  destruct (is_nan a) eqn:Ha; [now apply ltb_nan_l|].
  destruct (is_nan c) eqn:Hc; [now apply ltb_nan_r|].
  apply not_true_is_false. intros Hac.
  apply (ltb_lt a c Ha Hc) in Hac.
  assert (Hab' : ~ lt a b) by (rewrite <- (ltb_lt a b Ha Hb); congruence).
  assert (Hbc' : ~ lt b c) by (rewrite <- (ltb_lt b c Hb Hc); congruence).
  unfold lt, SFlt in *. lia.
Qed.

Lemma ltb_asym (a b : float) : (a <? b)%float = true -> (b <? a)%float = false.
Proof.
  intros Hab.
  destruct (is_nan a) eqn:Ha; [now apply ltb_nan_r|].
  destruct (is_nan b) eqn:Hb; [now apply ltb_nan_l|].
  apply not_true_is_false. intros Hba.
  apply (ltb_lt a b Ha Hb) in Hab. apply (ltb_lt b a Hb Ha) in Hba.
  unfold lt, SFlt in *. lia.
Qed.

End Binary64Facts.

(** ** Ranking at [lambda = 1] *)


Lemma insertBySimilarity_Forall (P : RetrievedChunk -> Prop) (c : RetrievedChunk)
  (sorted : list RetrievedChunk) :
  P c -> Forall P sorted -> Forall P (insertBySimilarity c sorted).
Proof.
  intros Hc. induction 1 as [|d sorted Hd Hs IH]; simpl.
  - constructor; [exact Hc | constructor].
  - destruct (similarity c <? similarity d)%float; constructor; auto.
Qed.

Lemma sortBySimilarity_Forall (P : RetrievedChunk -> Prop)
  (candidates : list RetrievedChunk) :
  Forall P candidates -> Forall P (sortBySimilarity candidates).
Proof.
  induction 1; simpl; [constructor | now apply insertBySimilarity_Forall].
Qed.

(** On similarities that are not NaN the comparison function of the source,
    [b.similarity - a.similarity], sorts as [<] does. *)
Lemma insertCandidate_by_similarity (c : RetrievedChunk) (sorted : list RetrievedChunk) :
  PrimFloat.is_nan (similarity c) = false ->
  Forall (fun d => PrimFloat.is_nan (similarity d) = false) sorted ->
  insertCandidate c sorted = insertBySimilarity c sorted.
Proof.
  intros Hc. induction 1 as [|d sorted Hd Hs IH]; simpl; [reflexivity|].
  rewrite (Binary64Facts.sub_sign _ _ Hc Hd), IH. reflexivity.
Qed.

Lemma sortCandidates_by_similarity (candidates : list RetrievedChunk) :
  Forall (fun d => PrimFloat.is_nan (similarity d) = false) candidates ->
  sortCandidates candidates = sortBySimilarity candidates.
Proof.
  induction 1 as [|c candidates Hc Hs IH]; simpl; [reflexivity|].
  rewrite IH. apply insertCandidate_by_similarity; [exact Hc|].
  now apply sortBySimilarity_Forall.
Qed.

Lemma insertBySimilarity_sorted (c : RetrievedChunk) (sorted : list RetrievedChunk) :
  PrimFloat.is_nan (similarity c) = false ->
  Forall (fun d => PrimFloat.is_nan (similarity d) = false) sorted ->
  StronglySorted notBelow sorted ->
  StronglySorted notBelow (insertBySimilarity c sorted).
Proof.
  intros Hc Hnan Hsorted.
  induction Hsorted as [|d sorted Hs IH Hd]; simpl.
  - repeat constructor.
  - inversion Hnan as [|? ? Hdn Hnan']; subst.
    destruct (similarity c <? similarity d)%float eqn:Hcd.
    + constructor; [now apply IH|].
      apply insertBySimilarity_Forall; [|exact Hd].
      now apply Binary64Facts.ltb_asym.
    + constructor; [now constructor|].
      constructor; [exact Hcd|].
      eapply Forall_impl; [exact Hd|]. intros x Hx.
      exact (Binary64Facts.not_ltb_trans _ _ _ Hdn Hcd Hx).
Qed.

Lemma sortBySimilarity_sorted (candidates : list RetrievedChunk) :
  Forall (fun d => PrimFloat.is_nan (similarity d) = false) candidates ->
  StronglySorted notBelow (sortBySimilarity candidates).
Proof.
  induction 1 as [|c candidates Hc Hs IH]; simpl; [constructor|].
  apply insertBySimilarity_sorted; [exact Hc | | exact IH].
  now apply sortBySimilarity_Forall.
Qed.

Lemma mathMax_finite (a b : float) :
  PrimFloat.is_finite a = true -> PrimFloat.is_finite b = true ->
  PrimFloat.is_finite (mathMax a b) = true.
Proof.
  intros Ha Hb. unfold mathMax.
  assert (Hna : PrimFloat.is_nan a = false).
  { unfold PrimFloat.is_finite in Ha. now destruct (PrimFloat.is_nan a). }
  assert (Hnb : PrimFloat.is_nan b = false).
  { unfold PrimFloat.is_finite in Hb. now destruct (PrimFloat.is_nan b). }
  rewrite Hna, Hnb. cbn [orb].
  destruct (a <? b)%float; [exact Hb|].
  destruct (b <? a)%float; [exact Ha|].
  destruct (PrimFloat.is_zero a && PrimFloat.get_sign a); assumption.
Qed.

Section RelevanceOnly.

(** The chunks in play: none has a NaN similarity, and the cosine
    similarity of any two of them is computed and finite. *)
Variable inPlay : RetrievedChunk -> Prop.
Hypothesis inPlay_similarity :
  forall c, inPlay c -> PrimFloat.is_nan (similarity c) = false.
Hypothesis inPlay_cosine :
  forall c d, inPlay c -> inPlay d ->
    exists s, cosineSimilarity (embedding (base c)) (embedding (base d)) = Ok s
              /\ PrimFloat.is_finite s = true.

Lemma maxSimilarityTo_finite (c : RetrievedChunk) (selected : list RetrievedChunk)
  (maxSimilarity : float) :
  inPlay c -> Forall inPlay selected -> PrimFloat.is_finite maxSimilarity = true ->
  exists m, maxSimilarityTo c selected maxSimilarity = Ok m
            /\ PrimFloat.is_finite m = true.
Proof using inPlay_cosine.
  intros Hc Hsel. revert maxSimilarity.
  induction Hsel as [|d selected Hd Hsel IH]; intros maxSimilarity Hm; simpl.
  - eauto.
  - destruct (inPlay_cosine c d Hc Hd) as (s & -> & Hs). cbn [bind].
    apply IH. now apply mathMax_finite.
Qed.

(** At [lambda = 1] the score of a candidate compares as its similarity. *)
Lemma score_same (relevance maxSimilarity : float) :
  PrimFloat.is_finite maxSimilarity = true ->
  Binary64.same (1 * relevance - (1 - 1) * maxSimilarity)%float relevance.
Proof.
  intros Hm. change (1 - 1)%float with 0%float. rewrite Binary64Facts.mul_one_l.
  now apply Binary64Facts.sub_zero_mul_same.
Qed.

Lemma same_refl (a : float) : Binary64.same a a.
Proof. left. reflexivity. Qed.

(** No candidate whose similarity is not above the best score so far
    replaces the best index. *)
Lemma bestFrom_stays (selected remaining : list RetrievedChunk) (i : nat)
  (bestScore : float) (bestIndex : nat) :
  Forall inPlay selected -> Forall inPlay remaining ->
  Forall (fun d => (bestScore <? similarity d)%float = false) remaining ->
  bestFrom 1 selected remaining i bestScore bestIndex = Ok bestIndex.
Proof using inPlay_cosine.
  intros Hsel Hrem. revert i.
  induction Hrem as [|d remaining Hd Hrem IH]; intros i Hbest; cbn [bestFrom];
    [reflexivity|].
  inversion Hbest as [|? ? Hbd Hbest']; subst.
  destruct (maxSimilarityTo_finite d selected 0 Hd Hsel eq_refl) as (m & -> & Hm).
  cbn [bind].
  rewrite (Binary64Facts.ltb_same bestScore bestScore _ (similarity d)
             (same_refl _) (score_same _ _ Hm)), Hbd.
  now apply IH.
Qed.

(** In a list sorted by similarity the first candidate is the best. *)
Lemma bestFrom_sorted (selected remaining : list RetrievedChunk) :
  Forall inPlay selected -> Forall inPlay remaining ->
  StronglySorted notBelow remaining ->
  bestFrom 1 selected remaining 0 neg_infinity 0 = Ok 0%nat.
Proof using inPlay_cosine inPlay_similarity.
  intros Hsel Hrem Hsorted.
  destruct Hsorted as [|c rest Hsorted Hc]; [reflexivity|].
  inversion Hrem as [|? ? Hcp Hrest]; subst. cbn [bestFrom].
  destruct (maxSimilarityTo_finite c selected 0 Hcp Hsel eq_refl) as (m & -> & Hm).
  cbn [bind].
  pose proof (score_same (similarity c) m Hm) as Hsame.
  rewrite (Binary64Facts.ltb_same neg_infinity neg_infinity _ (similarity c)
             (same_refl _) Hsame).
  destruct (neg_infinity <? similarity c)%float eqn:Hinf.
  - apply bestFrom_stays; [exact Hsel | exact Hrest|].
    eapply Forall_impl; [exact Hc|]. intros d Hd. unfold notBelow in Hd.
    now rewrite (Binary64Facts.ltb_same _ (similarity c) (similarity d) (similarity d)
                   Hsame (same_refl _)).
  - apply bestFrom_stays; [exact Hsel | exact Hrest|].
    eapply Forall_impl; [exact Hc|]. intros d Hd.
    exact (Binary64Facts.not_ltb_trans _ _ _ (inPlay_similarity c Hcp) Hinf Hd).
Qed.

(** With enough rounds the loop moves the candidates over in their order
    until [k] are selected. *)
Lemma mmrLoop_sorted (rounds : nat) (k : Z) (selected remaining : list RetrievedChunk) :
  (length remaining <= rounds)%nat ->
  Forall inPlay selected -> Forall inPlay remaining ->
  StronglySorted notBelow remaining ->
  mmrLoop rounds k 1 selected remaining
  = Ok (selected ++ take (Z.to_nat (k - len' selected)) remaining).
Proof using inPlay_cosine inPlay_similarity.
  revert selected remaining.
  induction rounds as [|rounds IH]; intros selected remaining Hlen Hsel Hrem Hsorted.
  - destruct remaining; [|simpl in Hlen; lia]. simpl. now rewrite take_nil, app_nil_r.
  - cbn [mmrLoop].
    destruct (Z.ltb_spec (len' selected) k) as [Hk|Hk]; cbn [andb];
      [|replace (Z.to_nat (k - len' selected)) with 0%nat by lia;
        now rewrite take_0, app_nil_r].
    destruct remaining as [|first rest];
      [cbn; now rewrite take_nil, app_nil_r|].
    replace (0 <? len' (first :: rest)) with true
      by (symmetry; apply Z.ltb_lt; unfold len'; simpl; lia).
    inversion Hrem as [|? ? Hfirst Hrest]; subst.
    inversion Hsorted as [|? ? Hsorted' Hhead]; subst.
    assert (Hstep : forall sel, len' sel < k ->
              take (Z.to_nat (k - len' sel)) (first :: rest)
              = first :: take (Z.to_nat (k - len' (sel ++ [first]))) rest).
    { intros sel Hsel'. unfold len'. rewrite length_app. simpl length.
      replace (Z.to_nat (k - Z.of_nat (length sel)))
        with (S (Z.to_nat (k - Z.of_nat (length sel + 1)))) by (unfold len' in Hsel'; lia).
      reflexivity. }
    destruct selected as [|s selected].
    + rewrite IH; [|simpl in Hlen; lia | repeat constructor; exact Hfirst
                   | exact Hrest | exact Hsorted'].
      rewrite (Hstep [] Hk). reflexivity.
    + rewrite (bestFrom_sorted (s :: selected) (first :: rest) Hsel Hrem Hsorted).
      cbn [bind lookup list_lookup take drop app]. rewrite drop_0.
      rewrite IH; [|simpl in Hlen; lia
                   | apply (proj2 (Forall_app inPlay (s :: selected) [first]));
                     split; [exact Hsel | repeat constructor; exact Hfirst]
                   | exact Hrest | exact Hsorted'].
      rewrite (Hstep (s :: selected) Hk). cbn [app]. now rewrite <- app_assoc.
Qed.

End RelevanceOnly.


(** A scored candidate carries an embedding of the dimension of the
    averaged query. *)
Lemma scored_embedding (avg : list float) (total : Z) (chunks : list PdfChunk)
  (candidates : list RetrievedChunk) :
  mapM (scoreChunk avg total) chunks = Ok candidates ->
  Forall (fun c => exists v, embedding (base c) = Some v /\ length v = length avg)
    candidates.
Proof.
  apply mapM_Forall. intros a b. unfold scoreChunk, cosineSimilarity.
  destruct (embedding a) as [v|] eqn:Hv; [|discriminate].
  destruct (Nat.eqb_spec (length avg) (length v)) as [Hlen|]; [|discriminate].
  cbn [negb].
  destruct (cosineSums avg v (0, 0, 0)%float) as [[d ma] mb].
  destruct ((PrimFloat.sqrt ma =? 0)%float || (PrimFloat.sqrt mb =? 0)%float);
    intros [= <-]; exists v; auto.
Qed.

Lemma cosineSimilarity_defined (v w : list float) :
  length v = length w -> exists s, cosineSimilarity (Some v) (Some w) = Ok s.
Proof.
  intros Hlen. unfold cosineSimilarity. rewrite Hlen, Nat.eqb_refl. cbn [negb].
  destruct (cosineSums v w (0, 0, 0)%float) as [[d ma] mb].
  destruct ((PrimFloat.sqrt ma =? 0)%float || (PrimFloat.sqrt mb =? 0)%float); eauto.
Qed.

(** C5, as amended. For [lambda = 1] and any [k], on a chunk list whose
    chunks carry embeddings that can be scored against the query, [mmrSearch]
    returns the chunks sorted by boosted similarity, descending, cut to the
    first [k]: pure relevance ranking, the diversity term has no effect. The
    numbers are binary64: the statement is for similarities that are not NaN
    and cosine similarities between chunks that are finite, that is, as long
    as the arithmetic does not overflow. *)
Theorem mmrSearch_lambda_one (queryEmbeds : list (list float)) (chunks : list PdfChunk)
  (k : Z) (candidates : list RetrievedChunk) :
  scoredCandidates queryEmbeds chunks = Ok candidates ->
  Forall (fun c => PrimFloat.is_nan (similarity c) = false) candidates ->
  Forall (fun c =>
            Forall (fun d =>
                      forall s,
                        cosineSimilarity (embedding (base c)) (embedding (base d)) = Ok s ->
                        PrimFloat.is_finite s = true) candidates) candidates ->
  mmrSearch queryEmbeds chunks k 1 = relevanceRanking queryEmbeds chunks k /\
  relevanceRanking queryEmbeds chunks k
  = Ok (take (Z.to_nat k) (sortBySimilarity candidates)).
Proof.
  intros Hscored Hnan Hcos.
  assert (Hrank : relevanceRanking queryEmbeds chunks k
                  = Ok (take (Z.to_nat k) (sortBySimilarity candidates))).
  { unfold relevanceRanking. now rewrite Hscored. }
  split; [|exact Hrank]. rewrite Hrank. clear Hrank.
  unfold scoredCandidates in Hscored.
  destruct (averageEmbedding queryEmbeds) as [avg|] eqn:Havg; [|discriminate].
  cbn [bind] in Hscored.
  pose proof (scored_embedding _ _ _ _ Hscored) as Hemb.
  unfold mmrSearch.
  destruct chunks as [|firstChunk rest].
  { injection Hscored as <-. cbn [sortBySimilarity fold_right]. now rewrite take_nil. }
  destruct (embedding firstChunk) eqn:Hfirst.
  2: { exfalso. simpl in Hscored. unfold scoreChunk at 1 in Hscored.
       rewrite Hfirst in Hscored. discriminate. }
  rewrite Havg. cbn [bind]. rewrite Hscored. cbn [bind].
  rewrite (sortCandidates_by_similarity _ Hnan).
  set (inPlay := fun c : RetrievedChunk => c ∈ candidates).
  assert (Hsorted_in : Forall inPlay (sortBySimilarity candidates)).
  { apply sortBySimilarity_Forall. apply Forall_forall. auto. }
  rewrite (mmrLoop_sorted inPlay); cbn [app].
  - unfold len'. simpl. now rewrite Z.sub_0_r.
  - intros c Hc. rewrite Forall_forall in Hnan. auto.
  - intros c d Hc Hd. rewrite Forall_forall in Hemb.
    destruct (Hemb c Hc) as (v & Hv & Hlv). destruct (Hemb d Hd) as (w & Hw & Hlw).
    destruct (cosineSimilarity_defined v w ltac:(congruence)) as [s Hs].
    exists s. rewrite Hv, Hw. split; [exact Hs|].
    rewrite Forall_forall in Hcos. specialize (Hcos c Hc).
    rewrite Forall_forall in Hcos. apply (Hcos d Hd). now rewrite Hv, Hw.
  - reflexivity.
  - constructor.
  - exact Hsorted_in.
  - now apply sortBySimilarity_sorted.
Qed.

(** Three chunks ranked for the query [[1, 0]], the first two asked for. *)
Lemma mmrSearch_lambda_one_witness :
  scoredCandidates [[1; 0]%float] threeChunks = Ok threeCandidates /\
  mmrSearch [[1; 0]%float] threeChunks 2 1
  = Ok (take 2 (sortBySimilarity threeCandidates)) /\
  map (fun c => chunk_no (base c)) (take 2 (sortBySimilarity threeCandidates)) = [1; 2].
Proof.
  assert (H1 : scoredCandidates [[1; 0]%float] threeChunks = Ok threeCandidates).
  { vm_compute. reflexivity. }
  assert (H2 : Forall (fun c => PrimFloat.is_nan (similarity c) = false) threeCandidates).
  { repeat constructor. }
  assert (H3 : Forall (fun c =>
                 Forall (fun d =>
                   forall s,
                     cosineSimilarity (embedding (base c)) (embedding (base d)) = Ok s ->
                     PrimFloat.is_finite s = true) threeCandidates) threeCandidates).
  { repeat constructor; intros s Hs; vm_compute in Hs; injection Hs as <-; reflexivity. }
  destruct (mmrSearch_lambda_one [[1; 0]%float] threeChunks 2 threeCandidates H1 H2 H3)
    as [Hsearch Hrank].
  split; [exact H1|]. split; [now rewrite Hsearch, Hrank|].
  vm_compute. reflexivity.
Defined.

(** C5, as stated, fails: embeddings alone do not make the diversity term
    harmless. Of the three chunks scored for the query [[1, 0]], none with a
    NaN similarity, the ranking by boosted similarity puts chunks 0 and 1
    first. At [lambda = 1] the score of chunk 1 after chunk 0 is
    [1 * 0.1 - 0 * NaN], the cosine similarity of the two having overflowed:
    the score is NaN, no comparison with it holds, and [mmrSearch] passes
    chunk 1 over for chunk 2. *)
Lemma mmrSearch_lambda_one_overflow :
  Forall (fun c => is_Some (embedding c)) overflowChunks
  /\ (exists candidates,
        scoredCandidates [[1; 0]%float] overflowChunks = Ok candidates
        /\ Forall (fun c => PrimFloat.is_nan (similarity c) = false) candidates)
  /\ chunkNumbers (relevanceRanking [[1; 0]%float] overflowChunks 2) = Ok [0; 1]
  /\ chunkNumbers (mmrSearch [[1; 0]%float] overflowChunks 2 1) = Ok [0; 2].
Proof.
  split; [repeat constructor; now eexists|].
  split; [eexists; split; [vm_compute; reflexivity | repeat constructor]|].
  split; vm_compute; reflexivity.
Qed.

(** * Further properties of the code *)

Section BuildFacts.
Import Builds.

(** ** indexing.ts: embeddings and the build *)

Lemma attachEmbeddings_embedded (batch : list PdfChunk) (data : list (list float))
  (out : list PdfChunk) :
  attachEmbeddings batch data = Ok out -> Forall2 embedded batch out.
Proof.
  revert data out. induction batch as [|c batch IH]; intros data out H.
  - injection H as <-. constructor.
  - destruct data as [|e data]; [discriminate|]. cbn [attachEmbeddings] in H.
    destruct (attachEmbeddings batch data) as [rest|] eqn:Hrest; [|discriminate].
    injection H as <-. constructor; [|now apply (IH data)].
    repeat split. now eexists.
Qed.

Lemma embedBatches_embedded (provider : Provider) (size batches : nat)
  (chunks out : list PdfChunk) :
  (length chunks <= batches)%nat ->
  embedBatches provider (S size) batches chunks = Ok out ->
  Forall2 embedded chunks out.
Proof.
  revert chunks out. induction batches as [|batches IH]; intros chunks out Hlen H.
  - destruct chunks; [|cbn in Hlen; lia]. injection H as <-. constructor.
  - destruct chunks as [|c chunks]; [injection H as <-; constructor|].
    cbn [embedBatches] in H.
    destruct (embeddingsCreate provider _) as [data|]; [|discriminate].
    cbn [bind] in H.
    destruct (attachEmbeddings _ data) as [emb|] eqn:Hemb; [|discriminate].
    cbn [bind] in H.
    destruct (embedBatches provider (S size) batches _) as [rest|] eqn:Hrest;
      [|discriminate].
    injection H as <-.
    rewrite <- (take_drop (S size) (c :: chunks)).
    apply Forall2_app.
    + now apply attachEmbeddings_embedded in Hemb.
    + apply IH; [|exact Hrest]. rewrite length_drop. cbn [length] in *. lia.
Qed.

Lemma generateEmbeddings_sound (provider : Provider) (chunks out : list PdfChunk) :
  generateEmbeddings provider chunks = Ok out -> Forall2 embedded chunks out.
Proof.
  unfold generateEmbeddings. destruct (negb (openaiApiKey provider)); [discriminate|].
  now apply embedBatches_embedded.
Qed.

(** X6. When [generateEmbeddings] returns, it returns the chunks it was given,
    as many and in the same order, each unchanged but for the embedding it
    now carries. *)
Theorem generateEmbeddings_embedded (provider : Provider) (chunks out : list PdfChunk) :
  generateEmbeddings provider chunks = Ok out ->
  Forall2 (fun c d =>
             chunk_no d = chunk_no c /\ Indexing.page_start d = Indexing.page_start c
             /\ Indexing.page_end d = Indexing.page_end c
             /\ Indexing.content d = Indexing.content c
             /\ tokens d = tokens c /\ preview d = preview c
             /\ is_Some (embedding d))
    chunks out.
Proof. apply generateEmbeddings_sound. Qed.

(** What [indexPdf] resolves to when every step succeeds. *)
Lemma indexPdf_succeeds {T : Type} (host : Host) (file : Z) (filePath : jsstring)
  (onProgress : Z -> T -> T) (disk : Disk) (t : T)
  (bytes : list N) (pages : list (Z * jsstring)) (emb : list PdfChunk) :
  BuildSucceeds host disk filePath bytes pages emb ->
  indexPdf host file filePath (Some onProgress) disk t
  = ({| success := true;
        chunkCount := len' (Indexing.chunkText pages CHUNK_SIZE CHUNK_OVERLAP);
        resultChecksum := md5Hex host bytes;
        Indexing.error := None |},
     withIndex disk file (builtIndex host file bytes emb),
     reported onProgress milestones t).
Proof.
  intros (Hread & Hpages & Hemb & Hwrite).
  unfold indexPdf, extractPdfText, saveIndex, computeChecksum, withIndex.
  rewrite Hread. cbn [bind]. rewrite Hpages, Hemb, Hwrite. reflexivity.
Qed.

(** X7. [indexPdf] reports its milestones in order and stops reporting where
    it fails: the callback has run for all of 10, 30, 50, 80 and 100 exactly
    when the build succeeded, and otherwise for none of them, for 10, for
    10, 30 and 50, or for 10, 30, 50 and 80. *)
Theorem indexPdf_progress {T : Type} (host : Host) (file : Z) (filePath : jsstring)
  (onProgress : Z -> T -> T) (disk : Disk) (t : T) :
  let out := indexPdf host file filePath (Some onProgress) disk t in
  (success (fst (fst out)) = true
   /\ snd out = fold_left (fun t p => onProgress p t) [10; 30; 50; 80; 100] t)
  \/
  (success (fst (fst out)) = false
   /\ exists ps, ps ∈ [[]; [10]; [10; 30; 50]; [10; 30; 50; 80]]
               /\ snd out = fold_left (fun t p => onProgress p t) ps t).
Proof.
  unfold indexPdf, extractPdfText.
  destruct (readFile disk filePath) as [bytes|e]; cbn [bind].
  2: { right. split; [reflexivity|]. exists []. split; [set_solver | reflexivity]. }
  destruct (pdfPages host bytes) as [pages|e].
  2: { right. split; [reflexivity|]. exists [10]. split; [set_solver | reflexivity]. }
  destruct (generateEmbeddings _ _) as [emb|e].
  2: { right. split; [reflexivity|]. exists [10; 30; 50].
       split; [set_solver | reflexivity]. }
  destruct (saveIndex _ _ _ _ _) as [[[]|e] disk'].
  2: { right. split; [reflexivity|]. exists [10; 30; 50; 80].
       split; [set_solver | reflexivity]. }
  left. split; reflexivity.
Qed.

(** X8. After a build that succeeded, [loadIndex] gives an index of the file
    whose checksum is the one [indexPdf] returns, the MD5 of the document;
    it holds as many chunks as [chunkCount] says, each with an embedding, and
    [needsReindex] with that checksum answers no. *)
Theorem indexPdf_success_index {T : Type} (host : Host) (file : Z)
  (filePath : jsstring) (onProgress : option (Z -> T -> T)) (disk disk' : Disk)
  (t t' : T) (r : IndexResult) :
  indexPdf host file filePath onProgress disk t = (r, disk', t') ->
  success r = true ->
  exists bytes index,
    readFile disk filePath = Ok bytes
    /\ resultChecksum r = computeChecksum host bytes
    /\ Indexing.error r = None
    /\ loadIndex disk' file = Some index
    /\ Indexing.fileId index = file
    /\ Indexing.checksum index = resultChecksum r
    /\ len' (Indexing.chunks index) = chunkCount r
    /\ totalChunks index = chunkCount r
    /\ Forall (fun c => is_Some (embedding c)) (Indexing.chunks index)
    /\ needsReindex disk' file (resultChecksum r) = false.
Proof.
  unfold indexPdf, extractPdfText.
  destruct (readFile disk filePath) as [bytes|e]; cbn [bind].
  2: { intros [= <- <- <-]. discriminate. }
  destruct (pdfPages host bytes) as [pages|e].
  2: { intros [= <- <- <-]. discriminate. }
  destruct (generateEmbeddings _ _) as [emb|e] eqn:Hemb.
  2: { intros [= <- <- <-]. discriminate. }
  unfold saveIndex. destruct (writeFailure disk) as [failure|].
  { intros [= <- <- <-]. discriminate. }
  intros [= <- <- <-] _.
  apply generateEmbeddings_sound in Hemb.
  pose proof (Forall2_length _ _ _ Hemb) as Hlen.
  eexists bytes, _. unfold loadIndex, needsReindex, loadIndex.
  cbn [indexFiles success chunkCount resultChecksum Indexing.error].
  rewrite lookup_insert. split; [reflexivity|]. split; [reflexivity|].
  split; [reflexivity|]. split; [rewrite decide_True by reflexivity; reflexivity|].
  cbn [Indexing.fileId Indexing.checksum Indexing.chunks totalChunks].
  repeat split.
  - unfold len'. now rewrite Hlen.
  - unfold len'. now rewrite Hlen.
  - eapply Forall2_Forall_r; [exact Hemb|]. apply Forall_forall. intros c _ d Hd.
    apply Hd.
  - rewrite decide_True by reflexivity. cbn. apply bool_decide_eq_false. tauto.
Qed.

(** X9. [indexPdf] writes nothing but the index file of its own document: the
    stored documents and the index files of the other documents are as they
    were. When the build fails before the index file is written, or fails
    on a disk whose writes do not fail, the disk is unchanged altogether.
    When it is the write of the index file that fails, the message is that
    of the write, and the index of the document is as before, or it can no
    longer be read, the file being truncated, or it is the new one. *)
Theorem indexPdf_frame {T : Type} (host : Host) (file : Z) (filePath : jsstring)
  (onProgress : option (Z -> T -> T)) (disk : Disk) (t : T) :
  let out := indexPdf host file filePath onProgress disk t in
  let result := fst (fst out) in
  let disk' := snd (fst out) in
  documents disk' = documents disk
  /\ (forall other, other <> file -> loadIndex disk' other = loadIndex disk other)
  /\ (success result = false ->
      disk' = disk
      \/ exists failure,
           writeFailure disk = Some failure
           /\ Indexing.error result = Some (exn_message (thrown failure))
           /\ match fileLeft failure with
              | FileAsBefore => loadIndex disk' file = loadIndex disk file
              | FileTruncated => loadIndex disk' file = None
              | FileWritten =>
                  exists index,
                    loadIndex disk' file = Some index
                    /\ Indexing.fileId index = file
                    /\ Forall (fun c => is_Some (embedding c)) (Indexing.chunks index)
              end)
  /\ (success result = false -> writeFailure disk = None -> disk' = disk)
  /\ (forall e, BuildThrows host disk filePath e -> disk' = disk).
Proof.
  cbv zeta. unfold indexPdf, extractPdfText.
  destruct (readFile disk filePath) as [bytes|e] eqn:Hread; cbn [bind].
  2: { repeat split; auto. }
  destruct (pdfPages host bytes) as [pages|e] eqn:Hpages.
  2: { repeat split; auto. }
  destruct (generateEmbeddings _ _) as [emb|e] eqn:Hemb.
  2: { repeat split; auto. }
  assert (Hnot : forall e, ~ BuildThrows host disk filePath e).
  { intros e [H | buffer H1 H2 | buffer pageTexts H1 H2 H3].
    - congruence.
    - unfold extractPdfText in H2. rewrite Hread in H2. cbn [bind] in H2. congruence.
    - unfold extractPdfText in H2. rewrite Hread in H2. cbn [bind] in H2.
      rewrite Hpages in H2. injection H2 as <-. congruence. }
  unfold saveIndex. destruct (writeFailure disk) as [failure|] eqn:Hwrite.
  - cbn [fst snd success Indexing.error].
    split; [now destruct (fileLeft failure)|].
    split.
    { intros other Hother. unfold loadIndex.
      destruct (fileLeft failure); cbn [indexFiles]; [reflexivity| |].
      - now rewrite lookup_delete_ne.
      - now rewrite lookup_insert_ne. }
    split.
    { intros _. right. exists failure. split; [reflexivity|]. split; [reflexivity|].
      unfold loadIndex. destruct (fileLeft failure); cbn [indexFiles].
      - reflexivity.
      - apply lookup_delete_eq.
      - rewrite lookup_insert_eq. eexists. split; [reflexivity|].
        split; [reflexivity|]. cbn [Indexing.chunks].
        apply generateEmbeddings_sound in Hemb.
        eapply Forall2_Forall_r; [exact Hemb|]. apply Forall_forall.
        intros c _ d Hd. apply Hd. }
    split; [discriminate|]. intros e He. now apply Hnot in He.
  - cbn [fst snd success]. split; [reflexivity|].
    split.
    { intros other Hother. unfold loadIndex. cbn [indexFiles].
      now rewrite lookup_insert_ne. }
    split; [discriminate|]. split; [discriminate|].
    intros e He. now apply Hnot in He.
Qed.

(** ** routers.ts: triggering a build *)

(** The build of the task when every step succeeds: the callbacks of all
    milestones are started. *)
Lemma backgroundBuild_succeeds (host : Host) (file : Z) (localPath : jsstring)
  (db : option Schema.Tables) (disk : Disk)
  (bytes : list N) (pages : list (Z * jsstring)) (emb : list PdfChunk) :
  BuildSucceeds host disk localPath bytes pages emb ->
  Routers.backgroundBuild host file localPath
    {| Routers.database := db; Routers.disk := disk |}
  = ({| success := true;
        chunkCount := len' (Indexing.chunkText pages CHUNK_SIZE CHUNK_OVERLAP);
        resultChecksum := md5Hex host bytes;
        Indexing.error := None |},
     withIndex disk file (builtIndex host file bytes emb),
     milestones).
Proof.
  intros Hbuild. unfold Routers.backgroundBuild. cbn [Routers.disk].
  now rewrite (indexPdf_succeeds host file localPath _ disk _ bytes pages emb Hbuild).
Qed.

(** The row after the writes of the task: what the write of the outcome
    makes of the row it finds, with the status and the progress of the last
    write of a progress callback that is done after it, if there is one. *)
Lemma rowAfter_outcome (host : Host) (file : Z) (before after : list Z)
  (result : IndexResult) (row : Schema.PdfIndexRow) :
  let landed :=
    map Routers.Progress before ++ Routers.Outcome result
      :: map Routers.Progress after in
  let outcome :=
    Db.updatedRow (Routers.outcomeOf host file result)
      (rowAfter host file (map Routers.Progress before) row) in
  rowAfter host file landed row
  = match last after with
    | None => outcome
    | Some p =>
        {| Schema.status := Schema.INDEXING;
           Schema.chunkCount := Schema.chunkCount outcome;
           Schema.checksum := Schema.checksum outcome;
           Schema.indexPath := Schema.indexPath outcome;
           Schema.errorMessage := Schema.errorMessage outcome;
           Schema.progress := Some p;
           Schema.indexedAt := Schema.indexedAt outcome |}
    end
  /\ outcomeLast landed = match last after with None => true | Some _ => false end.
Proof.
  cbv zeta. split.
  - rewrite rowAfter_app.
    change (?x :: map Routers.Progress after) with ([x] ++ map Routers.Progress after).
    now rewrite rowAfter_app, rowAfter_progress.
  - unfold outcomeLast. destruct after as [|q after _] using rev_ind.
    + cbn [map last]. change (?l ++ [?x]) with (l ++ [x]). now rewrite last_snoc.
    + rewrite map_app, app_comm_cons, app_assoc. cbn [map]. now rewrite !last_snoc.
Qed.

(** The task of a build whose steps all succeed, for every order of its
    writes. *)
Lemma backgroundIndexing_success (host : Host) (file : Z) (localPath : jsstring)
  (schedule : list nat) (tables : Schema.Tables) (row : Schema.PdfIndexRow)
  (disk : Disk) (bytes : list N) (pages : list (Z * jsstring)) (emb : list PdfChunk) :
  BuildSucceeds host disk localPath bytes pages emb ->
  let w1 := {| Routers.database := Some (withRow tables file row);
               Routers.disk := disk |} in
  let landed := fst (Routers.backgroundWrites host file localPath schedule w1) in
  let ready := readyRow host file bytes pages (Some row) in
  exists final,
    Routers.backgroundIndexing host file localPath schedule w1
    = {| Routers.database := Some (withRow tables file final);
         Routers.disk := withIndex disk file (builtIndex host file bytes emb) |}
    /\ Schema.chunkCount final = Schema.chunkCount ready
    /\ Schema.checksum final = Schema.checksum ready
    /\ Schema.indexPath final = Schema.indexPath ready
    /\ Schema.indexedAt final = Schema.indexedAt ready
    /\ Schema.errorMessage final = Schema.errorMessage row
    /\ (outcomeLast landed = true -> final = ready)
    /\ (outcomeLast landed = false ->
        Schema.status final = Schema.INDEXING
        /\ exists p, p ∈ milestones /\ Schema.progress final = Some p).
Proof.
  intros Hbuild w1 landed ready. subst landed.
  pose proof (backgroundBuild_succeeds host file localPath
                (Some (withRow tables file row)) disk bytes pages emb Hbuild) as Hb.
  fold w1 in Hb. unfold Routers.backgroundIndexing. rewrite Hb.
  destruct (backgroundWrites_withRow host file localPath schedule tables row
              disk _ _ milestones Hb) as (before & after & Hperm & Hwrites).
  fold w1 in Hwrites. rewrite Hwrites. cbn [fst snd].
  eexists. split; [reflexivity|].
  destruct (rowAfter_outcome host file before after
              {| success := true;
                 chunkCount := len' (Indexing.chunkText pages CHUNK_SIZE CHUNK_OVERLAP);
                 resultChecksum := md5Hex host bytes;
                 Indexing.error := None |} row) as [-> ->].
  rewrite (rowAfter_progress host file before).
  destruct (last after) as [p|] eqn:Hlast.
  - cbn. assert (Hp : p ∈ milestones).
    { rewrite <- Hperm. apply elem_of_app. right.
      apply last_Some in Hlast as [l ->]. set_solver. }
    destruct (last before); cbn;
      (do 5 (split; [reflexivity|])); (split; [intros H; discriminate H|]);
      intros _; (split; [reflexivity|]); exists p; now split.
  - cbn. destruct (last before); cbn;
      (do 5 (split; [reflexivity|])); (split; [intros _; reflexivity|]);
      intros H; discriminate H.
Qed.


(** X11. Triggering again after a build that succeeded, the document being the
    same. When the write of the outcome was the last one done, the row is
    READY and nothing is started: the answer is "File already indexed" and
    the database and the disk stay as they are. When the write of a progress
    callback was done after it, the row says INDEXING, and the trigger
    starts the build again, although the index on the disk is complete and
    is that of the document. *)
Theorem retrigger_after_success (host : Host)
  (getLocalFilePath : jsstring -> option jsstring) (file : Z)
  (w w1 : Routers.World) (answer : result Routers.Triggered)
  (task : list nat -> Routers.World -> Routers.World)
  (pdf : Schema.PdfFile) (localPath : jsstring)
  (bytes : list N) (pages : list (Z * jsstring)) (emb : list PdfChunk)
  (schedule : list nat) :
  Routers.triggerIndex host getLocalFilePath file w = (answer, w1, Some task) ->
  Db.getPdfFileById (Routers.database w) file = Some pdf ->
  getLocalFilePath (Schema.fileKey pdf) = Some localPath ->
  readFile (Routers.disk w) localPath = Ok bytes ->
  pdfPages host bytes = Ok pages ->
  generateEmbeddings (provider host)
    (Indexing.chunkText pages CHUNK_SIZE CHUNK_OVERLAP) = Ok emb ->
  writeFailure (Routers.disk w) = None ->
  let w2 := task schedule w1 in
  let landed := fst (Routers.backgroundWrites host file localPath schedule w1) in
  (outcomeLast landed = true ->
   Routers.triggerIndex host getLocalFilePath file w2
   = (Ok {| Routers.triggerSuccess := true;
            Routers.message := Some (lit "File already indexed") |},
      w2, None))
  /\ (outcomeLast landed = false ->
      exists w3,
        Routers.triggerIndex host getLocalFilePath file w2
        = (Ok {| Routers.triggerSuccess := true; Routers.message := None |}, w3,
           Some (Routers.backgroundIndexing host file localPath))
        /\ Routers.disk w3 = Routers.disk w2
        /\ needsReindex (Routers.disk w2) file (computeChecksum host bytes) = false).
Proof.
  intros Htrigger Hpdf Hpath Hread Hpages Hemb Hwrite.
  destruct (triggerIndex_started _ _ _ _ _ _ _ _ _ Htrigger Hpdf Hpath)
    as (tables & Hdb & _ & -> & ->).
  cbv zeta.
  edestruct (backgroundIndexing_success host file localPath schedule tables)
    as (final & -> & _ & _ & _ & _ & _ & Hready & Hstale).
  { repeat split; eassumption. }
  rewrite Hdb in Hpdf. unfold Routers.triggerIndex.
  cbn [Routers.database Routers.disk Db.getPdfFileById Db.getIndexByFileId] in *.
  change (Schema.pdfFiles (withRow tables file final)) with (Schema.pdfFiles tables).
  rewrite Hpdf, Hpath, lookup_withRow. split.
  - intros Hlast. rewrite (Hready Hlast). cbn [Schema.status readyRow].
    change (readFile (withIndex (Routers.disk w) file _) localPath)
      with (readFile (Routers.disk w) localPath).
    rewrite Hread. cbn [Schema.checksum]. unfold computeChecksum.
    now rewrite bool_decide_eq_true_2.
  - intros Hlast. destruct (Hstale Hlast) as (Hstatus & _). rewrite Hstatus.
    rewrite createOrUpdateIndex_withRow. eexists. split; [reflexivity|].
    split; [reflexivity|].
    unfold needsReindex, loadIndex, withIndex. cbn [indexFiles].
    rewrite lookup_insert_eq. cbn [builtIndex Indexing.checksum].
    apply bool_decide_eq_false. unfold computeChecksum. tauto.
Qed.

(** A trigger that starts no task has written nothing: it threw, or the
    document was indexed already, and the database and the disk are as they
    were. *)
Lemma triggerIndex_without_task (host : Host)
  (getLocalFilePath : jsstring -> option jsstring) (file : Z)
  (w w1 : Routers.World) (answer : result Routers.Triggered) :
  Routers.triggerIndex host getLocalFilePath file w = (answer, w1, None) ->
  w1 = w
  /\ ((exists e, answer = Throw e)
      \/ answer = Ok {| Routers.triggerSuccess := true;
                        Routers.message := Some (lit "File already indexed") |}).
Proof.
  unfold Routers.triggerIndex.
  destruct (Db.getPdfFileById (Routers.database w) file) as [pdf|].
  2: { intros [= <- <-]. split; [reflexivity|]. left. now eexists. }
  destruct (getLocalFilePath (Schema.fileKey pdf)) as [localPath|].
  2: { intros [= <- <-]. split; [reflexivity|]. left. now eexists. }
  match goal with
  | |- match ?u with _ => _ end = _ -> _ => destruct u as [[]|e]
  end.
  - intros [= <- <-]. split; [reflexivity|]. now right.
  - destruct (Db.createOrUpdateIndex _ _); [discriminate|].
    intros [= <- <-]. split; [reflexivity|]. left. now eexists.
  - intros [= <- <-]. split; [reflexivity|]. left. now eexists.
Qed.

(** X12. A trigger for a stored document whose row is missing or not READY
    starts a build, also when the row says INDEXING, that is, when a build
    is already running: it answers success, sets the row to INDEXING at 0
    percent and leaves the disk alone. *)
Theorem triggerIndex_starts_build (host : Host)
  (getLocalFilePath : jsstring -> option jsstring) (file : Z)
  (w : Routers.World) (tables : Schema.Tables)
  (pdf : Schema.PdfFile) (localPath : jsstring) :
  Routers.database w = Some tables ->
  Schema.pdfFiles tables !! file = Some pdf ->
  getLocalFilePath (Schema.fileKey pdf) = Some localPath ->
  (forall row, Schema.pdfIndexes tables !! file = Some row ->
               Schema.status row <> Schema.READY) ->
  exists w1 row,
    Routers.triggerIndex host getLocalFilePath file w
    = (Ok {| Routers.triggerSuccess := true; Routers.message := None |}, w1,
       Some (Routers.backgroundIndexing host file localPath))
    /\ Routers.disk w1 = Routers.disk w
    /\ Db.getIndexByFileId (Routers.database w1) file = Some row
    /\ Schema.status row = Schema.INDEXING
    /\ Schema.progress row = Some 0.
Proof.
  intros Hdb Hpdf Hpath Hrow. unfold Routers.triggerIndex.
  rewrite Hdb. cbn [Db.getPdfFileById Db.getIndexByFileId]. rewrite Hpdf, Hpath.
  assert (Hfalse :
    match Schema.pdfIndexes tables !! file with
    | Some existing =>
        match Schema.status existing with
        | Schema.READY =>
            match readFile (Routers.disk w) localPath with
            | Ok buffer =>
                Ok (bool_decide (Schema.checksum existing
                                 = Some (computeChecksum host buffer)))
            | Throw e => Throw e
            end
        | _ => Ok false
        end
    | None => Ok false
    end = Ok false).
  { destruct (Schema.pdfIndexes tables !! file) as [row|] eqn:Hr; [|reflexivity].
    specialize (Hrow row eq_refl). destruct (Schema.status row); congruence. }
  rewrite Hfalse, createOrUpdateIndex_withRow.
  eexists _, _. split; [reflexivity|]. split; [reflexivity|].
  cbn [Routers.database Db.getIndexByFileId Db.fileId Routers.indexingAt].
  rewrite lookup_withRow. split; [reflexivity|].
  destruct (Schema.pdfIndexes tables !! file); split; reflexivity.
Qed.

(** ** The statements on samples *)

(** The chunk of the page of three words, embedded by the sample provider. *)
Lemma generateEmbeddings_embedded_witness :
  generateEmbeddings sampleProvider
    (Indexing.chunkText threeWords CHUNK_SIZE CHUNK_OVERLAP) = Ok embeddedWords
  /\ Forall2 (fun c d =>
                chunk_no d = chunk_no c /\ Indexing.page_start d = Indexing.page_start c
                /\ Indexing.page_end d = Indexing.page_end c
                /\ Indexing.content d = Indexing.content c
                /\ tokens d = tokens c /\ preview d = preview c
                /\ is_Some (embedding d))
       (Indexing.chunkText threeWords CHUNK_SIZE CHUNK_OVERLAP) embeddedWords.
Proof.
  assert (H : generateEmbeddings sampleProvider
                (Indexing.chunkText threeWords CHUNK_SIZE CHUNK_OVERLAP)
              = Ok embeddedWords).
  { vm_compute. reflexivity. }
  split; [exact H|]. exact (generateEmbeddings_embedded _ _ _ H).
Defined.

(** The stored document 7 indexed by the working host. *)
Lemma indexPdf_success_index_witness :
  success (fst (fst (indexPdf workingHost 7 storedPath (@None (Z -> unit -> unit))
                       (Routers.disk sampleWorld) tt))) = true
  /\ exists bytes index,
       readFile (Routers.disk sampleWorld) storedPath = Ok bytes
       /\ loadIndex
            (snd (fst (indexPdf workingHost 7 storedPath (@None (Z -> unit -> unit))
                         (Routers.disk sampleWorld) tt))) 7 = Some index
       /\ Indexing.checksum index = computeChecksum workingHost bytes
       /\ len' (Indexing.chunks index) = 1.
Proof.
  split; [reflexivity|].
  destruct (indexPdf_success_index workingHost 7 storedPath
              (@None (Z -> unit -> unit)) (Routers.disk sampleWorld)
              (snd (fst (indexPdf workingHost 7 storedPath (@None (Z -> unit -> unit))
                           (Routers.disk sampleWorld) tt)))
              tt tt
              (fst (fst (indexPdf workingHost 7 storedPath (@None (Z -> unit -> unit))
                           (Routers.disk sampleWorld) tt)))
              eq_refl eq_refl)
    as (bytes & index & Hread & Hsum & _ & Hload & _ & Hindex & Hlen & _).
  exists bytes, index. split; [exact Hread|]. split; [exact Hload|].
  split; [now rewrite Hindex, Hsum|]. rewrite Hlen. reflexivity.
Defined.


(** The same build with the write of the outcome done first and those of
    the progress callbacks after it: the second trigger starts the build
    again. *)
Lemma retrigger_after_success_witness :
  let w1 := snd (fst (Routers.triggerIndex workingHost sampleLocalPath 7 sampleWorld)) in
  let w2 := Routers.backgroundIndexing workingHost 7 storedPath [5%nat] w1 in
  outcomeLast (fst (Routers.backgroundWrites workingHost 7 storedPath [5%nat] w1))
  = false
  /\ exists w3,
       Routers.triggerIndex workingHost sampleLocalPath 7 w2
       = (Ok {| Routers.triggerSuccess := true; Routers.message := None |}, w3,
          Some (Routers.backgroundIndexing workingHost 7 storedPath))
       /\ Routers.disk w3 = Routers.disk w2
       /\ needsReindex (Routers.disk w2) 7 (computeChecksum workingHost sampleBytes)
          = false.
Proof.
  cbv zeta.
  assert (Hlast : outcomeLast
                    (fst (Routers.backgroundWrites workingHost 7 storedPath [5%nat]
                            (snd (fst (Routers.triggerIndex workingHost sampleLocalPath
                                         7 sampleWorld))))) = false).
  { reflexivity. }
  split; [exact Hlast|].
  exact (proj2 (retrigger_after_success workingHost sampleLocalPath 7 sampleWorld
                  (snd (fst (Routers.triggerIndex workingHost sampleLocalPath 7
                               sampleWorld)))
                  (fst (fst (Routers.triggerIndex workingHost sampleLocalPath 7
                               sampleWorld)))
                  (Routers.backgroundIndexing workingHost 7 storedPath)
                  samplePdf storedPath sampleBytes threeWords embeddedWords [5%nat]
                  eq_refl eq_refl eq_refl eq_refl eq_refl eq_refl eq_refl) Hlast).
Defined.

(** The build of document 7 on the disk that runs full while the index file
    is written: the build fails, and the index that the document had can no
    longer be read. *)
Lemma indexPdf_failed_write_loses_index :
  let out := indexPdf workingHost 7 storedPath (@None (Z -> unit -> unit)) fullDisk tt in
  success (fst (fst out)) = false
  /\ loadIndex fullDisk 7 = Some earlierIndex
  /\ loadIndex (snd (fst out)) 7 = None.
Proof. cbv zeta. split; [reflexivity|]. split; reflexivity. Qed.

(** A trigger for document 7 while its row says INDEXING at 30 percent. *)
Lemma triggerIndex_starts_build_witness :
  exists w1 row,
    Routers.triggerIndex workingHost sampleLocalPath 7 indexingWorld
    = (Ok {| Routers.triggerSuccess := true; Routers.message := None |}, w1,
       Some (Routers.backgroundIndexing workingHost 7 storedPath))
    /\ Routers.disk w1 = Routers.disk indexingWorld
    /\ Db.getIndexByFileId (Routers.database w1) 7 = Some row
    /\ Schema.status row = Schema.INDEXING
    /\ Schema.progress row = Some 0.
Proof.
  apply (triggerIndex_starts_build workingHost sampleLocalPath 7 indexingWorld
           indexingTables samplePdf storedPath eq_refl eq_refl eq_refl).
  intros row Hrow. vm_compute in Hrow. injection Hrow as <-. discriminate.
Defined.

End BuildFacts.

Section RankingFacts.
Import Ranking.

(** ** retrieval.ts: the query *)

(** X13. [expandQuery] always answers with the query itself first, followed by
    at most two alternatives, each a line that is not empty and shorter than
    500 characters; without an API key, and when the provider fails, it is the
    query alone. *)
Theorem expandQuery_shape (provider : Provider) (query : jsstring) :
  exists alternatives,
    expandQuery provider query = query :: alternatives
    /\ (length alternatives <= 2)%nat
    /\ Forall (fun s => 0 < len s /\ len s < 500) alternatives
    /\ (openaiApiKey provider = false
        \/ (exists e, chatCompletion provider alternativesInstruction query = Throw e)
        -> alternatives = []).
Proof.
  unfold expandQuery. destruct (openaiApiKey provider); cbn [negb].
  2: { exists []. repeat split; [cbn; lia | constructor]. }
  destruct (chatCompletion provider alternativesInstruction query) as [content|e].
  2: { exists []. repeat split; [cbn; lia | constructor]. }
  eexists. split; [reflexivity|]. split; [rewrite length_take; lia|]. split.
  - destruct content as [text|]; [|constructor].
    apply Forall_take, Forall_forall. intros s Hs.
    now apply list_elem_of_filter in Hs as [Hs _].
  - intros [H | [e H]]; discriminate.
Qed.

(** ** retrieval.ts: cosine similarity *)

Lemma cosineSums_zeros_l (v : list float) (dot magB : float) :
  exists dot' magB',
    cosineSums (zeros (length v)) v (dot, 0%float, magB) = (dot', 0%float, magB').
Proof.
  revert dot magB. induction v as [|b v IH]; intros dot magB; [now eexists _, _|].
  cbn [length zeros replicate cosineSums].
  change (0 + 0 * 0)%float with 0%float. apply IH.
Qed.

Lemma cosineSums_zeros_r (v : list float) (dot magA : float) :
  exists dot' magA',
    cosineSums v (zeros (length v)) (dot, magA, 0%float) = (dot', magA', 0%float).
Proof.
  revert dot magA. induction v as [|a v IH]; intros dot magA; [now eexists _, _|].
  cbn [length zeros replicate cosineSums].
  change (0 + 0 * 0)%float with 0%float. apply IH.
Qed.

(** X14. The similarity of a vector of zeros to any vector of its length is 0:
    the division by a zero magnitude is never made, whatever the other
    vector holds. *)
Theorem cosineSimilarity_zero_vector (v : list float) :
  cosineSimilarity (Some (replicate (length v) 0%float)) (Some v) = Ok 0%float
  /\ cosineSimilarity (Some v) (Some (replicate (length v) 0%float)) = Ok 0%float.
Proof.
  unfold cosineSimilarity. rewrite length_replicate, Nat.eqb_refl. cbn [negb].
  split.
  - destruct (cosineSums_zeros_l v 0 0) as (dot & magB & H).
    unfold zeros in H. rewrite H. reflexivity.
  - destruct (cosineSums_zeros_r v 0 0) as (dot & magA & H).
    unfold zeros in H. rewrite H.
    change (PrimFloat.sqrt 0 =? 0)%float with true. now rewrite orb_true_r.
Qed.

(** ** retrieval.ts: the selection of [mmrSearch] *)

Lemma mapM_length {A B : Type} (f : A -> result B) (l : list A) (bs : list B) :
  mapM f l = Ok bs -> length bs = length l.
Proof.
  revert bs. induction l as [|a l IH]; intros bs H; [now injection H as <-|].
  cbn [mapM] in H. destruct (f a); [|discriminate]. cbn [bind] in H.
  destruct (mapM f l); [|discriminate]. injection H as <-.
  cbn [length]. now rewrite (IH _ eq_refl).
Qed.

Lemma mapM_scoreChunk_base (avg : list float) (total : Z) (chunks : list PdfChunk)
  (candidates : list RetrievedChunk) :
  mapM (scoreChunk avg total) chunks = Ok candidates -> map base candidates = chunks.
Proof.
  revert candidates. induction chunks as [|c chunks IH]; intros candidates H;
    [now injection H as <-|].
  cbn [mapM] in H. unfold scoreChunk at 1 in H.
  destruct (cosineSimilarity (Some avg) (embedding c)); [|discriminate].
  cbn [bind] in H. destruct (mapM _ chunks); [|discriminate].
  injection H as <-. cbn [map base]. now rewrite (IH _ eq_refl).
Qed.

Lemma insertCandidate_perm (c : RetrievedChunk) (sorted : list RetrievedChunk) :
  insertCandidate c sorted ≡ₚ c :: sorted.
Proof.
  induction sorted as [|d sorted IH]; [reflexivity|]. cbn [insertCandidate].
  destruct (0 <? similarity d - similarity c)%float; [|reflexivity].
  rewrite IH. apply Permutation_swap.
Qed.

Lemma sortCandidates_perm (candidates : list RetrievedChunk) :
  sortCandidates candidates ≡ₚ candidates.
Proof.
  induction candidates as [|c candidates IH]; [reflexivity|].
  unfold sortCandidates in *. cbn [fold_right].
  now rewrite insertCandidate_perm, IH.
Qed.

(** The index that the inner loop settles on is the one it started with or
    one of the candidates it looked at. *)
Lemma bestFrom_bound (lambda : float) (selected remaining : list RetrievedChunk)
  (i : nat) (bestScore : float) (bestIndex j : nat) :
  bestFrom lambda selected remaining i bestScore bestIndex = Ok j ->
  j = bestIndex \/ (i <= j < i + length remaining)%nat.
Proof.
  revert i bestScore bestIndex.
  induction remaining as [|c remaining IH]; intros i bestScore bestIndex H.
  - injection H as <-. now left.
  - cbn [bestFrom] in H.
    destruct (maxSimilarityTo c selected 0) as [m|]; [|discriminate].
    cbn [bind] in H.
    destruct (bestScore <? _)%float; apply IH in H as [-> | H]; cbn [length]; lia.
Qed.

Lemma length_without {A : Type} (l : list A) (i : nat) :
  (i < length l)%nat -> length (take i l ++ drop (S i) l) = pred (length l).
Proof. intros H. rewrite length_app, length_take, length_drop. lia. Qed.

(** The loop stops when [k] chunks are selected or none remains. *)
Lemma mmrLoop_length (rounds : nat) (k : Z) (lambda : float)
  (selected remaining out : list RetrievedChunk) :
  (length remaining <= rounds)%nat ->
  mmrLoop rounds k lambda selected remaining = Ok out ->
  len' out = Z.max (len' selected) (Z.min k (len' selected + len' remaining)).
Proof.
  revert selected remaining.
  induction rounds as [|rounds IH]; intros selected remaining Hrounds H.
  - destruct remaining; [|cbn in Hrounds; lia]. injection H as <-.
    unfold len'. cbn [length]. lia.
  - cbn [mmrLoop] in H.
    destruct ((len' selected <? k) && (0 <? len' remaining)) eqn:Hgo.
    2: { injection H as <-. apply andb_false_iff in Hgo as [Hk | Hr].
         - apply Z.ltb_ge in Hk. lia.
         - apply Z.ltb_ge in Hr. unfold len' in *. lia. }
    apply andb_true_iff in Hgo as [Hk Hr]. apply Z.ltb_lt in Hk, Hr.
    destruct selected as [|s selected].
    + destruct remaining as [|first rest]; [unfold len' in Hr; cbn in Hr; lia|].
      apply IH in H; [|cbn [length] in Hrounds; lia].
      unfold len' in *. cbn [length] in *. lia.
    + destruct (bestFrom lambda (s :: selected) remaining 0 neg_infinity 0)
        as [j|] eqn:Hbest; [|discriminate].
      cbn [bind] in H.
      assert (Hj : (j < length remaining)%nat).
      { apply bestFrom_bound in Hbest. unfold len' in Hr. lia. }
      destruct (remaining !! j) as [best|] eqn:Hlook.
      2: { apply lookup_ge_None in Hlook. lia. }
      apply IH in H; [|rewrite length_without by exact Hj; lia].
      unfold len' in *. rewrite length_without in H by exact Hj.
      rewrite length_app in H. cbn [length] in *. lia.
Qed.

Lemma insertCandidate_length (c : RetrievedChunk) (sorted : list RetrievedChunk) :
  length (insertCandidate c sorted) = S (length sorted).
Proof. now rewrite insertCandidate_perm. Qed.

Lemma sortCandidates_length (candidates : list RetrievedChunk) :
  length (sortCandidates candidates) = length candidates.
Proof. now rewrite sortCandidates_perm. Qed.

Lemma mmrSearch_length_bound (queryEmbeds : list (list float)) (chunks : list PdfChunk)
  (k : Z) (lambda : float) (out : list RetrievedChunk) :
  mmrSearch queryEmbeds chunks k lambda = Ok out ->
  len' out <= Z.max 0 k.
Proof.
  unfold mmrSearch. destruct chunks as [|first rest].
  { intros [= <-]. unfold len'. cbn. lia. }
  destruct (embedding first).
  2: { intros [= <-]. unfold len'. cbn. lia. }
  destruct (averageEmbedding queryEmbeds) as [avg|]; [|discriminate]. cbn [bind].
  destruct (mapM _ (first :: rest)) as [candidates|] eqn:Hmap; [|discriminate].
  cbn [bind]. intros H. apply mmrLoop_length in H; [|reflexivity].
  unfold len' in *. cbn [length] in *. lia.
Qed.

(** X15. When [mmrSearch] returns for a list whose first chunk carries an
    embedding, it returns [k] chunks, or all of them when there are fewer
    than [k], and none for a [k] that is not positive; for an empty list and
    for a first chunk without embedding it returns none. *)
Theorem mmrSearch_length (queryEmbeds : list (list float)) (chunks : list PdfChunk)
  (k : Z) (lambda : float) (out : list RetrievedChunk) :
  mmrSearch queryEmbeds chunks k lambda = Ok out ->
  len' out
  = match chunks with
    | first :: _ =>
        match embedding first with
        | Some _ => Z.min (Z.max 0 k) (len' chunks)
        | None => 0
        end
    | [] => 0
    end.
Proof.
  unfold mmrSearch. destruct chunks as [|first rest]; [now intros [= <-]|].
  destruct (embedding first); [|now intros [= <-]].
  destruct (averageEmbedding queryEmbeds) as [avg|]; [|discriminate]. cbn [bind].
  destruct (mapM _ (first :: rest)) as [candidates|] eqn:Hmap; [|discriminate].
  cbn [bind]. intros H. apply mmrLoop_length in H; [|reflexivity].
  apply mapM_length in Hmap.
  unfold len' in *. rewrite sortCandidates_length, Hmap in H.
  cbn [length] in *. lia.
Qed.

Lemma mmrLoop_submseteq (rounds : nat) (k : Z) (lambda : float)
  (selected remaining out : list RetrievedChunk) :
  mmrLoop rounds k lambda selected remaining = Ok out ->
  out ⊆+ selected ++ remaining.
Proof.
  revert selected remaining.
  induction rounds as [|rounds IH]; intros selected remaining H.
  - injection H as <-. now apply submseteq_inserts_r.
  - cbn [mmrLoop] in H.
    destruct ((len' selected <? k) && (0 <? len' remaining)).
    2: { injection H as <-. now apply submseteq_inserts_r. }
    destruct selected as [|s selected].
    + destruct remaining as [|first rest]; [now injection H as <-|].
      now apply IH in H.
    + destruct (bestFrom lambda (s :: selected) remaining 0 neg_infinity 0)
        as [j|]; [|discriminate].
      cbn [bind] in H.
      destruct (remaining !! j) as [best|] eqn:Hlook.
      2: { injection H as <-. now apply submseteq_inserts_r. }
      apply IH in H. etransitivity; [exact H|].
      apply Permutation_submseteq.
      rewrite <- (take_drop_middle remaining j best Hlook) at 3.
      rewrite <- !app_assoc. cbn [app].
      constructor. apply Permutation_app_head.
      now rewrite Permutation_middle.
Qed.

(** X16. The chunks that [mmrSearch] returns are chunks of the list it was
    given, none of them returned more often than it occurs there. *)
Theorem mmrSearch_returns_chunks_given (queryEmbeds : list (list float))
  (chunks : list PdfChunk) (k : Z) (lambda : float) (out : list RetrievedChunk) :
  mmrSearch queryEmbeds chunks k lambda = Ok out ->
  map base out ⊆+ chunks.
Proof.
  unfold mmrSearch. destruct chunks as [|first rest].
  { intros [= <-]. reflexivity. }
  destruct (embedding first).
  2: { intros [= <-]. apply submseteq_nil_l. }
  destruct (averageEmbedding queryEmbeds) as [avg|]; [|discriminate]. cbn [bind].
  destruct (mapM _ (first :: rest)) as [candidates|] eqn:Hmap; [|discriminate].
  cbn [bind]. intros H. apply mmrLoop_submseteq in H. cbn [app] in H.
  apply mapM_scoreChunk_base in Hmap. rewrite <- Hmap.
  apply (fmap_submseteq base). now rewrite <- (sortCandidates_perm candidates).
Qed.

Lemma mmrLoop_keeps_head (rounds : nat) (k : Z) (lambda : float)
  (s : RetrievedChunk) (selected remaining out : list RetrievedChunk) :
  mmrLoop rounds k lambda (s :: selected) remaining = Ok out ->
  exists others, out = s :: others.
Proof.
  revert selected remaining.
  induction rounds as [|rounds IH]; intros selected remaining H.
  - injection H as <-. now eexists.
  - cbn [mmrLoop] in H.
    destruct ((len' (s :: selected) <? k) && (0 <? len' remaining)).
    2: { injection H as <-. now eexists. }
    destruct (bestFrom lambda (s :: selected) remaining 0 neg_infinity 0)
      as [j|]; [|discriminate].
    cbn [bind] in H. destruct (remaining !! j) as [best|].
    + now apply (IH (selected ++ [best])) in H.
    + injection H as <-. now eexists.
Qed.

Lemma ltb_irrefl (x : float) : (x <? x)%float = false.
Proof.
  destruct (x <? x)%float eqn:H; [|reflexivity].
  pose proof (Binary64Facts.ltb_asym x x H). congruence.
Qed.

(** X17. Whatever [lambda] is, the first chunk that [mmrSearch] returns is one
    of highest boosted similarity: no scored chunk has a similarity above
    it. This is for similarities that are numbers, none of them NaN. *)
Theorem mmrSearch_first_is_most_similar (queryEmbeds : list (list float))
  (chunks : list PdfChunk) (k : Z) (lambda : float)
  (candidates others : list RetrievedChunk) (first : RetrievedChunk) :
  scoredCandidates queryEmbeds chunks = Ok candidates ->
  Forall (fun c => PrimFloat.is_nan (similarity c) = false) candidates ->
  mmrSearch queryEmbeds chunks k lambda = Ok (first :: others) ->
  Forall (fun c => (similarity first <? similarity c)%float = false) candidates.
Proof.
  unfold scoredCandidates, mmrSearch. intros Hscored Hnan.
  destruct chunks as [|c0 rest]; [discriminate|].
  destruct (embedding c0); [|discriminate].
  destruct (averageEmbedding queryEmbeds) as [avg|]; [|discriminate].
  cbn [bind] in *. rewrite Hscored. cbn [bind].
  assert (Hsorted : StronglySorted notBelow (sortCandidates candidates)).
  { rewrite sortCandidates_by_similarity by exact Hnan.
    now apply sortBySimilarity_sorted. }
  pose proof (sortCandidates_perm candidates) as Hperm.
  destruct (sortCandidates candidates) as [|best sorted]; intros H.
  { cbn in H. discriminate. }
  rewrite <- Hperm.
  cbn [length mmrLoop] in H.
  destruct ((len' [] <? k) && (0 <? len' (best :: sorted))); [|discriminate].
  apply mmrLoop_keeps_head in H as [others' [= <- _]].
  inversion Hsorted as [|? ? _ Hbest]; subst.
  constructor; [apply ltb_irrefl | exact Hbest].
Qed.

(** ** retrieval.ts: [compressContext] and [retrieveContext] *)

Lemma compressLoop_idempotent (chunks : list RetrievedChunk) (maxTokens totalTokens : Z) :
  compressLoop (compressLoop chunks maxTokens totalTokens) maxTokens totalTokens
  = compressLoop chunks maxTokens totalTokens.
Proof.
  revert totalTokens. induction chunks as [|c chunks IH]; intros totalTokens;
    [reflexivity|].
  cbn [compressLoop].
  destruct (totalTokens + tokens (base c) <=? maxTokens) eqn:Hfit.
  - cbn [compressLoop]. rewrite Hfit. now rewrite IH.
  - destruct (50 <? maxTokens - totalTokens); [|reflexivity].
    cbn [compressLoop truncated base tokens].
    replace (totalTokens + (maxTokens - totalTokens) <=? maxTokens) with true
      by (symmetry; apply Z.leb_le; lia).
    reflexivity.
Qed.

(** X18. Compressing a list that is already compressed to the same budget
    changes nothing. *)
Theorem compressContext_idempotent (chunks : list RetrievedChunk) (maxTokens : Z) :
  compressContext (compressContext chunks maxTokens) maxTokens
  = compressContext chunks maxTokens.
Proof. apply compressLoop_idempotent. Qed.

Lemma compressLoop_all_fit (chunks : list RetrievedChunk) (maxTokens totalTokens : Z) :
  Forall (fun c => 0 <= tokens (base c)) chunks ->
  totalTokens + sumTokens chunks <= maxTokens ->
  compressLoop chunks maxTokens totalTokens = chunks.
Proof.
  intros Hall. revert totalTokens.
  induction Hall as [|c chunks Hc Hall IH]; intros totalTokens Hsum; [reflexivity|].
  rewrite sumTokens_cons in Hsum. cbn [compressLoop].
  assert (Hrest : 0 <= sumTokens chunks).
  { clear -Hall. induction Hall as [|d l Hd _ IH]; [cbn; lia|].
    rewrite sumTokens_cons. lia. }
  replace (totalTokens + tokens (base c) <=? maxTokens) with true
    by (symmetry; apply Z.leb_le; lia).
  rewrite IH by lia. reflexivity.
Qed.

(** X19. Chunks whose token counts, none of them negative, add up to no more
    than the budget all pass, unchanged and in their order. *)
Theorem compressContext_keeps_what_fits (chunks : list RetrievedChunk) (maxTokens : Z) :
  Forall (fun c => 0 <= tokens (base c)) chunks ->
  sumTokens chunks <= maxTokens ->
  compressContext chunks maxTokens = chunks.
Proof. intros Hall Hsum. apply compressLoop_all_fit; [exact Hall | lia]. Qed.

Lemma compressLoop_length (chunks : list RetrievedChunk) (maxTokens totalTokens : Z) :
  (length (compressLoop chunks maxTokens totalTokens) <= length chunks)%nat.
Proof.
  revert totalTokens. induction chunks as [|c chunks IH]; intros totalTokens;
    cbn [compressLoop length]; [lia|].
  destruct (totalTokens + tokens (base c) <=? maxTokens).
  - cbn [length]. specialize (IH (totalTokens + tokens (base c))). lia.
  - destruct (50 <? maxTokens - totalTokens); cbn [length]; lia.
Qed.

(** Without an API key, a question about a document that has an index is
    answered with the error "OpenAI API key not configured", no chunks and
    no tokens: the query is not expanded, and embedding it throws. *)
Lemma retrieveContext_without_key (config : Config) (provider : Provider)
  (disk : Disk) (fileId : Z) (query : jsstring) (index : PdfIndex) :
  loadIndex disk fileId = Some index ->
  Indexing.chunks index <> [] ->
  openaiApiKey provider = false ->
  retrieveContext config provider disk fileId query
  = {| Retrieval.chunks := []; Retrieval.totalTokens := 0;
       Retrieval.error := Some (lit "OpenAI API key not configured") |}.
Proof.
  intros Hload Hchunks Hkey. unfold retrieveContext, embedQueries.
  rewrite Hload, Hkey.
  destruct (Indexing.chunks index); [congruence|]. reflexivity.
Qed.

(** X20. What [retrieveContext] answers is within its settings: the total it
    reports is the sum of the tokens of the chunks it returns and no more
    than [MAX_CONTEXT_TOKENS], the chunks are no more than [RETRIEVAL_TOP_K],
    and an answer with an error carries no chunks. *)
Theorem retrieveContext_within_settings (config : Config) (provider : Provider)
  (disk : Disk) (fileId : Z) (query : jsstring) :
  0 <= MAX_CONTEXT_TOKENS config ->
  let r := retrieveContext config provider disk fileId query in
  Retrieval.totalTokens r = sumTokens (Retrieval.chunks r)
  /\ Retrieval.totalTokens r <= MAX_CONTEXT_TOKENS config
  /\ len' (Retrieval.chunks r) <= Z.max 0 (RETRIEVAL_TOP_K config)
  /\ (Retrieval.error r <> None ->
      Retrieval.chunks r = [] /\ Retrieval.totalTokens r = 0).
Proof.
  intros Hmax. unfold retrieveContext.
  assert (Hempty : forall e : option jsstring,
    let r := {| Retrieval.chunks := []; Retrieval.totalTokens := 0;
                Retrieval.error := e |} in
    Retrieval.totalTokens r = sumTokens (Retrieval.chunks r)
    /\ Retrieval.totalTokens r <= MAX_CONTEXT_TOKENS config
    /\ len' (Retrieval.chunks r) <= Z.max 0 (RETRIEVAL_TOP_K config)
    /\ (Retrieval.error r <> None ->
        Retrieval.chunks r = [] /\ Retrieval.totalTokens r = 0)).
  { intros e. cbn. unfold len'. cbn [length]. repeat split; lia. }
  destruct (loadIndex disk fileId) as [index|]; [|apply Hempty].
  destruct (len' (Indexing.chunks index) =? 0); [apply Hempty|].
  destruct (embedQueries provider (expandQuery provider query)) as [queryEmbeds|e];
    [|apply Hempty].
  cbn [bind].
  destruct (mmrSearch queryEmbeds (Indexing.chunks index) (RETRIEVAL_TOP_K config)
              (MMR_LAMBDA config)) as [retrieved|e] eqn:Hsearch; [|apply Hempty].
  cbn [bind Retrieval.chunks Retrieval.totalTokens Retrieval.error].
  split; [reflexivity|]. split.
  { pose proof (compressLoop_budget retrieved (MAX_CONTEXT_TOKENS config) 0 Hmax).
    unfold compressContext. lia. }
  split; [|congruence].
  apply mmrSearch_length_bound in Hsearch.
  pose proof (compressLoop_length retrieved (MAX_CONTEXT_TOKENS config) 0).
  unfold compressContext, len' in *. lia.
Qed.

(** ** retrieval.ts: definition indicators *)

Lemma matchesChar_refl (c : N) : matchesChar c c = true.
Proof. unfold matchesChar. now rewrite N.eqb_refl. Qed.

Lemma matchPrefix_app (pattern rest : jsstring) :
  matchPrefix pattern (pattern ++ rest) = Some rest.
Proof.
  induction pattern as [|p pattern IH]; [now destruct rest|].
  cbn [app matchPrefix]. now rewrite matchesChar_refl.
Qed.

Lemma testFrom_found (here : option N -> jsstring -> bool) (before : jsstring)
  (c : N) (s : jsstring) (prev : option N) :
  here (Some c) s = true -> testFrom here prev (before ++ c :: s) = true.
Proof.
  intros Hhere. revert prev. induction before as [|b before IH]; intros prev.
  - cbn [app testFrom]. destruct s; cbn [testFrom]; rewrite Hhere;
      now rewrite !orb_true_r.
  - cbn [app testFrom]. rewrite IH. apply orb_true_r.
Qed.

Lemma phraseHere_between_spaces (phrase after : jsstring) :
  phraseHere phrase (Some 32%N) (phrase ++ lit " " ++ after) = true.
Proof. unfold phraseHere. now rewrite matchPrefix_app. Qed.

Lemma pattern_found (pattern : option N -> jsstring -> bool) (phrase : jsstring) :
  In pattern definitionPatterns ->
  (forall prev s, phraseHere phrase prev s = true -> pattern prev s = true) ->
  forall before after,
    hasDefinitionIndicators (before ++ lit " " ++ phrase ++ lit " " ++ after) = true.
Proof.
  intros Hin Hpattern before after. unfold hasDefinitionIndicators.
  apply existsb_exists. exists pattern. split; [exact Hin|].
  unfold test. change (lit " " ++ phrase ++ lit " " ++ after)
    with (32%N :: phrase ++ lit " " ++ after).
  apply testFrom_found, Hpattern, phraseHere_between_spaces.
Qed.

(** X21. A text in which one of the phrases "is defined as", "refers to",
    "means that", "is a", "is an", "define", "definition", "defined",
    "characterized by", "can be described as", "essentially" or "in other
    words" stands between two spaces has definition indicators, whatever is
    around it. *)
Theorem hasDefinitionIndicators_phrase (phrase before after : jsstring) :
  phrase ∈ definitionPhrases ->
  hasDefinitionIndicators (before ++ lit " " ++ phrase ++ lit " " ++ after) = true.
Proof.
  intros Hin. apply list_elem_of_In in Hin. unfold definitionPhrases in Hin.
  cbn [In] in Hin.
  pose (pattern i := nth i definitionPatterns (fun _ _ => false)).
  assert (Hlisted : forall i, (i < 11)%nat -> In (pattern i) definitionPatterns).
  { intros i Hi. apply nth_In. exact Hi. }
  destruct Hin as [<-|[<-|[<-|[<-|[<-|[<-|[<-|[<-|[<-|[<-|[<-|[<-|[]]]]]]]]]]]]].
  - apply (pattern_found (pattern 0%nat)); [apply Hlisted; lia | auto].
  - apply (pattern_found (pattern 1%nat)); [apply Hlisted; lia | auto].
  - apply (pattern_found (pattern 2%nat)); [apply Hlisted; lia | auto].
  - apply (pattern_found (pattern 3%nat)); [apply Hlisted; lia | auto].
  - apply (pattern_found (pattern 4%nat)); [apply Hlisted; lia | auto].
  - apply (pattern_found (pattern 5%nat)); [apply Hlisted; lia |].
    intros prev s H. unfold pattern, definitionPatterns. cbn [nth]. now rewrite H.
  - apply (pattern_found (pattern 5%nat)); [apply Hlisted; lia |].
    intros prev s H. unfold pattern, definitionPatterns. cbn [nth]. rewrite H.
    now rewrite ?orb_true_r.
  - apply (pattern_found (pattern 5%nat)); [apply Hlisted; lia |].
    intros prev s H. unfold pattern, definitionPatterns. cbn [nth]. rewrite H.
    now rewrite ?orb_true_r.
  - apply (pattern_found (pattern 6%nat)); [apply Hlisted; lia | auto].
  - apply (pattern_found (pattern 7%nat)); [apply Hlisted; lia | auto].
  - apply (pattern_found (pattern 8%nat)); [apply Hlisted; lia | auto].
  - apply (pattern_found (pattern 9%nat)); [apply Hlisted; lia | auto].
Qed.

(** ** The statements on samples *)

(** Two of the three sample chunks, asked for with the query [[1, 0]]. *)
Lemma mmrSearch_length_witness :
  mmrSearch [[1; 0]%float] threeChunks 2 0.3 = Ok twoRetrieved
  /\ len' twoRetrieved = 2.
Proof.
  assert (H : mmrSearch [[1; 0]%float] threeChunks 2 0.3 = Ok twoRetrieved).
  { vm_compute. reflexivity. }
  split; [exact H|].
  rewrite (mmrSearch_length [[1; 0]%float] threeChunks 2 0.3 twoRetrieved H).
  reflexivity.
Defined.

Lemma mmrSearch_returns_chunks_given_witness :
  mmrSearch [[1; 0]%float] threeChunks 2 0.3 = Ok twoRetrieved
  /\ map base twoRetrieved ⊆+ threeChunks.
Proof.
  assert (H : mmrSearch [[1; 0]%float] threeChunks 2 0.3 = Ok twoRetrieved).
  { vm_compute. reflexivity. }
  split; [exact H|].
  exact (mmrSearch_returns_chunks_given [[1; 0]%float] threeChunks 2 0.3 twoRetrieved H).
Defined.

(** The first of the two is the chunk about limits, the one along the
    query. *)
Lemma mmrSearch_first_is_most_similar_witness :
  chunk_no (base firstRetrieved) = 1
  /\ Forall (fun c => (similarity firstRetrieved <? similarity c)%float = false)
       threeCandidates.
Proof.
  split; [vm_compute; reflexivity|].
  apply (mmrSearch_first_is_most_similar [[1; 0]%float] threeChunks 2 0.3
           threeCandidates (List.tl twoRetrieved) firstRetrieved).
  - vm_compute. reflexivity.
  - vm_compute. repeat constructor.
  - vm_compute. reflexivity.
Defined.

(** The three ranked chunks, 210 tokens together, under a budget of 1600. *)
Lemma compressContext_keeps_what_fits_witness :
  sumTokens ranking = 210 /\ compressContext ranking 1600 = ranking.
Proof.
  split; [reflexivity|]. apply compressContext_keeps_what_fits.
  - unfold ranking. repeat constructor; cbn; lia.
  - vm_compute. discriminate.
Defined.

(** The default settings: 8 chunks, 1600 tokens. *)
Lemma retrieveContext_within_settings_witness :
  let r := retrieveContext defaultConfig sampleProvider threeChunkDisk 9
             (lit "What is a limit?") in
  Retrieval.error r = None
  /\ Retrieval.totalTokens r = sumTokens (Retrieval.chunks r)
  /\ Retrieval.totalTokens r <= 1600
  /\ len' (Retrieval.chunks r) <= 8.
Proof.
  intros r. split; [vm_compute; reflexivity|].
  destruct (retrieveContext_within_settings defaultConfig sampleProvider threeChunkDisk 9
              (lit "What is a limit?")) as (Hsum & Hmax & Hk & _).
  - cbn. lia.
  - repeat split; assumption.
Defined.

(** "A limit is a value." *)
Lemma hasDefinitionIndicators_phrase_witness :
  hasDefinitionIndicators (lit "A limit" ++ lit " " ++ lit "is a" ++ lit " " ++ lit "value.")
  = true.
Proof.
  apply (hasDefinitionIndicators_phrase (lit "is a") (lit "A limit") (lit "value.")).
  unfold definitionPhrases.
  repeat first [apply list_elem_of_here | apply list_elem_of_further].
Defined.

End RankingFacts.

Section MemoryFacts.
Import DbWrites Prompts.

(** ** streaming.ts: what goes into the prompt *)

Section PromptContents.
Import Streaming.

Lemma contextCost_nonneg (chunks : list RetrievedChunk) : 0 <= contextCost chunks.
Proof.
  unfold contextCost. induction chunks as [|c chunks IH]; cbn [foldr]; [lia|].
  pose proof (len_le_estimate (Streaming.chunkText c)).
  pose proof (len_nonneg (Streaming.chunkText c)). lia.
Qed.

Lemma contextLoop_prefix (chunks : list RetrievedChunk) (tokensUsed : Z) :
  exists n : nat,
    (n <= length chunks)%nat
    /\ contextLoop chunks tokensUsed
       = (concat (map Streaming.chunkText (take n chunks)),
          map (fun chunk =>
                 {| page_start := Indexing.page_start (base chunk);
                    page_end := Indexing.page_end (base chunk);
                    chunk_no := Indexing.chunk_no (base chunk) |}) (take n chunks))
    /\ (n = 0%nat \/ tokensUsed + contextCost (take n chunks) <= MAX_PROMPT_TOKENS - 200)
    /\ (n = length chunks
        \/ MAX_PROMPT_TOKENS - 200 < tokensUsed + contextCost (take (S n) chunks)).
Proof.
  revert tokensUsed. induction chunks as [|c chunks IH]; intros tokensUsed.
  - exists 0%nat. repeat split; auto.
  - cbn [contextLoop].
    destruct (Z.ltb_spec (MAX_PROMPT_TOKENS - 200)
                (tokensUsed + Streaming.estimateTokens (Streaming.chunkText c)))
      as [Hover|Hfit].
    + exists 0%nat. split; [apply Nat.le_0_l|]. split; [reflexivity|].
      split; [now left|].
      right. unfold contextCost. cbn [firstn foldr]. rewrite take_0.
      cbn [foldr]. lia.
    + destruct (IH (tokensUsed + Streaming.estimateTokens (Streaming.chunkText c)))
        as (n & Hn & -> & Hin & Hout).
      exists (S n). split; [cbn [length]; lia|]. split; [reflexivity|].
      unfold contextCost in *. cbn [firstn foldr length]. split.
      * right. destruct Hin as [-> | Hin]; [rewrite take_0; cbn [foldr]; lia | lia].
      * destruct Hout as [-> | Hout]; [now left | right; lia].
Qed.

(** X22. The citations and the context message of a prompt hold the first [n]
    retrieved chunks in their order, where [n] is the largest number of
    leading chunks whose texts fit, on top of the system prompt, the user
    message and the memory, within 2600 estimated tokens. A chunk that does
    not fit ends the list: no later chunk is taken in its place. With
    [n = 0] the context message is the notice that no relevant sections were
    found. *)
Theorem buildPrompt_context_prefix (systemPrompt : jsstring) (pdfContext : PdfContext)
  (threadSummary userMessage : jsstring) (retrievedChunks : list RetrievedChunk) :
  let prompt :=
    buildPrompt systemPrompt pdfContext threadSummary userMessage retrievedChunks in
  let used := usedBeforeChunks systemPrompt pdfContext threadSummary userMessage in
  exists n : nat,
    (n <= length retrievedChunks)%nat
    /\ snd prompt
       = map (fun chunk =>
                {| page_start := Indexing.page_start (base chunk);
                   page_end := Indexing.page_end (base chunk);
                   chunk_no := Indexing.chunk_no (base chunk) |})
           (take n retrievedChunks)
    /\ fst prompt !! 1%nat
       = Some {| role := system;
                 content :=
                   if (n =? 0)%nat then noSectionsNotice
                   else sectionsHeader
                          ++ concat (map Streaming.chunkText (take n retrievedChunks)) |}
    /\ (n = 0%nat \/ used + contextCost (take n retrievedChunks) <= 2600)
    /\ (n = length retrievedChunks
        \/ 2600 < used + contextCost (take (S n) retrievedChunks)).
Proof.
  unfold buildPrompt, usedBeforeChunks.
  destruct (fitSummary threadSummary _) as [summary used].
  destruct (contextLoop_prefix retrievedChunks used) as (n & Hn & -> & Hin & Hout).
  exists n. cbn [fst snd]. split; [exact Hn|]. split; [reflexivity|]. split.
  - cbn [app lookup list_lookup]. rewrite length_map.
    destruct n; [reflexivity|].
    destruct retrievedChunks; [cbn in Hn; lia | reflexivity].
  - split; [exact Hin | exact Hout].
Qed.

(** X23. When the system prompt and the user message are estimated at 2300
    tokens or more, a memory that is not empty goes into the prompt as three
    dots alone: nothing of its text is kept. *)
Theorem buildPrompt_memory_without_room (systemPrompt : jsstring)
  (pdfContext : PdfContext) (threadSummary userMessage : jsstring)
  (retrievedChunks : list RetrievedChunk) :
  threadSummary <> [] ->
  2300 <= Streaming.estimateTokens (fullSystemPrompt systemPrompt pdfContext)
          + Streaming.estimateTokens userMessage ->
  fst (buildPrompt systemPrompt pdfContext threadSummary userMessage retrievedChunks)
  !! 2%nat
  = Some {| role := system;
            content := lit "Previous conversation:" ++ nl ++ lit "..." |}.
Proof.
  intros Hne Hused. unfold buildPrompt, fitSummary.
  assert (Htruthy : truthy threadSummary && (0 <? len threadSummary) = true).
  { destruct threadSummary; [congruence|]. reflexivity. }
  rewrite Htruthy.
  set (used := Streaming.estimateTokens (fullSystemPrompt systemPrompt pdfContext)
               + Streaming.estimateTokens userMessage) in *.
  assert (Hfull : (used + Streaming.estimateTokens threadSummary
                   <? MAX_PROMPT_TOKENS - 500) = false).
  { apply Z.ltb_ge. pose proof (len_le_estimate threadSummary).
    pose proof (len_nonneg threadSummary). unfold MAX_PROMPT_TOKENS. lia. }
  rewrite Hfull.
  assert (Hcut : substring0 threadSummary ((MAX_PROMPT_TOKENS - used - 500) * 4) = []).
  { unfold substring0, MAX_PROMPT_TOKENS.
    replace (Z.to_nat ((2800 - used - 500) * 4)) with 0%nat by lia. reflexivity. }
  rewrite Hcut. cbn [app].
  destruct (contextLoop retrievedChunks _) as [text citations]. reflexivity.
Qed.

End PromptContents.

(** ** db.ts: the index row *)

(** Without a database [createOrUpdateIndex] throws "Database not
    available". With one it does not throw: afterwards the document has a
    row, with the status given (PENDING for a new row when none is given);
    the rows of the other documents, the files and the messages are as they
    were. *)
Lemma createOrUpdateIndex_writes_one_row (data : Db.InsertPdfIndex)
  (tables : Schema.Tables) :
  Db.createOrUpdateIndex data None = Throw (Error (lit "Database not available"))
  /\ exists tables' row,
       Db.createOrUpdateIndex data (Some tables) = Ok tables'
       /\ Db.getIndexByFileId (Some tables') (Db.fileId data) = Some row
       /\ Schema.status row
          = match Db.newStatus data, Db.getIndexByFileId (Some tables) (Db.fileId data) with
            | Some given, _ => given
            | None, Some before => Schema.status before
            | None, None => Schema.PENDING
            end
       /\ (forall other, other <> Db.fileId data ->
             Db.getIndexByFileId (Some tables') other
             = Db.getIndexByFileId (Some tables) other)
       /\ Schema.pdfFiles tables' = Schema.pdfFiles tables
       /\ Schema.pdfMessages tables' = Schema.pdfMessages tables.
Proof.
  split; [reflexivity|]. eexists _, _. split; [reflexivity|].
  cbn [Db.getIndexByFileId Schema.pdfIndexes Schema.pdfFiles Schema.pdfMessages].
  split; [apply lookup_insert_eq|]. split.
  - destruct (Schema.pdfIndexes tables !! Db.fileId data);
      cbn [Schema.status Db.updatedRow Db.insertedRow];
      destruct (Db.newStatus data); reflexivity.
  - split; [|split; reflexivity]. intros other Hother. now rewrite lookup_insert_ne.
Qed.

(** ** db.ts: the messages of a thread *)

Lemma insertByCreatedAt_perm (m : Schema.PdfMessage) (sorted : list Schema.PdfMessage) :
  Db.insertByCreatedAt m sorted ≡ₚ m :: sorted.
Proof.
  induction sorted as [|m' sorted IH]; [reflexivity|]. cbn [Db.insertByCreatedAt].
  destruct (Schema.createdAt m' <? Schema.createdAt m); [|reflexivity].
  rewrite IH. apply Permutation_swap.
Qed.

Lemma orderByCreatedAt_perm (rows : list Schema.PdfMessage) :
  Db.orderByCreatedAt rows ≡ₚ rows.
Proof.
  induction rows as [|m rows IH]; [reflexivity|].
  unfold Db.orderByCreatedAt in *. cbn [fold_right].
  now rewrite insertByCreatedAt_perm, IH.
Qed.

Lemma insertByCreatedAt_sorted (m : Schema.PdfMessage) (sorted : list Schema.PdfMessage) :
  StronglySorted (fun a b => Schema.createdAt a <= Schema.createdAt b) sorted ->
  StronglySorted (fun a b => Schema.createdAt a <= Schema.createdAt b)
    (Db.insertByCreatedAt m sorted).
Proof.
  induction 1 as [|m' sorted Hsorted IH Hm']; cbn [Db.insertByCreatedAt].
  - repeat constructor.
  - destruct (Z.ltb_spec (Schema.createdAt m') (Schema.createdAt m)) as [Hlt|Hge].
    + constructor; [exact IH|]. rewrite insertByCreatedAt_perm.
      constructor; [lia | exact Hm'].
    + constructor; [now constructor|]. constructor; [exact Hge|].
      eapply Forall_impl; [exact Hm'|]. cbn. intros r Hr. lia.
Qed.

Lemma orderByCreatedAt_sorted (rows : list Schema.PdfMessage) :
  StronglySorted (fun a b => Schema.createdAt a <= Schema.createdAt b)
    (Db.orderByCreatedAt rows).
Proof.
  induction rows as [|m rows IH]; [constructor|].
  unfold Db.orderByCreatedAt in *. cbn [fold_right]. now apply insertByCreatedAt_sorted.
Qed.

(** X24. [getThreadMessages] returns rows of the table that belong to the thread
    asked for, each at most as often as the table holds it, at most [limit]
    of them, the earlier before the later. *)
Theorem getThreadMessages_of_thread_in_order (tables : Schema.Tables)
  (thread : jsstring) (limit : Z) :
  let messages := Db.getThreadMessages (Some tables) thread limit in
  messages ⊆+ Schema.pdfMessages tables
  /\ Forall (fun m => Schema.threadId m = thread) messages
  /\ (length messages <= Z.to_nat limit)%nat
  /\ StronglySorted (fun a b => Schema.createdAt a <= Schema.createdAt b) messages.
Proof.
  cbn [Db.getThreadMessages].
  set (rows := filter (fun m => Schema.threadId m = thread) (Schema.pdfMessages tables)).
  split.
  { etransitivity; [apply sublist_submseteq, sublist_take|].
    rewrite orderByCreatedAt_perm. apply sublist_submseteq, sublist_filter. }
  split.
  { apply Forall_take. rewrite orderByCreatedAt_perm.
    apply Forall_forall. intros m Hm.
    now apply list_elem_of_filter in Hm as [Hm _]. }
  split; [rewrite length_take; lia|].
  pose proof (orderByCreatedAt_sorted rows) as Hsorted.
  rewrite <- (take_drop (Z.to_nat limit) (Db.orderByCreatedAt rows)) in Hsorted.
  now apply StronglySorted_app_1_l in Hsorted.
Qed.

(** ** db.ts: adding to a thread *)

Lemma insertByCreatedAt_Forall (P : Schema.PdfMessage -> Prop) (m : Schema.PdfMessage)
  (sorted : list Schema.PdfMessage) :
  P m -> Forall P sorted -> Forall P (Db.insertByCreatedAt m sorted).
Proof. intros Hm Hall. rewrite insertByCreatedAt_perm. now constructor. Qed.

(** A row later than all the others sorts behind them. *)
Lemma insertByCreatedAt_before_last (x m : Schema.PdfMessage)
  (sorted : list Schema.PdfMessage) :
  Schema.createdAt x < Schema.createdAt m ->
  Db.insertByCreatedAt x (sorted ++ [m]) = Db.insertByCreatedAt x sorted ++ [m].
Proof.
  intros Hx. induction sorted as [|y sorted IH]; cbn [app Db.insertByCreatedAt].
  - replace (Schema.createdAt m <? Schema.createdAt x) with false
      by (symmetry; apply Z.ltb_ge; lia).
    reflexivity.
  - destruct (Schema.createdAt y <? Schema.createdAt x); [|reflexivity].
    now rewrite IH.
Qed.

Lemma orderByCreatedAt_latest (rows : list Schema.PdfMessage) (m : Schema.PdfMessage) :
  Forall (fun x => Schema.createdAt x < Schema.createdAt m) rows ->
  Db.orderByCreatedAt (rows ++ [m]) = Db.orderByCreatedAt rows ++ [m].
Proof.
  unfold Db.orderByCreatedAt.
  induction 1 as [|x rows Hx Hall IH]; [reflexivity|].
  cbn [app fold_right]. rewrite IH. now apply insertByCreatedAt_before_last.
Qed.

(** The messages of a thread after a message was added to it later than
    all it held. *)
Lemma getThreadMessages_added (data : InsertPdfMessage) (now limit : Z)
  (tables tables' : Schema.Tables) :
  addMessage data now (Some tables) = Ok tables' ->
  Forall (fun m => Schema.threadId m = newThreadId data -> Schema.createdAt m < now)
    (Schema.pdfMessages tables) ->
  exists row,
    Schema.threadId row = newThreadId data
    /\ Schema.role row = newRole data
    /\ Schema.content row = newContent data
    /\ Db.getThreadMessages (Some tables') (newThreadId data) limit
       = take (Z.to_nat limit)
           (Db.orderByCreatedAt
              (filter (fun m => Schema.threadId m = newThreadId data)
                 (Schema.pdfMessages tables)) ++ [row]).
Proof.
  intros [= <-] Hearlier.
  exists {| Schema.threadId := newThreadId data;
            Schema.role := newRole data;
            Schema.content := newContent data;
            Schema.tokenCount := from_option Some (Some 0) (newTokenCount data);
            Schema.citations := newCitations data;
            Schema.createdAt := now |}.
  split; [|split; [|split]]; [reflexivity..|].
  cbn [Db.getThreadMessages Schema.pdfMessages]. rewrite filter_app.
  rewrite filter_cons_True by reflexivity. rewrite filter_nil.
  rewrite orderByCreatedAt_latest; [reflexivity|].
  apply Forall_forall. intros m Hm. apply list_elem_of_filter in Hm as [Hthread Hm].
  rewrite Forall_forall in Hearlier. now apply Hearlier.
Qed.

(** X25. A message added to a thread that holds fewer than [limit] messages,
    later than all of them, is read back as the last message of the thread,
    after the messages the thread held. *)
Theorem addMessage_read_back_last (data : InsertPdfMessage) (now limit : Z)
  (tables tables' : Schema.Tables) :
  addMessage data now (Some tables) = Ok tables' ->
  Forall (fun m => Schema.threadId m = newThreadId data -> Schema.createdAt m < now)
    (Schema.pdfMessages tables) ->
  len' (filter (fun m => Schema.threadId m = newThreadId data)
          (Schema.pdfMessages tables)) < limit ->
  exists row,
    Schema.threadId row = newThreadId data
    /\ Schema.role row = newRole data
    /\ Schema.content row = newContent data
    /\ Db.getThreadMessages (Some tables') (newThreadId data) limit
       = Db.getThreadMessages (Some tables) (newThreadId data) limit ++ [row].
Proof.
  intros Hadd Hearlier Hroom.
  destruct (getThreadMessages_added data now limit tables tables' Hadd Hearlier)
    as (row & H1 & H2 & H3 & ->).
  exists row. repeat split; try assumption.
  cbn [Db.getThreadMessages].
  unfold len' in Hroom. rewrite <- orderByCreatedAt_length in Hroom.
  rewrite !take_ge; [reflexivity | lia |].
  rewrite length_app. cbn [length]. lia.
Qed.

(** X26. Once a thread holds [limit] messages or more, a message added to it
    later than all of them is not among the messages read: the first [limit]
    messages of the thread are the same as before, and so is the memory that
    [getThreadSummary] builds from the first hundred. *)
Theorem addMessage_beyond_limit_unread (provider : Provider) (data : InsertPdfMessage)
  (now limit : Z) (tables tables' : Schema.Tables) :
  addMessage data now (Some tables) = Ok tables' ->
  Forall (fun m => Schema.threadId m = newThreadId data -> Schema.createdAt m < now)
    (Schema.pdfMessages tables) ->
  limit <= len' (filter (fun m => Schema.threadId m = newThreadId data)
                   (Schema.pdfMessages tables)) ->
  Db.getThreadMessages (Some tables') (newThreadId data) limit
  = Db.getThreadMessages (Some tables) (newThreadId data) limit
  /\ (limit = 100 ->
      Db.getThreadSummary provider (Some tables') (newThreadId data)
      = Db.getThreadSummary provider (Some tables) (newThreadId data)).
Proof.
  intros Hadd Hearlier Hfull.
  destruct (getThreadMessages_added data now limit tables tables' Hadd Hearlier)
    as (row & _ & _ & _ & Hread).
  assert (Hsame : Db.getThreadMessages (Some tables') (newThreadId data) limit
                  = Db.getThreadMessages (Some tables) (newThreadId data) limit).
  { rewrite Hread. cbn [Db.getThreadMessages].
    unfold len' in Hfull. rewrite <- orderByCreatedAt_length in Hfull.
    apply take_app_le. lia. }
  split; [exact Hsame|]. intros ->. unfold Db.getThreadSummary. now rewrite Hsame.
Qed.

(** A message added to one thread leaves the messages read for any other
    thread, and the memory built from them, as they were. *)
Lemma addMessage_other_thread (provider : Provider) (data : InsertPdfMessage)
  (now limit : Z) (tables tables' : Schema.Tables) (thread : jsstring) :
  addMessage data now (Some tables) = Ok tables' ->
  thread <> newThreadId data ->
  Db.getThreadMessages (Some tables') thread limit
  = Db.getThreadMessages (Some tables) thread limit
  /\ Db.getThreadSummary provider (Some tables') thread
     = Db.getThreadSummary provider (Some tables) thread.
Proof.
  intros Hadd Hother.
  assert (Hsame : forall n, Db.getThreadMessages (Some tables') thread n
                            = Db.getThreadMessages (Some tables) thread n).
  { intros n. injection Hadd as <-.
    cbn [Db.getThreadMessages Schema.pdfMessages]. rewrite filter_app.
    rewrite filter_cons_False by (cbn; congruence).
    now rewrite filter_nil, app_nil_r. }
  split; [apply Hsame|]. unfold Db.getThreadSummary. now rewrite Hsame.
Qed.

(** ** The statements on samples *)

(** A user message of 9200 characters, 2300 tokens, and a short memory. *)
Lemma buildPrompt_memory_without_room_witness :
  fst (Streaming.buildPrompt [] lecture (lit "user: What is a limit?") (letters 9200) [])
  !! 2%nat
  = Some {| Streaming.role := Streaming.system;
            Streaming.content := lit "Previous conversation:" ++ nl ++ lit "..." |}.
Proof.
  apply (buildPrompt_memory_without_room [] lecture (lit "user: What is a limit?")
           (letters 9200) []).
  - discriminate.
  - vm_compute. discriminate.
Defined.

(** A third message for a thread of two. *)
Lemma addMessage_read_back_last_witness :
  exists row,
    Schema.content row = lit "And a derivative?"
    /\ Db.getThreadMessages (Some (withLaterRow shortThreadTables)) (lit "thread-1") 100
       = Db.getThreadMessages (Some shortThreadTables) (lit "thread-1") 100 ++ [row].
Proof.
  destruct (addMessage_read_back_last laterMessage 200 100 shortThreadTables
              (withLaterRow shortThreadTables) eq_refl)
    as (row & _ & _ & Hcontent & Hread).
  - unfold shortThreadTables. cbn [Schema.pdfMessages].
    apply Forall_forall. intros m Hm _. apply list_elem_of_In in Hm.
    vm_compute in Hm. destruct Hm as [<-|[<-|[]]]; reflexivity.
  - vm_compute. reflexivity.
  - exists row. split; [exact Hcontent | exact Hread].
Defined.

(** A message for the thread of 101 messages. *)
Lemma addMessage_beyond_limit_unread_witness :
  Db.getThreadMessages (Some (withLaterRow longThreadTables)) (lit "thread-1") 100
  = Db.getThreadMessages (Some longThreadTables) (lit "thread-1") 100
  /\ Db.getThreadSummary sampleProvider (Some (withLaterRow longThreadTables))
       (lit "thread-1")
     = Db.getThreadSummary sampleProvider (Some longThreadTables) (lit "thread-1").
Proof.
  destruct (addMessage_beyond_limit_unread sampleProvider laterMessage 200 100
              longThreadTables (withLaterRow longThreadTables) eq_refl)
    as [Hread Hmemory].
  - unfold longThreadTables, longThread. cbn [Schema.pdfMessages].
    apply Forall_fmap, Forall_fmap, Forall_forall. intros n Hn _.
    apply elem_of_seq in Hn. cbn [Schema.createdAt compose]. lia.
  - vm_compute. discriminate.
  - split; [exact Hread | exact (Hmemory eq_refl)].
Defined.

End MemoryFacts.

Section EndpointFacts.
Import DbWrites.

(** ** openai.ts: [chatWithPDF] *)

(** X27. Without an API key, and no client made earlier, [chatWithPDF] throws
    "OpenAI client not configured". When it returns, its answer is never the
    empty string: it is the content of the completion, or, for a completion
    without content or with an empty one, "I couldn't generate a
    response.". *)
Theorem chatWithPDF_answer (apiKey : bool) (create : Chat.Completions)
  (openaiClient : bool) (messages : list Streaming.Message) (pdfText : jsstring)
  (systemPrompt : option jsstring) :
  (apiKey = false -> openaiClient = false ->
   fst (Chat.chatWithPDF apiKey create openaiClient messages pdfText systemPrompt)
   = Throw (Error (lit "OpenAI client not configured")))
  /\ (forall answer,
        fst (Chat.chatWithPDF apiKey create openaiClient messages pdfText systemPrompt)
        = Ok answer ->
        answer <> []
        /\ (create (Chat.requestMessages messages pdfText systemPrompt)
            = Ok (Some answer)
            \/ answer = Chat.noResponse
               /\ (create (Chat.requestMessages messages pdfText systemPrompt)
                   = Ok None
                   \/ create (Chat.requestMessages messages pdfText systemPrompt)
                      = Ok (Some [])))).
Proof.
  split.
  - intros -> ->. reflexivity.
  - intros answer. unfold Chat.chatWithPDF, Chat.getOpenAIClient.
    destruct (negb (if negb openaiClient && apiKey then true else openaiClient));
      [discriminate|].
    destruct (create _) as [[text|]|e]; cbn [fst]; [| |discriminate].
    + destruct text as [|c text]; intros [= <-].
      * split; [discriminate|]. right. split; [reflexivity|]. now right.
      * split; [discriminate|]. now left.
    + intros [= <-]. split; [discriminate|]. right. split; [reflexivity|]. now left.
Qed.

(** The request of [chatWithPDF] opens with two system messages, the second
    of which quotes the first 15000 characters of the text and no more, so
    that it is never longer than 15106 characters; the messages of the
    caller follow unchanged. *)
Lemma chatWithPDF_request_bounded (messages : list Streaming.Message)
  (pdfText : jsstring) (systemPrompt : option jsstring) :
  exists systemMessage contextMessage,
    Chat.requestMessages messages pdfText systemPrompt
    = {| Streaming.role := Streaming.system; Streaming.content := systemMessage |}
      :: {| Streaming.role := Streaming.system; Streaming.content := contextMessage |}
      :: messages
    /\ systemMessage <> []
    /\ len contextMessage <= 15106
    /\ (len pdfText <= 15000 ->
        contextMessage
        = lit "Here is the content from the student's lecture PDF:" ++ nl ++ nl
            ++ pdfText ++ nl ++ nl
            ++ lit "Use this content to answer the student's questions.").
Proof.
  eexists _, _. split; [reflexivity|]. split; [|split].
  - destruct systemPrompt as [[|c prompt]|]; discriminate.
  - rewrite !len_app.
    pose proof (len_substring0 pdfText 15000) as Hcut. unfold substring0 in Hcut.
    set (a := len (lit "Here is the content from the student's lecture PDF:")).
    set (b := len (lit "Use this content to answer the student's questions.")).
    vm_compute in a, b. change (len nl) with 1. lia.
  - intros Hshort. rewrite take_ge; [reflexivity|]. unfold len in Hshort. lia.
Qed.

(** ** _core/index.ts: the chat endpoint *)

Import ChatEndpoint.

Lemma tokenText_snoc (events : list Event) (content : jsstring) :
  tokenText (events ++ [TokenEvent content]) = tokenText events ++ content.
Proof.
  unfold tokenText. rewrite omap_app, concat_app.
  change (omap _ [TokenEvent content]) with [content].
  cbn [concat]. now rewrite app_nil_r.
Qed.

(** What the loop has put together is the text of the tokens it has
    written. *)
Lemma readItems_text (items : list StreamItem) (state : jsstring * list Event * Z) :
  fst (fst state) = tokenText (snd (fst state)) ->
  fst (fst (fold_left readItem items state))
  = tokenText (snd (fst (fold_left readItem items state))).
Proof.
  apply (fold_left_invariant (fun st => fst (fst st) = tokenText (snd (fst st)))).
  intros [[full written] first] item Hst. cbn [fst snd] in Hst.
  destruct item as [content|timing]; cbn [readItem fst snd]; [|exact Hst].
  now rewrite tokenText_snoc, Hst.
Qed.


(** X28. A request for a document whose index row is missing or not READY is
    answered with the one error event "PDF not indexed yet. Please wait for
    indexing to complete."; nothing is saved: the database and the disk are
    as they were. *)
Theorem postChatStream_waits_for_index (env : Env) (req : Request)
  (w : Routers.World) :
  fileId req <> 0 -> threadId req <> [] -> message req <> [] ->
  (forall row, Db.getIndexByFileId (Routers.database w) (fileId req) = Some row ->
               Schema.status row <> Schema.READY) ->
  postChatStream env req w
  = (EventStream
       [ErrorEvent (lit "PDF not indexed yet. Please wait for indexing to complete.")],
     w).
Proof.
  intros Hfile Hthread Hmessage Hrow. unfold postChatStream.
  replace (fileId req =? 0) with false by (symmetry; now apply Z.eqb_neq).
  destruct (threadId req) eqn:Ht; [congruence|].
  destruct (message req) eqn:Hm; [congruence|].
  cbn [truthy negb orb].
  destruct (Db.getIndexByFileId (Routers.database w) (fileId req)) as [row|];
    [|reflexivity].
  specialize (Hrow row eq_refl).
  destruct (Schema.status row) eqn:Hs; try reflexivity. congruence.
Qed.

(** X29. The endpoint only ever adds messages to the thread of the request, and
    what it adds goes with how the response ends. Either nothing is saved and
    the response is a 400 or a single error event; or the user's message
    alone is saved and the response ends with an error event; or the user's
    message and the assistant's are saved, the response ends with the done
    event, and the assistant's message is the text of the token events sent,
    with the citations of the done event. The files, the index rows and the
    disk are never written. *)
Theorem postChatStream_saves_with_outcome (env : Env) (req : Request)
  (w : Routers.World) :
  let out := postChatStream env req w in
  (snd out = w
   /\ exists e, fst out = BadRequest e \/ fst out = EventStream [ErrorEvent e])
  \/
  (exists tables events e,
     Routers.database w = Some tables
     /\ snd out = {| Routers.database := Some (withMessages tables [userRow env req]);
                     Routers.disk := Routers.disk w |}
     /\ fst out = EventStream (events ++ [ErrorEvent e]))
  \/
  (exists tables events reply citations totalMs firstTokenMs retrievalMs,
     Routers.database w = Some tables
     /\ snd out = {| Routers.database :=
                       Some (withMessages tables [userRow env req; reply]);
                     Routers.disk := Routers.disk w |}
     /\ fst out
        = EventStream
            (events ++ [DoneEvent citations totalMs firstTokenMs retrievalMs])
     /\ Schema.threadId reply = threadId req
     /\ Schema.role reply = Schema.assistant
     /\ Schema.content reply = tokenText events
     /\ Schema.citations reply = Some (stringifyCitations citations)).
Proof.
  unfold postChatStream.
  destruct ((fileId req =? 0) || negb (truthy (threadId req))
            || negb (truthy (message req))).
  { left. split; [reflexivity|]. eexists. now left. }
  match goal with |- context [negb ?b] => destruct (negb b) end.
  { left. split; [reflexivity|]. eexists. now right. }
  destruct (Db.getPdfFileById (Routers.database w) (fileId req)) as [file|].
  2: { left. split; [reflexivity|]. eexists. now right. }
  destruct (Routers.database w) as [tables|] eqn:Hdb; cbn [addMessage].
  2: { left. split; [reflexivity|]. eexists. now right. }
  fold (userRow env req). fold (withMessages tables [userRow env req]).
  cbn [Routers.disk].
  destruct (truthy (default [] (Retrieval.error _))).
  { right. left. eexists tables, [], _. repeat split. }
  destruct (Streaming.buildPrompt _ _ _ _ _) as [messages citations].
  destruct (streamResponse _ _ _ _ _ messages) as [items failure].
  pose proof (readItems_text items
                ([], [RetrievalTiming
                        (retrievalEnd (times env) - retrievalStart (times env))
                        (Retrieval.totalTokens
                           (retrieveContext (config env) (provider env) (Routers.disk w)
                              (fileId req) (message req)))], 0) eq_refl) as Htext.
  destruct (fold_left readItem items _) as [[fullResponse written] firstTokenMs].
  cbn [fst snd] in Htext.
  destruct failure as [e|].
  { right. left. exists tables, written, (exn_message e). repeat split. }
  right. right. eexists tables, written, _, citations, _, _, _.
  split; [reflexivity|]. split.
  { unfold withMessages. cbn [Schema.pdfMessages Schema.pdfFiles Schema.pdfIndexes].
    rewrite <- app_assoc. reflexivity. }
  split; [reflexivity|]. repeat split. exact Htext.
Qed.



(** ** The statements on samples *)

(** A question about document 8, which has no index row. *)
Lemma postChatStream_waits_for_index_witness :
  postChatStream sampleEnv (question 8) sampleWorld
  = (EventStream
       [ErrorEvent (lit "PDF not indexed yet. Please wait for indexing to complete.")],
     sampleWorld).
Proof.
  apply postChatStream_waits_for_index.
  - discriminate.
  - discriminate.
  - discriminate.
  - intros row Hrow. vm_compute in Hrow. discriminate.
Defined.


End EndpointFacts.
